(** * gitpanic-cli: repository state detector, safety evaluator and action journal

    A shallow embedding of the core of gitpanic-cli (core/gitWrapper.ts,
    core/stateDetector.ts, core/safetyChecks.ts, core/actionHistory.ts, the
    undoCommit command, and the parts of utils/config.ts, ui/prompts.ts and
    ui/spinner.ts they rely on) together with the properties its
    specification states about them.

    The TypeScript code talks to an external git engine through simple-git,
    to the journal file through [fs] and to the operator through prompts.
    All three are modelled by a [World]: the repository (object store, HEAD,
    status lists, refs, reflog), the git invocations that fail unexpectedly,
    the journal file and whether it can be written, the configuration, the
    operator's answers, and the sources of time and randomness. Accessor
    methods are computations in a state-and-exception monad that also
    collects the git commands they issue. Console output is left out. *)

From stdpp Require Import base list strings pretty gmap.
From Stdlib Require Import Ascii ZArith Lia.

Open Scope string_scope.
Open Scope nat_scope.

(** ** JavaScript primitives used by the sources *)

Module Js.

(** [Array.prototype.slice(start)]: a negative [start] counts from the end,
    and [-0] is [0]. *)
Definition slice_from {A} (start : Z) (l : list A) : list A :=
  let len := Z.of_nat (length l) in
  let k := if (start <? 0)%Z then Z.max (len + start) 0%Z else Z.min start len in
  drop (Z.to_nat k) l.

(** [Array.prototype.findIndex]; [None] stands for [-1]. *)
Fixpoint findIndex {A} (p : A → bool) (l : list A) : option nat :=
  match l with
  | [] => None
  | x :: l' => if p x then Some 0 else S <$> findIndex p l'
  end.

(** [s.substring(0, n)]. *)
Definition substring0 (n : nat) (s : string) : string := String.substring 0 n s.

(** [hay.includes(needle)]. *)
Fixpoint includes (needle hay : string) : bool :=
  String.prefix needle hay ||
  match hay with
  | EmptyString => false
  | String _ hay' => includes needle hay'
  end.

(** The double-quote character, as a string. *)
Definition quote : string := String (ascii_of_nat 34) EmptyString.

(** Truthiness of a string: only the empty string is falsy. *)
Definition truthy (s : string) : bool := negb (bool_decide (s = EmptyString)).

(** Truthiness of an optional string ([undefined]/[null] are falsy). *)
Definition truthy_opt (o : option string) : bool :=
  match o with Some s => truthy s | None => false end.

(** Template-literal rendering of a non-negative integer. *)
Definition num (n : nat) : string := pretty n.

(** Character classes of the regular expressions. Strings are sequences of
    code units; the white-space class of [\s] restricted to one-byte units. *)
Definition is_space (c : ascii) : bool :=
  let n := nat_of_ascii c in
  bool_decide (n = 9 ∨ n = 10 ∨ n = 11 ∨ n = 12 ∨ n = 13 ∨ n = 32 ∨ n = 160).

Definition is_line_terminator (c : ascii) : bool :=
  let n := nat_of_ascii c in bool_decide (n = 10 ∨ n = 13).

Definition is_word (c : ascii) : bool :=
  let n := nat_of_ascii c in
  bool_decide ((48 ≤ n ∧ n ≤ 57) ∨ (65 ≤ n ∧ n ≤ 90) ∨ n = 95 ∨ (97 ≤ n ∧ n ≤ 122)).

(** Longest prefix of characters satisfying [p], and the rest. *)
Fixpoint span (p : ascii → bool) (s : string) : string * string :=
  match s with
  | EmptyString => (EmptyString, EmptyString)
  | String c s' =>
      if p c then let '(a, b) := span p s' in (String c a, b) else (EmptyString, s)
  end.

Fixpoint all_chars (p : ascii → bool) (s : string) : bool :=
  match s with
  | EmptyString => true
  | String c s' => p c && all_chars p s'
  end.

(** [strip pre s = Some rest] when [s = pre ++ rest]. *)
Fixpoint strip (pre s : string) : option string :=
  match pre, s with
  | EmptyString, _ => Some s
  | String a pre', String b s' => if bool_decide (a = b) then strip pre' s' else None
  | String _ _, EmptyString => None
  end.

(** First capture group of [s.match(/checkout: moving from (\S+) to/)]:
    at the leftmost position where the literal prefix is followed by a
    non-empty maximal run of non-space characters and then [" to"]. *)
Definition checkout_at (s : string) : option string :=
  match strip "checkout: moving from " s with
  | Some rest =>
      let '(w, tl) := span (λ c, negb (is_space c)) rest in
      if truthy w && String.prefix " to" tl then Some w else None
  | None => None
  end.

Fixpoint match_checkout_from (s : string) : option string :=
  match checkout_at s with
  | Some w => Some w
  | None => match s with
            | EmptyString => None
            | String _ s' => match_checkout_from s'
            end
  end.

(** First capture group of [s.match(/: (.+)$/)]: the leftmost ": " whose
    remainder is non-empty and free of line terminators. *)
Definition colon_rest_at (s : string) : option string :=
  match strip ": " s with
  | Some rest =>
      if truthy rest && all_chars (λ c, negb (is_line_terminator c)) rest
      then Some rest else None
  | None => None
  end.

Fixpoint match_colon_rest (s : string) : option string :=
  match colon_rest_at s with
  | Some r => Some r
  | None => match s with
            | EmptyString => None
            | String _ s' => match_colon_rest s'
            end
  end.

(** [s.split('|')[0]]-style field: the characters before the first bar. *)
Fixpoint before_bar (s : string) : string :=
  match s with
  | EmptyString => EmptyString
  | String c s' => if bool_decide (c = "|"%char) then EmptyString else String c (before_bar s')
  end.

(** First capture group of [s.match(/^(\w+):/)]. *)
Definition match_action (s : string) : option string :=
  let '(w, tl) := span is_word s in
  if truthy w && String.prefix ":" tl then Some w else None.

End Js.

(** ** Results, and the monad of accessor computations *)

Inductive Res (A : Type) : Type :=
  | Ok (a : A)
  | Throw (e : string).
Arguments Ok {A} a.
Arguments Throw {A} e.

(** ** The external git engine

    The engine is not part of the program; it is modelled by what its
    commands answer on a repository. Revisions are resolved by object name
    only (no abbreviations). *)

Module Git.

(** A commit object. [parents] lists the parent hashes, first parent
    first. Trees and file contents are not part of the model. *)
Record Commit := mkCommit {
  hash : string;
  parents : list string;
  message : string;
  author : string;
  date : string;
}.

Inductive ResetMode := Soft | Mixed | Hard.

(** The two shapes of revision the sources pass to [git reset]:
    [HEAD~k] and an object name. *)
Inductive Rev :=
  | HeadTilde (k : nat)
  | Object (h : string).

(** The git invocations made through simple-git. *)
Inductive Cmd :=
  | RevParseGitDir
  | RevParseHead
  | RevParseAbbrevRefHead
  | Status
  | Log (maxCount : nat)
  | Branch
  | BranchRemoteContains (h : string)
  | Reflog (n : nat)
  | GetRemotes
  | DiffUnmerged
  | StashList
  | Reset (mode : ResetMode) (rev : Rev).

(** What [git status] lists: the staged, modified and untracked paths and
    the distance to the upstream. *)
Record Listing := mkListing {
  now_staged : list string;
  now_modified : list string;
  now_untracked : list string;
  now_ahead : nat;
  now_behind : nat;
}.

(** The repository. [objects] is the object store, newest commit first
    (parents of a commit come after it); [HEAD] is the hash HEAD resolves
    to, [None] on a branch without commits; [current] is the branch HEAD
    names, [None] when detached. The status lists are what [git status]
    reports. What it reports after a reset depends on the contents of the
    trees, the index and the working tree, which the model leaves out:
    [after_reset mode t now] stands for the listing git arrives at when
    the listing is [now] and a reset of that mode moves to commit [t]. *)
Record Repo := mkRepo {
  objects : list Commit;
  HEAD : option string;
  current : option string;
  tracking : option string;
  staged : list string;
  modified : list string;
  untracked : list string;
  ahead : nat;
  behind : nat;
  remotes : list string;
  remote_refs : list (string * string);
  branches : list string;
  reflog : list (string * string);
  stashes : list (string * string);
  conflicted : list string;
  MERGE_HEAD : bool;
  rebase_merge : bool;
  rebase_apply : bool;
  CHERRY_PICK_HEAD : bool;
  BISECT_LOG : bool;
  after_reset : ResetMode → string → Listing → Listing;
}.

Definition listing (r : Repo) : Listing :=
  {| now_staged := staged r; now_modified := modified r; now_untracked := untracked r;
     now_ahead := ahead r; now_behind := behind r |}.

Definition hashes (objs : list Commit) : list string := hash <$> objs.

Definition lookup_commit (objs : list Commit) (h : string) : option Commit :=
  List.find (λ c, bool_decide (hash c = h)) objs.

(** Commits of the store reachable from the hashes in [want], in store
    order: the order of [git log]. *)
Fixpoint reach (objs : list Commit) (want : list string) : list Commit :=
  match objs with
  | [] => []
  | c :: rest =>
      if bool_decide (hash c ∈ want)
      then c :: reach rest (parents c ++ want)
      else reach rest want
  end.

(** [h~k]: follow the first parent [k] times. *)
Fixpoint nth_ancestor (objs : list Commit) (k : nat) (h : string) : option string :=
  match lookup_commit objs h with
  | None => None
  | Some c =>
      match k with
      | 0 => Some (hash c)
      | S k' =>
          match parents c with
          | [] => None
          | p :: _ => nth_ancestor objs k' p
          end
      end
  end.

Definition resolve (r : Repo) (rev : Rev) : option string :=
  match rev with
  | HeadTilde k =>
      match HEAD r with
      | Some h => nth_ancestor (objects r) k h
      | None => None
      end
  | Object h => hash <$> lookup_commit (objects r) h
  end.

Definition history (r : Repo) : list Commit :=
  match HEAD r with
  | Some h => reach (objects r) [h]
  | None => []
  end.

(** Number of commits of the current history. *)
Definition commit_count (r : Repo) : nat := length (history r).

(** [--max-count=n], which simple-git leaves out when the [maxCount]
    option is 0: git then lists everything. *)
Definition max_count {A} (n : nat) (l : list A) : list A :=
  match n with
  | 0 => l
  | S _ => take n l
  end.

(** [git.log({ maxCount: n })]; fails on a branch without commits. *)
Definition log (n : nat) (r : Repo) : Res (list Commit) :=
  match HEAD r with
  | Some _ => Ok (max_count n (history r))
  | None => Throw "your current branch does not have any commits yet"
  end.

(** [tip] contains [h]: [h] is reachable from [tip]. *)
Definition contains (objs : list Commit) (tip h : string) : bool :=
  bool_decide (h ∈ hashes (reach objs [tip])).

(** [git branch -r --contains h]: the remote-tracking refs from which [h]
    is reachable; fails when [h] names no commit. *)
Definition branch_remote_contains (h : string) (r : Repo) : Res (list string) :=
  match lookup_commit (objects r) h with
  | Some _ =>
      Ok (fst <$> List.filter (λ ref, contains (objects r) (snd ref) h) (remote_refs r))
  | None => Throw "malformed object name"
  end.

Definition show_rev (rev : Rev) : string :=
  match rev with
  | HeadTilde k => "HEAD~" +:+ Js.num k
  | Object h => h
  end.

(** [git reset --<mode> <rev>]. The revision must name a commit, and a
    soft reset is refused while a merge is in progress or the index holds
    unmerged paths. Otherwise HEAD moves to the commit and the reflog
    records the move; the object store is untouched, so a commit that was
    left behind can still be named. The index is reset by a mixed and a
    hard reset (nothing is staged or unmerged afterwards) and the working
    tree by a hard reset (nothing is modified afterwards); a soft reset
    touches neither, so the untracked paths stay. The markers of a merge
    and of a cherry-pick are removed. Everything else [git status] lists
    afterwards is taken from [after_reset]. *)
Definition reset (mode : ResetMode) (rev : Rev) (r : Repo) : Res Repo :=
  match resolve r rev with
  | None => Throw "unknown revision or path not in the working tree"
  | Some t =>
      let in_merge := MERGE_HEAD r || negb (bool_decide (conflicted r = [])) in
      let now := after_reset r mode t (listing r) in
      match mode, in_merge with
      | Soft, true => Throw "Cannot do a soft reset in the middle of a merge."
      | _, _ =>
          Ok {| objects := objects r; HEAD := Some t; current := current r;
                tracking := tracking r;
                staged := match mode with
                          | Soft => now_staged now
                          | Mixed | Hard => []
                          end;
                modified := match mode with
                            | Soft | Mixed => now_modified now
                            | Hard => []
                            end;
                untracked := match mode with
                             | Soft => untracked r
                             | Mixed | Hard => now_untracked now
                             end;
                ahead := now_ahead now; behind := now_behind now;
                remotes := remotes r; remote_refs := remote_refs r;
                branches := branches r;
                reflog := (t, "reset: moving to " +:+ show_rev rev) :: reflog r;
                stashes := stashes r; conflicted := [];
                MERGE_HEAD := false; rebase_merge := rebase_merge r;
                rebase_apply := rebase_apply r;
                CHERRY_PICK_HEAD := false; BISECT_LOG := BISECT_LOG r;
                after_reset := after_reset r |}
      end
  end.

(** Store invariant of content-addressed commits: names are non-empty and
    unique, and every parent of a commit sits after it in the store. *)
Fixpoint wf_store (objs : list Commit) : Prop :=
  match objs with
  | [] => True
  | c :: rest =>
      (hash c ≠ EmptyString) ∧ (hash c ∉ hashes rest) ∧
      (∀ p, p ∈ parents c → p ∈ hashes rest) ∧ wf_store rest
  end.

End Git.

(** ** Data of the journal and of the configuration *)

Module Config.
(** utils/config.ts, [GitPanicConfig] and [defaultConfig]. *)
Record t := mk {
  confirmDangerousActions : bool;
  maxActionHistory : Z;
  verbose : bool;
}.
Definition defaultConfig : t :=
  {| confirmDangerousActions := true; maxActionHistory := 50; verbose := false |}.
End Config.

Inductive ActionType :=
  | undo_commit | amend_message | amend_commit | move_commits | recover_branch
  | create_branch | squash_commits | unstage_files | discard_changes
  | clean_untracked | abort_operation | stash_create | stash_apply | stash_pop
  | restore_file.

Module HeadState.
(** The shape of [beforeState] and [afterState]. *)
Record t := mk {
  headHash : string;
  branch : option string;
}.
End HeadState.

Module RecordedAction.
(** core/actionHistory.ts, [RecordedAction]. The optional members
    [afterState] and [undoCommand] are [None] while undefined. *)
Record t := mk {
  id : string;
  type : ActionType;
  timestamp : string;
  description : string;
  repoPath : string;
  beforeState : HeadState.t;
  afterState : option HeadState.t;
  undoCommand : option string;
  canUndo : bool;
}.
End RecordedAction.

(** Content of the journal file [history.json]: missing, not parseable, or
    a stored sequence of actions. *)
Inductive FileState :=
  | Absent
  | Unreadable
  | Stored (actions : list RecordedAction.t).

(** ** The world the program runs in *)

(** What the operator answers at the prompts of ui/prompts.ts. *)
Record Operator := mkOperator {
  answer_confirm : string → bool;        (* [confirm], by prompt message *)
  answer_number : nat;                   (* [selectNumber] *)
  answer_mode : Git.ResetMode;           (* [selectResetMode] *)
}.

Record World := mkWorld {
  repo : option Git.Repo;        (* [None]: the directory is no repository *)
  faults : Git.Cmd → bool;       (* git invocations that fail unexpectedly *)
  cwd : string;                  (* [process.cwd()] *)
  historyFile : FileState;
  writable : bool;               (* whether [fs.writeFileSync] succeeds *)
  config : Config.t;             (* what [getConfig()] returns *)
  ticks : nat;                   (* position in the two streams below *)
  rand : nat → string;           (* [Date.now()] and [Math.random()] of [generateId] *)
  clock : nat → string;          (* [new Date().toISOString()] *)
  operator : Operator;
}.

Definition set_repo (r : Git.Repo) (w : World) : World :=
  {| repo := Some r; faults := faults w; cwd := cwd w; historyFile := historyFile w;
     writable := writable w; config := config w; ticks := ticks w;
     rand := rand w; clock := clock w; operator := operator w |}.

Definition set_historyFile (f : FileState) (w : World) : World :=
  {| repo := repo w; faults := faults w; cwd := cwd w; historyFile := f;
     writable := writable w; config := config w; ticks := ticks w;
     rand := rand w; clock := clock w; operator := operator w |}.

Definition tick (w : World) : World :=
  {| repo := repo w; faults := faults w; cwd := cwd w; historyFile := historyFile w;
     writable := writable w; config := config w; ticks := S (ticks w);
     rand := rand w; clock := clock w; operator := operator w |}.

(** A computation returns a value or throws, may change the world, and
    emits the git commands it issued. *)
Definition M (A : Type) : Type := World → (Res A * World) * list Git.Cmd.

Definition ret {A} (a : A) : M A := λ w, ((Ok a, w), []).

Definition throw {A} (e : string) : M A := λ w, ((Throw e, w), []).

Definition bind {A B} (m : M A) (k : A → M B) : M B := λ w,
  match m w with
  | ((Ok a, w1), t1) =>
      match k a w1 with
      | (rw, t2) => (rw, (t1 ++ t2)%list)
      end
  | ((Throw e, w1), t1) => ((Throw e, w1), t1)
  end.

(** [try { m } catch (e) { h e }]. *)
Definition catch {A} (m : M A) (h : string → M A) : M A := λ w,
  match m w with
  | ((Ok a, w1), t1) => ((Ok a, w1), t1)
  | ((Throw e, w1), t1) =>
      match h e w1 with
      | (rw, t2) => (rw, (t1 ++ t2)%list)
      end
  end.

(** Two promises started together and awaited together, as by
    [Promise.all]: both run; the first rejection wins. *)
Definition both {A B} (m1 : M A) (m2 : M B) : M (A * B) := λ w,
  match m1 w with
  | ((r1, w1), t1) =>
      match m2 w1 with
      | ((r2, w2), t2) =>
          ((match r1, r2 with
            | Ok a, Ok b => Ok (a, b)
            | Throw e, _ => Throw e
            | Ok _, Throw e => Throw e
            end, w2), (t1 ++ t2)%list)
      end
  end.

Definition get {A} (f : World → A) : M A := λ w, ((Ok (f w), w), []).

Definition modify (f : World → World) : M unit := λ w, ((Ok tt, f w), []).

(** Result and final world of a run, and the commands it issued. *)
Definition run {A} (m : M A) (w : World) : Res A * World := fst (m w).
Definition issued {A} (m : M A) (w : World) : list Git.Cmd := snd (m w).

Declare Scope m_scope.
Delimit Scope m_scope with M.
Notation "x <- m ;; k" := (bind m (λ x, k))
  (at level 100, m at next level, right associativity) : m_scope.
Notation "m ;;; k" := (bind m (λ _, k))
  (at level 100, right associativity) : m_scope.
Open Scope m_scope.

(** A read-only git invocation. *)
Definition git {A} (cmd : Git.Cmd) (f : Git.Repo → Res A) : M A := λ w,
  ((match repo w with
    | Some r => if faults w cmd then Throw "git: command failed" else f r
    | None => Throw "fatal: not a git repository"
    end, w), [cmd]).

(** A git invocation that changes the repository. *)
Definition git_mut (cmd : Git.Cmd) (f : Git.Repo → Res Git.Repo) : M unit := λ w,
  match repo w with
  | Some r =>
      if faults w cmd then ((Throw "git: command failed", w), [cmd])
      else match f r with
           | Ok r' => ((Ok tt, set_repo r' w), [cmd])
           | Throw e => ((Throw e, w), [cmd])
           end
  | None => ((Throw "fatal: not a git repository", w), [cmd])
  end.

(** ** core/gitWrapper.ts *)

Module CommitInfo.
Record t := mk {
  hash : string;
  message : string;
  author : string;
  date : string;
}.
End CommitInfo.

Module ReflogEntry.
Record t := mk {
  hash : string;
  action : string;
  message : string;
}.
End ReflogEntry.

Module GitStatus.
Record t := mk {
  current : option string;
  tracking : option string;
  staged : list string;
  modified : list string;
  untracked : list string;
  ahead : nat;
  behind : nat;
}.
End GitStatus.

Inductive Operation := merge | rebase | cherry_pick | bisect.

Module GitWrapper.

Definition isGitRepo : M bool :=
  catch (git Git.RevParseGitDir (λ _, Ok tt) ;;; ret true)
        (λ _, ret false).

(** [status.current] is the branch name, and [HEAD] when detached. *)
Definition getStatus : M GitStatus.t :=
  git Git.Status (λ r, Ok
    {| GitStatus.current := Some (default "HEAD" (Git.current r));
       GitStatus.tracking := Git.tracking r;
       GitStatus.staged := Git.staged r;
       GitStatus.modified := Git.modified r;
       GitStatus.untracked := Git.untracked r;
       GitStatus.ahead := Git.ahead r;
       GitStatus.behind := Git.behind r |}).

Definition commitInfo (c : Git.Commit) : CommitInfo.t :=
  {| CommitInfo.hash := Git.hash c;
     CommitInfo.message := Git.message c;
     CommitInfo.author := Git.author c;
     CommitInfo.date := Git.date c |}.

Definition getRecentCommits (count : nat) : M (list CommitInfo.t) :=
  catch (log <- git (Git.Log count) (Git.log count) ;;
         ret (commitInfo <$> log))
        (λ _, ret []).

Definition getLastCommit : M (option CommitInfo.t) :=
  commits <- getRecentCommits 1 ;;
  ret (head commits).

(** [git rev-parse --abbrev-ref HEAD]: the branch name, or the literal
    [HEAD] when detached; fails on a branch without commits. *)
Definition abbrev_ref (r : Git.Repo) : Res string :=
  match Git.HEAD r with
  | Some _ => Ok (default "HEAD" (Git.current r))
  | None => Throw "ambiguous argument 'HEAD'"
  end.

Definition getCurrentBranch : M (option string) :=
  catch (branch <- git Git.RevParseAbbrevRefHead abbrev_ref ;;
         ret (Some branch))
        (λ _, ret None).

(** [BranchSummary.all] of [git.branch()]. *)
Definition getBranches : M (list string) :=
  git Git.Branch (λ r, Ok (Git.branches r)).

(** The output lines [%H|%gs] are taken field by field. *)
Definition reflogEntry (line : string * string) : ReflogEntry.t :=
  {| ReflogEntry.hash := fst line;
     ReflogEntry.action := default "unknown" (Js.match_action (snd line));
     ReflogEntry.message := snd line |}.

Definition getReflog (count : nat) : M (list ReflogEntry.t) :=
  catch (lines <- git (Git.Reflog count) (λ r, Ok (take count (Git.reflog r))) ;;
         ret (reflogEntry <$> lines))
        (λ _, ret []).

Definition softReset (ref : Git.Rev) : M unit :=
  git_mut (Git.Reset Git.Soft ref) (Git.reset Git.Soft ref).

Definition mixedReset (ref : Git.Rev) : M unit :=
  git_mut (Git.Reset Git.Mixed ref) (Git.reset Git.Mixed ref).

Definition hardReset (ref : Git.Rev) : M unit :=
  git_mut (Git.Reset Git.Hard ref) (Git.reset Git.Hard ref).

(** The loop of [getDeletedBranches] over the reflog entries, with the
    result array and the set of names already seen. *)
Fixpoint deletedBranchesLoop (reflog : list ReflogEntry.t)
    (deletedBranches : list (string * string)) (seenBranches : gset string)
    : M (list (string * string)) :=
  match reflog with
  | [] => ret deletedBranches
  | entry :: reflog' =>
      match Js.match_checkout_from (ReflogEntry.message entry) with
      | Some branchName =>
          if bool_decide (branchName ∈ seenBranches)
          then deletedBranchesLoop reflog' deletedBranches seenBranches
          else
            branches <- getBranches ;;
            if bool_decide (branchName ∈ branches)
            then deletedBranchesLoop reflog' deletedBranches
                   ({[branchName]} ∪ seenBranches)
            else deletedBranchesLoop reflog'
                   (deletedBranches ++ [(branchName, ReflogEntry.hash entry)])%list
                   ({[branchName]} ∪ seenBranches)
      | None => deletedBranchesLoop reflog' deletedBranches seenBranches
      end
  end.

(** Results are pairs (name, hash). *)
Definition getDeletedBranches : M (list (string * string)) :=
  reflog <- getReflog 100 ;;
  deletedBranchesLoop reflog [] ∅.

Definition getHeadHash : M string :=
  git Git.RevParseHead (λ r,
    match Git.HEAD r with
    | Some h => Ok h
    | None => Throw "ambiguous argument 'HEAD'"
    end).

Definition hasUncommittedChanges : M bool :=
  status <- getStatus ;;
  ret ((0 <? length (GitStatus.staged status)) || (0 <? length (GitStatus.modified status))).

Definition hasStagedChanges : M bool :=
  status <- getStatus ;;
  ret (0 <? length (GitStatus.staged status)).

Definition hasRemote : M bool :=
  catch (remotes <- git Git.GetRemotes (λ r, Ok (Git.remotes r)) ;;
         ret (0 <? length remotes))
        (λ _, ret false).

(** The output of [git branch -r --contains] is non-blank exactly when it
    lists a ref. *)
Definition isPushed (commitHash : string) : M bool :=
  catch (status <- getStatus ;;
         if negb (Js.truthy_opt (GitStatus.tracking status)) then ret false
         else
           result <- git (Git.BranchRemoteContains commitHash)
                         (Git.branch_remote_contains commitHash) ;;
           ret (0 <? length result))
        (λ _, ret false).

Definition isDetachedHead : M bool :=
  catch (branch <- git Git.RevParseAbbrevRefHead abbrev_ref ;;
         ret (bool_decide (branch = "HEAD")))
        (λ _, ret false).

(** The markers are looked up with [fs.existsSync] under the git
    directory that [rev-parse --git-dir] names. *)
Definition getOngoingOperation : M (option Operation) :=
  catch (gitPath <- git Git.RevParseGitDir (λ r, Ok r) ;;
         if Git.MERGE_HEAD gitPath then ret (Some merge)
         else if Git.rebase_merge gitPath || Git.rebase_apply gitPath
              then ret (Some rebase)
         else if Git.CHERRY_PICK_HEAD gitPath then ret (Some cherry_pick)
         else if Git.BISECT_LOG gitPath then ret (Some bisect)
         else ret None)
        (λ _, ret None).

(** Entries are triples (index, hash, message); the line of the stash at
    position [i] starts with [stash@{i}], and the message is the field
    between the second and third bar. *)
Definition getStashList : M (list (nat * string * string)) :=
  catch (lines <- git Git.StashList (λ r, Ok (Git.stashes r)) ;;
         ret (imap (λ i line,
                let message := Js.before_bar (snd line) in
                (i, fst line, if Js.truthy message then message else "No message"))
                lines))
        (λ _, ret []).

(** Results are pairs (hash, message). *)
Definition getDroppedStashes : M (list (string * string)) :=
  catch (reflog <- getReflog 100 ;;
         ret (omap (λ entry,
                if Js.includes "stash" (ReflogEntry.message entry)
                   && Js.includes "drop" (ReflogEntry.message entry)
                then Some (ReflogEntry.hash entry,
                           default "Unknown stash"
                             (Js.match_colon_rest (ReflogEntry.message entry)))
                else None) reflog))
        (λ _, ret []).

Definition getConflictedFiles : M (list string) :=
  catch (git Git.DiffUnmerged (λ r, Ok (Git.conflicted r)))
        (λ _, ret []).

End GitWrapper.

(** ** core/stateDetector.ts *)

Inductive Severity := warning | error | info.

Module RepoIssue.
Record t := mk {
  type : Severity;
  code : string;
  message : string;
  suggestion : option string;
}.
End RepoIssue.

Module RepoState.
Record t := mk {
  isGitRepo : bool;
  currentBranch : option string;
  hasUncommittedChanges : bool;
  hasStagedChanges : bool;
  hasRemote : bool;
  lastCommit : option CommitInfo.t;
  status : option GitStatus.t;
  issues : list RepoIssue.t;
  isDetachedHead : bool;
  ongoingOperation : option Operation;
  hasConflicts : bool;
  conflictedFiles : list string;
  hasStashes : bool;
  stashCount : nat;
}.
End RepoState.

Module DetectionContext.
Record t := mk {
  currentBranch : option string;
  hasUncommittedChanges : bool;
  hasStagedChanges : bool;
  hasRemote : bool;
  lastCommit : option CommitInfo.t;
  status : option GitStatus.t;
  isDetachedHead : bool;
  ongoingOperation : option Operation;
  conflictedFiles : list string;
}.
End DetectionContext.

Module StateDetector.

Definition operationNames (op : Operation) : string :=
  match op with
  | merge => "Merge"
  | rebase => "Rebase"
  | cherry_pick => "Cherry-pick"
  | bisect => "Bisect"
  end.

(** [if (cond) issues.push(issue)] *)
Definition push_if (cond : bool) (issue : RepoIssue.t) : list RepoIssue.t :=
  if cond then [issue] else [].

Definition detectIssues (context : DetectionContext.t) : list RepoIssue.t :=
  let conflicts := length (DetectionContext.conflictedFiles context) in
  let status_has (f : GitStatus.t → nat) :=
    match DetectionContext.status context with
    | Some status => 0 <? f status
    | None => false
    end in
  let status_num (f : GitStatus.t → nat) :=
    match DetectionContext.status context with
    | Some status => f status
    | None => 0
    end in
  (push_if (DetectionContext.isDetachedHead context)
     {| RepoIssue.type := warning;
        RepoIssue.code := "DETACHED_HEAD";
        RepoIssue.message := "You are in detached HEAD state";
        RepoIssue.suggestion :=
          Some "Create a branch to save your work, or checkout an existing branch" |}
   ++
   match DetectionContext.ongoingOperation context with
   | Some op =>
       [ {| RepoIssue.type := warning;
            RepoIssue.code := "ONGOING_OPERATION";
            RepoIssue.message := operationNames op +:+ " in progress";
            RepoIssue.suggestion :=
              Some (if 0 <? conflicts
                    then "Resolve " +:+ Js.num conflicts +:+ " conflict(s) or abort"
                    else "Continue or abort the operation") |} ]
   | None => []
   end
   ++
   push_if ((0 <? conflicts)
            && negb (bool_decide (is_Some (DetectionContext.ongoingOperation context))))
     {| RepoIssue.type := error;
        RepoIssue.code := "HAS_CONFLICTS";
        RepoIssue.message := Js.num conflicts +:+ " file(s) have merge conflicts";
        RepoIssue.suggestion := Some "Resolve conflicts before continuing" |}
   ++
   push_if (negb (bool_decide (is_Some (DetectionContext.lastCommit context))))
     {| RepoIssue.type := info;
        RepoIssue.code := "NO_COMMITS";
        RepoIssue.message := "Repository has no commits yet";
        RepoIssue.suggestion := Some "Create your first commit" |}
   ++
   push_if (status_has GitStatus.ahead)
     {| RepoIssue.type := info;
        RepoIssue.code := "UNPUSHED_COMMITS";
        RepoIssue.message :=
          "You have " +:+ Js.num (status_num GitStatus.ahead) +:+ " unpushed commit(s)";
        RepoIssue.suggestion := Some "These commits are safe to modify with Git Panic" |}
   ++
   push_if (status_has GitStatus.behind)
     {| RepoIssue.type := warning;
        RepoIssue.code := "BEHIND_REMOTE";
        RepoIssue.message :=
          "Your branch is " +:+ Js.num (status_num GitStatus.behind)
          +:+ " commit(s) behind remote";
        RepoIssue.suggestion :=
          Some "Consider pulling changes before making modifications" |}
   ++
   push_if (DetectionContext.hasUncommittedChanges context
            && negb (DetectionContext.hasStagedChanges context))
     {| RepoIssue.type := info;
        RepoIssue.code := "UNSTAGED_CHANGES";
        RepoIssue.message := "You have unstaged changes";
        RepoIssue.suggestion := None |}
   ++
   push_if (DetectionContext.hasStagedChanges context)
     {| RepoIssue.type := info;
        RepoIssue.code := "STAGED_CHANGES";
        RepoIssue.message := "You have staged changes ready to commit";
        RepoIssue.suggestion := None |})%list.

Definition defaultState : RepoState.t :=
  {| RepoState.isGitRepo := false;
     RepoState.currentBranch := None;
     RepoState.hasUncommittedChanges := false;
     RepoState.hasStagedChanges := false;
     RepoState.hasRemote := false;
     RepoState.lastCommit := None;
     RepoState.status := None;
     RepoState.issues := [];
     RepoState.isDetachedHead := false;
     RepoState.ongoingOperation := None;
     RepoState.hasConflicts := false;
     RepoState.conflictedFiles := [];
     RepoState.hasStashes := false;
     RepoState.stashCount := 0 |}.

(** [{ ...defaultState, issues }] *)
Definition with_issues (issues : list RepoIssue.t) : RepoState.t :=
  {| RepoState.isGitRepo := RepoState.isGitRepo defaultState;
     RepoState.currentBranch := RepoState.currentBranch defaultState;
     RepoState.hasUncommittedChanges := RepoState.hasUncommittedChanges defaultState;
     RepoState.hasStagedChanges := RepoState.hasStagedChanges defaultState;
     RepoState.hasRemote := RepoState.hasRemote defaultState;
     RepoState.lastCommit := RepoState.lastCommit defaultState;
     RepoState.status := RepoState.status defaultState;
     RepoState.issues := issues;
     RepoState.isDetachedHead := RepoState.isDetachedHead defaultState;
     RepoState.ongoingOperation := RepoState.ongoingOperation defaultState;
     RepoState.hasConflicts := RepoState.hasConflicts defaultState;
     RepoState.conflictedFiles := RepoState.conflictedFiles defaultState;
     RepoState.hasStashes := RepoState.hasStashes defaultState;
     RepoState.stashCount := RepoState.stashCount defaultState |}.

Definition notGitRepoIssue : RepoIssue.t :=
  {| RepoIssue.type := error;
     RepoIssue.code := "NOT_GIT_REPO";
     RepoIssue.message := "Current directory is not a Git repository";
     RepoIssue.suggestion := Some ("Initialize a Git repository with " +:+ Js.quote +:+ "git init" +:+ Js.quote) |}.

Definition detectionFailedIssue : RepoIssue.t :=
  {| RepoIssue.type := error;
     RepoIssue.code := "DETECTION_FAILED";
     RepoIssue.message := "Failed to detect repository state";
     RepoIssue.suggestion := Some "Check if Git is installed and accessible" |}.

(** The ten queries handed to [Promise.all]. *)
Definition queryBatch :=
  both GitWrapper.getCurrentBranch
 (both GitWrapper.hasUncommittedChanges
 (both GitWrapper.hasStagedChanges
 (both GitWrapper.hasRemote
 (both GitWrapper.getLastCommit
 (both GitWrapper.getStatus
 (both GitWrapper.isDetachedHead
 (both GitWrapper.getOngoingOperation
 (both GitWrapper.getConflictedFiles
       GitWrapper.getStashList)))))))).

Definition detectRepoState : M RepoState.t :=
  catch
    (isGitRepo <- GitWrapper.isGitRepo ;;
     if negb isGitRepo then ret (with_issues [notGitRepoIssue])
     else
       results <- queryBatch ;;
       let '(currentBranch, (hasUncommittedChanges, (hasStagedChanges, (hasRemote,
             (lastCommit, (status, (isDetachedHead, (ongoingOperation,
             (conflictedFiles, stashList))))))))) := results in
       let issues := detectIssues
         {| DetectionContext.currentBranch := currentBranch;
            DetectionContext.hasUncommittedChanges := hasUncommittedChanges;
            DetectionContext.hasStagedChanges := hasStagedChanges;
            DetectionContext.hasRemote := hasRemote;
            DetectionContext.lastCommit := lastCommit;
            DetectionContext.status := Some status;
            DetectionContext.isDetachedHead := isDetachedHead;
            DetectionContext.ongoingOperation := ongoingOperation;
            DetectionContext.conflictedFiles := conflictedFiles |} in
       ret {| RepoState.isGitRepo := true;
              RepoState.currentBranch := currentBranch;
              RepoState.hasUncommittedChanges := hasUncommittedChanges;
              RepoState.hasStagedChanges := hasStagedChanges;
              RepoState.hasRemote := hasRemote;
              RepoState.lastCommit := lastCommit;
              RepoState.status := Some status;
              RepoState.issues := issues;
              RepoState.isDetachedHead := isDetachedHead;
              RepoState.ongoingOperation := ongoingOperation;
              RepoState.hasConflicts := 0 <? length conflictedFiles;
              RepoState.conflictedFiles := conflictedFiles;
              RepoState.hasStashes := 0 <? length stashList;
              RepoState.stashCount := length stashList |})
    (λ _, ret (with_issues [detectionFailedIssue])).

End StateDetector.

(** ** ui/prompts.ts and ui/spinner.ts, as far as they decide anything

    The operator answers every prompt. Closing a prompt without an answer,
    which makes the promise of the prompt reject, is outside the model:
    what is stated about a command that asks is stated for an operator who
    answers. *)

Module Prompts.

Definition confirm (message : string) : M bool :=
  get (λ w, answer_confirm (operator w) message).

Definition confirmAction (message : string) : M bool := confirm message.

(** The prompt offers the choices [1 .. max]. *)
Definition selectNumber (message : string) (max defaultValue : nat) : M nat :=
  get (λ w, Nat.max 1 (Nat.min max (answer_number (operator w)))).

Definition selectResetMode : M Git.ResetMode :=
  get (λ w, answer_mode (operator w)).

(** [withSpinner]: the action runs; a failure is shown and thrown again. *)
Definition withSpinner {A} (action : M A) : M A :=
  catch action (λ e, throw e).

End Prompts.

(** ** core/safetyChecks.ts *)

Module SafetyCheckResult.
Record t := mk {
  safe : bool;
  warnings : list string;
  blockers : list string;
}.
End SafetyCheckResult.

Module SafetyChecks.

Definition blockerTooFew (available commitCount : nat) : string :=
  "Only " +:+ Js.num available +:+ " commits available, cannot undo " +:+ Js.num commitCount.

Definition warnDiscard : string := "Hard reset will discard all uncommitted changes".

Definition warnPushed (commit : CommitInfo.t) : string :=
  "Commit " +:+ Js.quote +:+ Js.substring0 50 (CommitInfo.message commit) +:+ Js.quote
  +:+ " has been pushed. Undoing will require force push.".

(** [for (const commit of commits) { if (await git.isPushed(...)) warnings.push(...) }] *)
Fixpoint pushedLoop (commits : list CommitInfo.t) (warnings : list string)
    : M (list string) :=
  match commits with
  | [] => ret warnings
  | commit :: commits' =>
      isPushed <- GitWrapper.isPushed (CommitInfo.hash commit) ;;
      pushedLoop commits'
        (if isPushed then (warnings ++ [warnPushed commit])%list else warnings)
  end.

Definition checkBeforeReset (mode : Git.ResetMode) (commitCount : nat)
    : M SafetyCheckResult.t :=
  commits <- GitWrapper.getRecentCommits commitCount ;;
  let blockers :=
    if length commits <? commitCount
    then [blockerTooFew (length commits) commitCount] else [] in
  warnings <-
    match mode with
    | Git.Hard =>
        hasChanges <- GitWrapper.hasUncommittedChanges ;;
        ret (if hasChanges then [warnDiscard] else [])
    | _ => ret []
    end ;;
  warnings <- pushedLoop commits warnings ;;
  ret {| SafetyCheckResult.safe := bool_decide (length blockers = 0);
         SafetyCheckResult.warnings := warnings;
         SafetyCheckResult.blockers := blockers |}.

Definition showSafetyWarnings (result : SafetyCheckResult.t) : M bool :=
  if negb (SafetyCheckResult.safe result) then ret false
  else if 0 <? length (SafetyCheckResult.warnings result)
       then Prompts.confirm "Continue anyway?"
       else ret true.

End SafetyChecks.

(** ** core/actionHistory.ts *)

Module ActionHistory.
Import RecordedAction.

Definition with_afterState (s : HeadState.t) (a : RecordedAction.t) : RecordedAction.t :=
  {| id := id a; type := type a; timestamp := timestamp a;
     description := description a; repoPath := repoPath a;
     beforeState := beforeState a; afterState := Some s;
     undoCommand := undoCommand a; canUndo := canUndo a |}.

Definition with_undoCommand (c : string) (a : RecordedAction.t) : RecordedAction.t :=
  {| id := id a; type := type a; timestamp := timestamp a;
     description := description a; repoPath := repoPath a;
     beforeState := beforeState a; afterState := afterState a;
     undoCommand := Some c; canUndo := canUndo a |}.

Definition with_canUndo (b : bool) (a : RecordedAction.t) : RecordedAction.t :=
  {| id := id a; type := type a; timestamp := timestamp a;
     description := description a; repoPath := repoPath a;
     beforeState := beforeState a; afterState := afterState a;
     undoCommand := undoCommand a; canUndo := b |}.

(** A missing or unparseable file reads as the empty history. *)
Definition loadHistory : M (list RecordedAction.t) :=
  get (λ w, match historyFile w with
            | Stored actions => actions
            | Absent | Unreadable => []
            end).

(** A failing write is logged and otherwise ignored. *)
Definition saveHistory (actions : list RecordedAction.t) : M unit :=
  modify (λ w,
    let trimmedActions :=
      Js.slice_from (- Config.maxActionHistory (config w)) actions in
    if writable w then set_historyFile (Stored trimmedActions) w else w).

Definition generateId : M string :=
  λ w, ((Ok (rand w (ticks w)), tick w), []).

Definition recordAction (type : ActionType) (description : string) (canUndo : bool)
    : M RecordedAction.t :=
  repoPath <- get cwd ;;
  id <- generateId ;;
  timestamp <- get (λ w, clock w (ticks w)) ;;
  headHash <- GitWrapper.getHeadHash ;;
  branch <- GitWrapper.getCurrentBranch ;;
  let action :=
    {| id := id; type := type; timestamp := timestamp;
       description := description; repoPath := repoPath;
       beforeState := {| HeadState.headHash := headHash; HeadState.branch := branch |};
       afterState := None; undoCommand := None; canUndo := canUndo |} in
  actions <- loadHistory ;;
  saveHistory (actions ++ [action])%list ;;;
  ret action.

Definition completeAction (action : RecordedAction.t) : M unit :=
  headHash <- GitWrapper.getHeadHash ;;
  branch <- GitWrapper.getCurrentBranch ;;
  let action :=
    with_afterState {| HeadState.headHash := headHash; HeadState.branch := branch |}
      action in
  let action :=
    if canUndo action
       && negb (bool_decide (HeadState.headHash (beforeState action) = headHash))
    then with_undoCommand
           ("git reset --hard " +:+ HeadState.headHash (beforeState action)) action
    else action in
  actions <- loadHistory ;;
  match Js.findIndex (λ a, bool_decide (id a = id action)) actions with
  | Some index => saveHistory (<[index := action]> actions)
  | None => ret tt
  end.

Definition getLastAction : M (option RecordedAction.t) :=
  actions <- loadHistory ;;
  ret (last actions).

Definition undoable (repoPath : string) (a : RecordedAction.t) : bool :=
  canUndo a && Js.truthy_opt (undoCommand a) && bool_decide (RecordedAction.repoPath a = repoPath).

(** The loop runs from the last index down to the first. *)
Definition getLastUndoableAction : M (option RecordedAction.t) :=
  actions <- loadHistory ;;
  repoPath <- get cwd ;;
  ret (List.find (undoable repoPath) (rev actions)).

(** The result is the pair (success, message). *)
Definition undoLastAction : M (bool * string) :=
  lastAction <- getLastUndoableAction ;;
  match lastAction with
  | None => ret (false, "No undoable actions in history for this repository")
  | Some lastAction =>
      if negb (Js.truthy (HeadState.headHash (beforeState lastAction)))
      then ret (false, "Cannot undo: missing before state")
      else
        catch
          (GitWrapper.hardReset (Git.Object (HeadState.headHash (beforeState lastAction))) ;;;
           actions <- loadHistory ;;
           match Js.findIndex (λ a, bool_decide (id a = id lastAction)) actions with
           | Some index => saveHistory (alter (with_canUndo false) index actions)
           | None => ret tt
           end ;;;
           ret (true, "Undid " +:+ Js.quote +:+ description lastAction +:+ Js.quote))
          (λ e, ret (false, "Failed to undo: " +:+ e))
  end.

Definition getRecentActions (count : nat) : M (list RecordedAction.t) :=
  actions <- loadHistory ;;
  repoPath <- get cwd ;;
  ret (rev (Js.slice_from (- Z.of_nat count)
              (List.filter (λ a, bool_decide (RecordedAction.repoPath a = repoPath)) actions))).

Definition clearHistory : M unit := saveHistory [].

End ActionHistory.

(** ** commands/undoCommit.ts *)

Module Commands.

Definition modeName (mode : Git.ResetMode) : string :=
  match mode with
  | Git.Soft => "soft"
  | Git.Mixed => "mixed"
  | Git.Hard => "hard"
  end.

(** Console output is not modelled. [count] is the optional argument;
    [undefined] and [0] both lead to the prompt. *)
Definition undoCommit (count : option nat) : M unit :=
  isGitRepo <- GitWrapper.isGitRepo ;;
  if negb isGitRepo then ret tt
  else
    commits <- GitWrapper.getRecentCommits 10 ;;
    if bool_decide (length commits = 0) then ret tt
    else
      commitCount <-
        match count with
        | Some (S n) => ret (S n)
        | Some 0 | None =>
            Prompts.selectNumber "How many commits do you want to undo?"
              (Nat.min (length commits) 10) 1
        end ;;
      mode <- Prompts.selectResetMode ;;
      safetyResult <- SafetyChecks.checkBeforeReset mode commitCount ;;
      proceed <- SafetyChecks.showSafetyWarnings safetyResult ;;
      if negb proceed then ret tt
      else
        confirmed <- Prompts.confirmAction "Proceed with undo?" ;;
        if negb confirmed then ret tt
        else
          action <- ActionHistory.recordAction undo_commit
            ("Undo " +:+ Js.num commitCount +:+ " commit(s) with "
             +:+ modeName mode +:+ " reset") true ;;
          catch
            (Prompts.withSpinner
               match mode with
               | Git.Soft => GitWrapper.softReset (Git.HeadTilde commitCount)
               | Git.Mixed => GitWrapper.mixedReset (Git.HeadTilde commitCount)
               | Git.Hard => GitWrapper.hardReset (Git.HeadTilde commitCount)
               end ;;;
             ActionHistory.completeAction action ;;;
             newCommit <- GitWrapper.getLastCommit ;;
             ret tt)
            (λ _, ret tt).

End Commands.

(** * Notions used by the statements *)

(** A computation that leaves the world as it found it. *)
Definition readonly {A} (m : M A) : Prop := ∀ w, (run m w).2 = w.

(** An issue list carries an issue with the given code. *)
Definition has_code (code : string) (issues : list RepoIssue.t) : Prop :=
  ∃ i, i ∈ issues ∧ RepoIssue.code i = code.

(** The issues of a list that carry the given code. *)
Definition with_code (code : string) (issues : list RepoIssue.t) : list RepoIssue.t :=
  filter (λ i, RepoIssue.code i = code) issues.

(** The ONGOING_OPERATION warning of a merge with [n] conflicted files. *)
Definition mergeConflictWarning (n : nat) : RepoIssue.t :=
  {| RepoIssue.type := warning;
     RepoIssue.code := "ONGOING_OPERATION";
     RepoIssue.message := "Merge in progress";
     RepoIssue.suggestion := Some ("Resolve " +:+ Js.num n +:+ " conflict(s) or abort") |}.

(** Reachability in the commit graph: [Reach objs a b] when [b] is [a] or
    an ancestor of [a] through parent edges. *)
Inductive Reach (objs : list Git.Commit) : string → string → Prop :=
  | Reach_here h c :
      Git.lookup_commit objs h = Some c → Reach objs h h
  | Reach_parent a c p b :
      Git.lookup_commit objs a = Some c → p ∈ Git.parents c →
      Reach objs p b → Reach objs a b.

(** A commit is reachable from at least one remote-tracking reference. *)
Definition reachable_from_remote (r : Git.Repo) (h : string) : Prop :=
  ∃ ref, ref ∈ Git.remote_refs r ∧ Reach (Git.objects r) ref.2 h.

(** Result of a computation, the final world dropped. *)
Definition value {A} (m : M A) (w : World) : Res A := (run m w).1.

(** No git invocation fails unexpectedly. *)
Definition healthy (w : World) : Prop := ∀ cmd, faults w cmd = false.

(** What [git status] reports for a repository. *)
Definition status_of (r : Git.Repo) : GitStatus.t :=
  {| GitStatus.current := Some (default "HEAD" (Git.current r));
     GitStatus.tracking := Git.tracking r;
     GitStatus.staged := Git.staged r;
     GitStatus.modified := Git.modified r;
     GitStatus.untracked := Git.untracked r;
     GitStatus.ahead := Git.ahead r;
     GitStatus.behind := Git.behind r |}.

(** The current branch has an upstream (tracking) reference. *)
Definition has_upstream (r : Git.Repo) : Prop :=
  ∃ t, Git.tracking r = Some t ∧ t ≠ EmptyString.

(** The answer of [isPushed] in a world. *)
Definition pushedb (w : World) (h : string) : bool :=
  match value (GitWrapper.isPushed h) w with
  | Ok b => b
  | Throw _ => false
  end.

(** The commits [getRecentCommits n] returns: the newest [n], and the whole
    history when [n] is 0. *)
Definition candidates (r : Git.Repo) (n : nat) : list CommitInfo.t :=
  GitWrapper.commitInfo <$> Git.max_count n (Git.history r).

(** Executable check of the store invariant. *)
Fixpoint wf_storeb (objs : list Git.Commit) : bool :=
  match objs with
  | [] => true
  | c :: rest =>
      negb (bool_decide (Git.hash c = EmptyString))
      && negb (bool_decide (Git.hash c ∈ Git.hashes rest))
      && forallb (λ p, bool_decide (p ∈ Git.hashes rest)) (Git.parents c)
      && wf_storeb rest
  end.

(** ** Sample worlds *)

Module Samples.

Definition commit (h : string) (ps : list string) (m : string) : Git.Commit :=
  {| Git.hash := h; Git.parents := ps; Git.message := m; Git.author := "alice";
     Git.date := "2024-01-01" |}.

(** The sample commits change no file, and the staged paths of the sample
    repositories are changes to tracked files: a soft reset leaves the
    listing as it is, a mixed reset turns what was staged into
    modifications, and a hard reset leaves only the untracked paths. *)
Definition settled (mode : Git.ResetMode) (t : string) (now : Git.Listing) : Git.Listing :=
  match mode with
  | Git.Soft => now
  | Git.Mixed =>
      {| Git.now_staged := [];
         Git.now_modified := list_union (Git.now_modified now) (Git.now_staged now);
         Git.now_untracked := Git.now_untracked now;
         Git.now_ahead := Git.now_ahead now; Git.now_behind := Git.now_behind now |}
  | Git.Hard =>
      {| Git.now_staged := []; Git.now_modified := [];
         Git.now_untracked := Git.now_untracked now;
         Git.now_ahead := Git.now_ahead now; Git.now_behind := Git.now_behind now |}
  end.

(** A linear history [c1 <- c2 <- c3] with HEAD at [c3] on [main]. *)
Definition three_commits : list Git.Commit :=
  [commit "c3" ["c2"] "third"; commit "c2" ["c1"] "second"; commit "c1" [] "first"].

Definition repo_with (objs : list Git.Commit) (head : option string)
    (tracking : option string) (remote_refs : list (string * string))
    (staged modified untracked : list string) : Git.Repo :=
  {| Git.objects := objs; Git.HEAD := head; Git.current := Some "main";
     Git.tracking := tracking; Git.staged := staged; Git.modified := modified;
     Git.untracked := untracked; Git.ahead := 0; Git.behind := 0;
     Git.remotes := if remote_refs is [] then [] else ["origin"];
     Git.remote_refs := remote_refs; Git.branches := ["main"];
     Git.reflog := []; Git.stashes := []; Git.conflicted := [];
     Git.MERGE_HEAD := false; Git.rebase_merge := false; Git.rebase_apply := false;
     Git.CHERRY_PICK_HEAD := false; Git.BISECT_LOG := false;
     Git.after_reset := settled |}.

(** The operator confirms every prompt and picks a soft reset. *)
Definition agreeing : Operator :=
  {| answer_confirm := λ _, true; answer_number := 1; answer_mode := Git.Soft |}.

Definition world_with (r : option Git.Repo) (journal : FileState) (cfg : Config.t) : World :=
  {| repo := r; faults := λ _, false; cwd := "/home/alice/project";
     historyFile := journal; writable := true; config := cfg; ticks := 0;
     rand := λ n, "1700000000000-" +:+ pretty n;
     clock := λ n, "2024-01-01T00:00:0" +:+ pretty n +:+ "Z";
     operator := agreeing |}.

Definition world_of (r : Git.Repo) : World :=
  world_with (Some r) Absent Config.defaultConfig.

(** Nothing pushed, nothing changed. *)
Definition local_repo : Git.Repo :=
  repo_with three_commits (Some "c3") None [] [] [] [].

(** [origin/main] is at [c2] and [main] tracks it. *)
Definition tracked_repo : Git.Repo :=
  repo_with three_commits (Some "c3") (Some "origin/main") [("origin/main", "c2")] [] [] [].

(** [origin/main] is at [c2] but the current branch has no upstream. *)
Definition untracked_branch_repo : Git.Repo :=
  repo_with three_commits (Some "c3") None [("origin/main", "c2")] [] [] [].

(** Only untracked files in the working tree. *)
Definition untracked_files_repo : Git.Repo :=
  repo_with three_commits (Some "c3") None [] [] [] ["notes.txt"].

(** Staged and modified files in the working tree. *)
Definition dirty_repo : Git.Repo :=
  repo_with three_commits (Some "c3") (Some "origin/main") [("origin/main", "c2")]
    ["a.txt"] ["b.txt"] [].

(** [local_repo] in the middle of a merge, with one unmerged path. *)
Definition merging_repo : Git.Repo :=
  {| Git.objects := three_commits; Git.HEAD := Some "c3"; Git.current := Some "main";
     Git.tracking := None; Git.staged := []; Git.modified := [];
     Git.untracked := []; Git.ahead := 0; Git.behind := 0;
     Git.remotes := []; Git.remote_refs := []; Git.branches := ["main"];
     Git.reflog := []; Git.stashes := []; Git.conflicted := ["README.md"];
     Git.MERGE_HEAD := true; Git.rebase_merge := false; Git.rebase_apply := false;
     Git.CHERRY_PICK_HEAD := false; Git.BISECT_LOG := false;
     Git.after_reset := settled |}.

(** A fresh repository: no commit yet, one untracked file. *)
Definition unborn_repo : Git.Repo :=
  repo_with [] None None [] [] [] ["notes.txt"].

(** A repository with the given reflog (newest entry first) and branches. *)
Definition reflog_repo (reflog : list (string * string)) (branches : list string) : Git.Repo :=
  {| Git.objects := three_commits; Git.HEAD := Some "c3"; Git.current := Some "main";
     Git.tracking := None; Git.staged := []; Git.modified := [];
     Git.untracked := []; Git.ahead := 0; Git.behind := 0;
     Git.remotes := []; Git.remote_refs := []; Git.branches := branches;
     Git.reflog := reflog; Git.stashes := []; Git.conflicted := [];
     Git.MERGE_HEAD := false; Git.rebase_merge := false; Git.rebase_apply := false;
     Git.CHERRY_PICK_HEAD := false; Git.BISECT_LOG := false;
     Git.after_reset := settled |}.

(** The branch [topic] was left twice and deleted; [main] still exists. *)
Definition deleted_topic_repo : Git.Repo :=
  reflog_repo
    [ ("c3", "checkout: moving from topic to main");
      ("c2", "commit: second");
      ("c2", "checkout: moving from main to topic");
      ("c1", "checkout: moving from topic to main");
      ("c1", "commit (initial): first") ]
    ["main"].

(** Two reflog entries mention a stash drop with the same description. *)
Definition two_drops_repo : Git.Repo :=
  reflog_repo
    [ ("c3", "commit: drop the stash cache");
      ("c2", "commit: drop the stash cache") ]
    ["main"].

End Samples.

(** The warnings [checkBeforeReset] collects before it looks at the
    candidate commits. *)
Definition discardWarnings (mode : Git.ResetMode) (r : Git.Repo) : list string :=
  match mode with
  | Git.Hard =>
      if (0 <? length (Git.staged r)) || (0 <? length (Git.modified r))
      then [SafetyChecks.warnDiscard] else []
  | _ => []
  end.

(** One warning for each pushed commit of a list, in order. *)
Definition pushedWarnings (w : World) (commits : list CommitInfo.t) : list string :=
  SafetyChecks.warnPushed <$> List.filter (λ c, pushedb w (CommitInfo.hash c)) commits.

(** The directory is a repository that [git rev-parse --git-dir] accepts. *)
Definition is_repository (w : World) : bool :=
  match repo w with
  | Some _ => negb (faults w Git.RevParseGitDir)
  | None => false
  end.

(** A world whose [git status] fails. *)
Definition failing_status (w : World) : World :=
  {| repo := repo w;
     faults := λ cmd, match cmd with Git.Status => true | _ => faults w cmd end;
     cwd := cwd w; historyFile := historyFile w; writable := writable w;
     config := config w; ticks := ticks w; rand := rand w; clock := clock w;
     operator := operator w |}.

(** ** Reflog-derived queries *)

(** The entries [getReflog n] returns. *)
Definition reflog_window (r : Git.Repo) (n : nat) : list ReflogEntry.t :=
  GitWrapper.reflogEntry <$> take n (Git.reflog r).

(** Hash of the first (newest) entry that records leaving branch [name]. *)
Definition first_checkout_from (entries : list ReflogEntry.t) (name : string)
    : option string :=
  ReflogEntry.hash <$>
    List.find (λ e, bool_decide (Js.match_checkout_from (ReflogEntry.message e) = Some name))
      entries.

(** The entries [getDroppedStashes] reports, and what it reports for one. *)
Definition is_stash_drop (e : ReflogEntry.t) : bool :=
  Js.includes "stash" (ReflogEntry.message e) && Js.includes "drop" (ReflogEntry.message e).

Definition droppedStash (e : ReflogEntry.t) : string * string :=
  (ReflogEntry.hash e,
   default "Unknown stash" (Js.match_colon_rest (ReflogEntry.message e))).

(** ** The journal *)

(** The history [loadHistory] reads in a world. *)
Definition journal (w : World) : list RecordedAction.t :=
  match historyFile w with
  | Stored actions => actions
  | Absent | Unreadable => []
  end.

Definition ids (actions : list RecordedAction.t) : list string :=
  RecordedAction.id <$> actions.

(** The branch [getCurrentBranch] reports in a world. *)
Definition current_branch (w : World) : option string :=
  match value GitWrapper.getCurrentBranch w with
  | Ok b => b
  | Throw _ => None
  end.

Module SampleJournal.

Definition entry (id : string) (before after : string) : RecordedAction.t :=
  {| RecordedAction.id := id;
     RecordedAction.type := amend_message;
     RecordedAction.timestamp := "2023-12-31T23:59:59Z";
     RecordedAction.description := "Fix commit message";
     RecordedAction.repoPath := "/home/alice/project";
     RecordedAction.beforeState :=
       {| HeadState.headHash := before; HeadState.branch := Some "main" |};
     RecordedAction.afterState :=
       Some {| HeadState.headHash := after; HeadState.branch := Some "main" |};
     RecordedAction.undoCommand := Some ("git reset --hard " +:+ before);
     RecordedAction.canUndo := true |}.

Definition three_entries : list RecordedAction.t :=
  [entry "a" "c1" "c2"; entry "b" "c2" "c3"; entry "c" "c2" "c3"].

(** A single, reworded root commit [c1b]; the original [c1] is still in the
    object store. The journal holds the undoable entry of the rewording. *)
Definition reworded_root : list Git.Commit :=
  [Samples.commit "c1b" [] "first, reworded"; Samples.commit "c1" [] "first"].

Definition reworded_repo : Git.Repo :=
  Samples.repo_with reworded_root (Some "c1b") None [] [] [] [].

Definition reworded_world : World :=
  Samples.world_with (Some reworded_repo) (Stored [entry "a" "c1" "c1b"])
    Config.defaultConfig.

(** Three commits, with the journal of earlier actions. *)
Definition busy_world : World :=
  Samples.world_with (Some Samples.local_repo) (Stored three_entries)
    Config.defaultConfig.

Definition zero_maximum : Config.t :=
  {| Config.confirmDangerousActions := true;
     Config.maxActionHistory := 0;
     Config.verbose := false |}.

End SampleJournal.

(** The entry [recordAction] creates in a world whose head is [h]. *)
Definition pending (w : World) (type : ActionType) (description : string)
    (canUndo : bool) (h : string) : RecordedAction.t :=
  {| RecordedAction.id := rand w (ticks w);
     RecordedAction.type := type;
     RecordedAction.timestamp := clock w (S (ticks w));
     RecordedAction.description := description;
     RecordedAction.repoPath := cwd w;
     RecordedAction.beforeState :=
       {| HeadState.headHash := h; HeadState.branch := current_branch w |};
     RecordedAction.afterState := None;
     RecordedAction.undoCommand := None;
     RecordedAction.canUndo := canUndo |}.

(** The entry [completeAction] writes for [a] when the head is [t] on
    branch [b]. *)
Definition completed (a : RecordedAction.t) (t : string) (b : option string)
    : RecordedAction.t :=
  let a1 := ActionHistory.with_afterState
              {| HeadState.headHash := t; HeadState.branch := b |} a in
  if RecordedAction.canUndo a1
     && negb (bool_decide (HeadState.headHash (RecordedAction.beforeState a1) = t))
  then ActionHistory.with_undoCommand
         ("git reset --hard " +:+ HeadState.headHash (RecordedAction.beforeState a1)) a1
  else a1.

(** The number of commits [undoCommit] settles on. *)
Definition chosen_count (count : option nat) (w : World) (r : Git.Repo) : nat :=
  match count with
  | Some (S n) => S n
  | Some 0 | None =>
      Nat.max 1 (Nat.min (Nat.min (length (candidates r 10)) 10)
                         (answer_number (operator w)))
  end.

(** The description [undoCommit] records. *)
Definition undoDescription (k : nat) (mode : Git.ResetMode) : string :=
  "Undo " +:+ Js.num k +:+ " commit(s) with " +:+ Commands.modeName mode +:+ " reset".

(** A store without merges: every commit has at most one parent. *)
Definition linear (objs : list Git.Commit) : Prop :=
  ∀ c, c ∈ objs → length (Git.parents c) ≤ 1.

(** The entry with id [i], if the journal still holds it, has lost its
    undoable flag. *)
Definition consumed (i : string) (w : World) : Prop :=
  ∀ b, b ∈ journal w → RecordedAction.id b = i → RecordedAction.canUndo b = false.

(** Worlds that follow a world through further journal operations and git
    mutations; new actions get ids other than [i], and the action with id
    [i] is not completed a second time. *)
Inductive later (i : string) : World → World → Prop :=
  | later_refl w : later i w w
  | later_record w w1 w2 type description canUndo res :
      later i w w1 → rand w1 (ticks w1) ≠ i →
      run (ActionHistory.recordAction type description canUndo) w1 = (res, w2) →
      later i w w2
  | later_complete w w1 w2 a res :
      later i w w1 → RecordedAction.id a ≠ i →
      run (ActionHistory.completeAction a) w1 = (res, w2) →
      later i w w2
  | later_undo w w1 w2 res :
      later i w w1 →
      run ActionHistory.undoLastAction w1 = (res, w2) →
      later i w w2
  | later_git w w1 r :
      later i w w1 → later i w (set_repo r w1).

(** * Further parts of the sources

    The rest of core/stateDetector.ts, core/safetyChecks.ts and
    core/actionHistory.ts, the accessors of core/gitWrapper.ts that need no
    further git command, the text processing gitWrapper.ts applies to raw
    git output, utils/config.ts, the branch-name validator of ui/prompts.ts,
    the undo command of commands/history.ts and the menu of
    commands/menu.ts. *)

(** ** More JavaScript primitives *)

Module JsText.

(** [s.split(c)] for a separator of one character: never the empty array. *)
Fixpoint split (c : ascii) (s : string) : list string :=
  match s with
  | EmptyString => [EmptyString]
  | String a s' =>
      if bool_decide (a = c) then EmptyString :: split c s'
      else match split c s' with
           | x :: l => String a x :: l
           | [] => [String a EmptyString]
           end
  end.

(** [l.join(sep)]. *)
Fixpoint join (sep : string) (l : list string) : string :=
  match l with
  | [] => EmptyString
  | [x] => x
  | x :: l' => x +:+ sep +:+ join sep l'
  end.

(** [s.trim()], over the white space of [Js.is_space]. *)
Fixpoint trimStart (s : string) : string :=
  match s with
  | EmptyString => EmptyString
  | String c s' => if Js.is_space c then trimStart s' else s
  end.

Fixpoint trimEnd (s : string) : string :=
  match s with
  | EmptyString => EmptyString
  | String c s' =>
      let t := trimEnd s' in
      if Js.is_space c && negb (Js.truthy t) then EmptyString else String c t
  end.

Definition trim (s : string) : string := trimEnd (trimStart s).

(** The class [[a-zA-Z0-9/_-]]. *)
Definition is_branch_char (c : ascii) : bool :=
  let n := nat_of_ascii c in
  bool_decide ((97 ≤ n ∧ n ≤ 122) ∨ (65 ≤ n ∧ n ≤ 90) ∨ (48 ≤ n ∧ n ≤ 57)
               ∨ n = 47 ∨ n = 95 ∨ n = 45).

(** [/^[a-zA-Z0-9/_-]+$/.test(s)]. *)
Definition test_branch_name (s : string) : bool :=
  Js.truthy s && Js.all_chars is_branch_char s.

(** [s.replace(/^pre/, '')] for a literal [pre]. *)
Definition remove_prefix (pre s : string) : string := default s (Js.strip pre s).

(** The line feed, and a text made of lines, each ended by a line feed. *)
Definition newline : ascii := ascii_of_nat 10.

Fixpoint unlines (ls : list string) : string :=
  match ls with
  | [] => EmptyString
  | l :: ls' => l +:+ String newline (unlines ls')
  end.

End JsText.

(** ** core/gitWrapper.ts: what is done with raw git output *)

Module GitOutput.

(** [result.trim().split('\n').filter(Boolean)] *)
Definition lines (result : string) : list string :=
  List.filter Js.truthy (JsText.split JsText.newline (JsText.trim result)).

(** The callback [getReflog] maps over the lines of
    [git reflog --format=%H|%gs]. *)
Definition parseReflogLine (line : string) : ReflogEntry.t :=
  let parts := JsText.split "|" line in
  let hash := default EmptyString (head parts) in
  let message := JsText.join "|" (tail parts) in
  {| ReflogEntry.hash := hash;
     ReflogEntry.action := default "unknown" (Js.match_action message);
     ReflogEntry.message := message |}.

Definition parseReflog (result : string) : list ReflogEntry.t :=
  parseReflogLine <$> lines result.

(** The loop of [getDeletedFiles] over the lines of
    [git log --diff-filter=D --name-only --format=%H|%s]. Results are
    triples (path, hash, message). A line with a bar splits into at least
    two parts. *)
Fixpoint deletedFilesLoop (lines : list string) (currentHash currentMessage : string)
    (deletedFiles : list (string * string * string)) : list (string * string * string) :=
  match lines with
  | [] => deletedFiles
  | line :: lines' =>
      if Js.includes "|" line then
        let parts := JsText.split "|" line in
        deletedFilesLoop lines'
          (default EmptyString (parts !! 0)) (default EmptyString (parts !! 1))
          deletedFiles
      else if Js.truthy line && Js.truthy currentHash then
        deletedFilesLoop lines' currentHash currentMessage
          (deletedFiles ++ [(line, currentHash, currentMessage)])%list
      else deletedFilesLoop lines' currentHash currentMessage deletedFiles
  end.

Definition parseDeletedFiles (result : string) : list (string * string * string) :=
  deletedFilesLoop (lines result) EmptyString EmptyString [].

(** What [cleanDryRun] makes of the output of [git clean -n -d]. *)
Definition parseCleanDryRun (result : string) : list string :=
  JsText.remove_prefix "Would remove " <$>
    List.filter Js.truthy (JsText.split JsText.newline result).

End GitOutput.

(** ** core/gitWrapper.ts: two more accessors *)

Module GitQueries.

Definition getUntrackedFiles : M (list string) :=
  status <- GitWrapper.getStatus ;;
  ret (GitStatus.untracked status).

(** The result is the pair (hash, message). *)
Definition getDetachedHeadInfo : M (option (string * string)) :=
  catch
    (isDetached <- GitWrapper.isDetachedHead ;;
     if negb isDetached then ret None
     else
       hash <- GitWrapper.getHeadHash ;;
       lastCommit <- GitWrapper.getLastCommit ;;
       ret (Some (Js.substring0 7 hash,
                  match lastCommit with
                  | Some c => if Js.truthy (CommitInfo.message c)
                              then CommitInfo.message c else "Unknown commit"
                  | None => "Unknown commit"
                  end)))
    (λ _, ret None).

End GitQueries.

(** ** core/stateDetector.ts: whether an operation applies *)

Module Verdict.
Record t := mk {
  allowed : bool;
  reason : option string;
}.
End Verdict.

Module Can.

Definition yes : Verdict.t := {| Verdict.allowed := true; Verdict.reason := None |}.

Definition no (reason : string) : Verdict.t :=
  {| Verdict.allowed := false; Verdict.reason := Some reason |}.

Definition canUndoCommit : M Verdict.t :=
  lastCommit <- GitWrapper.getLastCommit ;;
  match lastCommit with
  | None => ret (no "No commits to undo")
  | Some _ => ret yes
  end.

Definition amendWarning : string :=
  "Warning: This commit has been pushed. Amending will require a force push.".

Definition canAmendCommit : M Verdict.t :=
  lastCommit <- GitWrapper.getLastCommit ;;
  match lastCommit with
  | None => ret (no "No commits to amend")
  | Some lastCommit =>
      isPushed <- GitWrapper.isPushed (CommitInfo.hash lastCommit) ;;
      if isPushed
      then ret {| Verdict.allowed := true; Verdict.reason := Some amendWarning |}
      else ret yes
  end.

Definition canMoveCommits : M Verdict.t :=
  commits <- GitWrapper.getRecentCommits 1 ;;
  if bool_decide (length commits = 0) then ret (no "No commits to move")
  else ret yes.

Definition canRecoverBranch : M Verdict.t :=
  deletedBranches <- GitWrapper.getDeletedBranches ;;
  if bool_decide (length deletedBranches = 0)
  then ret (no "No recently deleted branches found in reflog")
  else ret yes.

Definition canFixDetachedHead : M Verdict.t :=
  isDetached <- GitWrapper.isDetachedHead ;;
  if negb isDetached then ret (no "Not in detached HEAD state")
  else ret yes.

(** The verdict, and the [operation] field. *)
Definition canAbortOperation : M (Verdict.t * option Operation) :=
  operation <- GitWrapper.getOngoingOperation ;;
  match operation with
  | None => ret (no "No ongoing Git operation", None)
  | Some op => ret (yes, Some op)
  end.

(** The verdict, and the [hasStashes] field. *)
Definition canStash : M (Verdict.t * option bool) :=
  results <- both GitWrapper.hasUncommittedChanges GitWrapper.getStashList ;;
  let '(hasChanges, stashList) := results in
  if negb hasChanges && bool_decide (length stashList = 0)
  then ret (no "No changes to stash and no existing stashes", None)
  else ret (yes, Some (0 <? length stashList)).

Definition canUnstage : M Verdict.t :=
  hasStagedChanges <- GitWrapper.hasStagedChanges ;;
  if negb hasStagedChanges then ret (no "No staged files")
  else ret yes.

Definition canDiscardChanges : M Verdict.t :=
  hasChanges <- GitWrapper.hasUncommittedChanges ;;
  if negb hasChanges then ret (no "No changes to discard")
  else ret yes.

Definition canCleanUntracked : M Verdict.t :=
  untrackedFiles <- GitQueries.getUntrackedFiles ;;
  if bool_decide (length untrackedFiles = 0) then ret (no "No untracked files")
  else ret yes.

Definition canSquashCommits : M Verdict.t :=
  commits <- GitWrapper.getRecentCommits 2 ;;
  if length commits <? 2 then ret (no "Need at least 2 commits to squash")
  else ret yes.

Definition canForcePushRecovery : M Verdict.t :=
  hasRemote <- GitWrapper.hasRemote ;;
  if negb hasRemote then ret (no "No remote configured")
  else ret yes.

End Can.

(** ** core/safetyChecks.ts: the other checks *)

Module SafetyChecksMore.

Definition noCommitsToAmend : string := "No commits to amend".

Definition amendPushedWarning : string :=
  "This commit has been pushed. Amending will require a force push.".

Definition checkBeforeAmend : M SafetyCheckResult.t :=
  lastCommit <- GitWrapper.getLastCommit ;;
  match lastCommit with
  | None =>
      ret {| SafetyCheckResult.safe := false;
             SafetyCheckResult.warnings := [];
             SafetyCheckResult.blockers := [noCommitsToAmend] |}
  | Some lastCommit =>
      isPushed <- GitWrapper.isPushed (CommitInfo.hash lastCommit) ;;
      let blockers : list string := [] in
      ret {| SafetyCheckResult.safe := bool_decide (length blockers = 0);
             SafetyCheckResult.warnings := if isPushed then [amendPushedWarning] else [];
             SafetyCheckResult.blockers := blockers |}
  end.

Definition branchExists (branchName : string) : string :=
  "Branch " +:+ Js.quote +:+ branchName +:+ Js.quote +:+ " already exists".

Definition invalidCharacters : string := "Branch name contains invalid characters".

Definition checkBeforeBranchCreate (branchName : string) : M SafetyCheckResult.t :=
  branches <- GitWrapper.getBranches ;;
  let blockers :=
    ((if bool_decide (branchName ∈ branches) then [branchExists branchName] else [])
     ++ (if negb (JsText.test_branch_name branchName) then [invalidCharacters] else []))%list in
  ret {| SafetyCheckResult.safe := bool_decide (length blockers = 0);
         SafetyCheckResult.warnings := [];
         SafetyCheckResult.blockers := blockers |}.

(** The action name, the details and the warnings are only printed. *)
Definition confirmDangerousAction (actionName details : string) (warnings : list string)
    : M bool :=
  config <- get config ;;
  if negb (Config.confirmDangerousActions config) then ret true
  else Prompts.confirm "Do you want to proceed?".

End SafetyChecksMore.

(** ** ui/prompts.ts: the validator of [inputBranchName] *)

Inductive Validation :=
  | Accepted                       (* [true] *)
  | Rejected (message : string).

Module PromptsMore.

Definition validateBranchName (value : string) : Validation :=
  if negb (Js.truthy (JsText.trim value)) then Rejected "Branch name cannot be empty"
  else if negb (JsText.test_branch_name value)
  then Rejected "Branch name contains invalid characters (use only letters, numbers, /, _, -)"
  else Accepted.

End PromptsMore.

(** ** core/actionHistory.ts: the unscoped window *)

Module ActionHistoryMore.

Definition getAllActions (count : nat) : M (list RecordedAction.t) :=
  actions <- ActionHistory.loadHistory ;;
  ret (rev (Js.slice_from (- Z.of_nat count) actions)).

End ActionHistoryMore.

(** ** commands/history.ts: the undo command *)

Module HistoryCommands.

Definition undoLastAction : M unit :=
  lastAction <- ActionHistory.getLastUndoableAction ;;
  match lastAction with
  | None => ret tt
  | Some _ =>
      confirmed <- Prompts.confirmAction "Undo this action?" ;;
      if negb confirmed then ret tt
      else
        result <- ActionHistory.undoLastAction ;;
        ret tt
  end.

End HistoryCommands.

(** ** utils/config.ts *)

Module ConfigFile.

(** A [Partial<GitPanicConfig>]. *)
Record Partial := mkPartial {
  confirmDangerousActions : option bool;
  maxActionHistory : option Z;
  verbose : option bool;
}.

(** Content of [config.json]: missing, not parseable, or an object, of
    which the three keys of [GitPanicConfig] are kept. *)
Inductive File :=
  | Missing
  | Corrupt
  | Object (fields : Partial).

Record Disk := mkDisk {
  dirReady : bool;        (* [~/.gitpanic] exists or can be created *)
  file : File;
  fileWritable : bool;    (* whether [fs.writeFileSync] succeeds *)
}.

(** [{ ...base, ...over }] *)
Definition spread (base : Config.t) (over : Partial) : Config.t :=
  {| Config.confirmDangerousActions :=
       default (Config.confirmDangerousActions base) (confirmDangerousActions over);
     Config.maxActionHistory :=
       default (Config.maxActionHistory base) (maxActionHistory over);
     Config.verbose := default (Config.verbose base) (verbose over) |}.

(** The object [JSON.stringify] writes for a full configuration. *)
Definition stringify (c : Config.t) : File :=
  Object {| confirmDangerousActions := Some (Config.confirmDangerousActions c);
            maxActionHistory := Some (Config.maxActionHistory c);
            verbose := Some (Config.verbose c) |}.

Definition getConfig (d : Disk) : Config.t :=
  if dirReady d then
    match file d with
    | Object fields => spread Config.defaultConfig fields
    | Corrupt => Config.defaultConfig
    | Missing => Config.defaultConfig
    end
  else Config.defaultConfig.

Definition saveConfig (config : Partial) (d : Disk) : Disk :=
  if dirReady d then
    let current := getConfig d in
    let updated := spread current config in
    if fileWritable d
    then {| dirReady := dirReady d; file := stringify updated;
            fileWritable := fileWritable d |}
    else d
  else d.

End ConfigFile.

(** ** commands/menu.ts: the menu that is offered *)

Module MenuItem.
Record t := mk {
  name : string;
  value : string;
  description : option string;
  disabled : option string;      (* [false] or the reason shown *)
}.
End MenuItem.

Inductive MenuEntry :=
  | Separator (text : option string)
  | Item (item : MenuItem.t).

Module Menu.

Definition explanation_fix_message : string :=
  "git commit --amend -m " +:+ Js.quote +:+ "new message" +:+ Js.quote.
Definition explanation_add_files : string :=
  "git add <files> && git commit --amend --no-edit".
Definition explanation_squash : string := "git reset --soft HEAD~N && git commit".
Definition explanation_recover_branch : string :=
  "git reflog && git checkout -b <branch> <hash>".
Definition explanation_recover_file : string := "git checkout <commit> -- <file>".

(** The string an operation is in [RepoState.ongoingOperation]. *)
Definition operationText (op : Operation) : string :=
  match op with
  | merge => "merge"
  | rebase => "rebase"
  | cherry_pick => "cherry-pick"
  | bisect => "bisect"
  end.

(** [message.split('\n')[0]] *)
Definition firstLine (message : string) : string :=
  default EmptyString (head (JsText.split JsText.newline message)).

(** [disabled: !cond ? reason : false] *)
Definition unless (cond : bool) (reason : string) : option string :=
  if cond then None else Some reason.

(** Colours are left out of the names. *)
Definition buildMenuItems (state : RepoState.t) : M (list MenuEntry) :=
  lastUndoableAction <- ActionHistory.getLastUndoableAction ;;
  let hasCommits := bool_decide (is_Some (RepoState.lastCommit state)) in
  let ongoing := bool_decide (is_Some (RepoState.ongoingOperation state)) in
  let untrackedCount :=
    match RepoState.status state with
    | Some status => length (GitStatus.untracked status)
    | None => 0
    end in
  ret ((if RepoState.isDetachedHead state
        then [Item {| MenuItem.name := "! Fix Detached HEAD State";
                      MenuItem.value := "fix-detached";
                      MenuItem.description := Some "RECOMMENDED - You are in detached HEAD";
                      MenuItem.disabled := None |}]
        else [])
       ++ match RepoState.ongoingOperation state with
          | Some op =>
              let conflictText :=
                if RepoState.hasConflicts state
                then " (" +:+ Js.num (length (RepoState.conflictedFiles state)) +:+ " conflicts)"
                else EmptyString in
              [Item {| MenuItem.name := "! Abort/Continue " +:+ operationText op +:+ conflictText;
                       MenuItem.value := "abort";
                       MenuItem.description := Some "RECOMMENDED - Operation in progress";
                       MenuItem.disabled := None |}]
          | None => []
          end
       ++ (if RepoState.isDetachedHead state || ongoing then [Separator None] else [])
       ++ [Separator (Some "── Commit Operations ──");
           Item {| MenuItem.name := "Undo Last Commit(s)";
                   MenuItem.value := "undo";
                   MenuItem.description :=
                     match RepoState.lastCommit state with
                     | Some c => Some (Js.substring0 30 (firstLine (CommitInfo.message c)))
                     | None => Some "No commits"
                     end;
                   MenuItem.disabled := unless hasCommits "No commits" |};
           Item {| MenuItem.name := "Fix Commit Message";
                   MenuItem.value := "fix-message";
                   MenuItem.description := Some explanation_fix_message;
                   MenuItem.disabled := unless hasCommits "No commits" |};
           Item {| MenuItem.name := "Add Files to Last Commit";
                   MenuItem.value := "add-files";
                   MenuItem.description := Some explanation_add_files;
                   MenuItem.disabled := unless hasCommits "No commits" |};
           Item {| MenuItem.name := "Squash Commits";
                   MenuItem.value := "squash";
                   MenuItem.description := Some explanation_squash;
                   MenuItem.disabled := unless hasCommits "No commits" |};
           Separator (Some "── Branch Operations ──");
           Item {| MenuItem.name := "Recover Deleted Branch";
                   MenuItem.value := "recover-branch";
                   MenuItem.description := Some explanation_recover_branch;
                   MenuItem.disabled := None |};
           Separator (Some "── Staging Operations ──");
           Item {| MenuItem.name := "Unstage Files";
                   MenuItem.value := "unstage";
                   MenuItem.description :=
                     Some (if RepoState.hasStagedChanges state
                           then match RepoState.status state with
                                | Some status => Js.num (length (GitStatus.staged status))
                                | None => "undefined"
                                end +:+ " file(s) staged"
                           else "No staged files");
                   MenuItem.disabled :=
                     unless (RepoState.hasStagedChanges state) "No staged files" |};
           Item {| MenuItem.name := "Discard Local Changes";
                   MenuItem.value := "discard";
                   MenuItem.description :=
                     Some (if RepoState.hasUncommittedChanges state
                           then "Has uncommitted changes" else "No changes");
                   MenuItem.disabled :=
                     unless (RepoState.hasUncommittedChanges state) "No changes" |};
           Item {| MenuItem.name := "Clean Untracked Files";
                   MenuItem.value := "clean";
                   MenuItem.description :=
                     Some (if 0 <? untrackedCount
                           then Js.num untrackedCount +:+ " untracked file(s)"
                           else "No untracked files");
                   MenuItem.disabled :=
                     unless (negb (bool_decide (untrackedCount = 0))) "No untracked files" |};
           Separator (Some "── Recovery Operations ──")]
       ++ (if negb ongoing
           then [Item {| MenuItem.name := "Abort Merge/Rebase/Cherry-pick";
                         MenuItem.value := "abort";
                         MenuItem.description := Some "No operation in progress";
                         MenuItem.disabled := Some "No operation in progress" |}]
           else [])
       ++ [Item {| MenuItem.name := "Recover File from History";
                   MenuItem.value := "recover-file";
                   MenuItem.description := Some explanation_recover_file;
                   MenuItem.disabled := None |};
           Item {| MenuItem.name := "Stash Operations";
                   MenuItem.value := "stash";
                   MenuItem.description :=
                     Some (if RepoState.hasStashes state
                           then Js.num (RepoState.stashCount state) +:+ " stash(es)"
                           else "No stashes");
                   MenuItem.disabled := None |};
           Separator None;
           Item {| MenuItem.name := "Undo Last GitPanic Action";
                   MenuItem.value := "undo-action";
                   MenuItem.description :=
                     Some match lastUndoableAction with
                          | Some a => "Undo: " +:+ Js.substring0 30 (RecordedAction.description a)
                          | None => "No actions to undo"
                          end;
                   MenuItem.disabled :=
                     unless (bool_decide (is_Some lastUndoableAction)) "No actions to undo" |};
           Item {| MenuItem.name := "View Action History";
                   MenuItem.value := "history";
                   MenuItem.description := Some "See all GitPanic actions";
                   MenuItem.disabled := None |};
           Separator None;
           Item {| MenuItem.name := "Exit";
                   MenuItem.value := "exit";
                   MenuItem.description := None;
                   MenuItem.disabled := None |}])%list.

End Menu.

(** * Notions used by the further statements *)

(** The issue codes of [detectIssues], in the order of its checks. *)
Definition issueCodes : list string :=
  [ "DETACHED_HEAD"; "ONGOING_OPERATION"; "HAS_CONFLICTS"; "NO_COMMITS";
    "UNPUSHED_COMMITS"; "BEHIND_REMOTE"; "UNSTAGED_CHANGES"; "STAGED_CHANGES" ].

(** The codes of an issue list. *)
Definition codes (issues : list RepoIssue.t) : list string := RepoIssue.code <$> issues.



(** An operation marker is present in the git directory. *)
Definition marker (r : Git.Repo) : bool :=
  Git.MERGE_HEAD r || Git.rebase_merge r || Git.rebase_apply r
  || Git.CHERRY_PICK_HEAD r || Git.BISECT_LOG r.

(** HEAD names a commit and no branch. *)
Definition detached (r : Git.Repo) : Prop :=
  is_Some (Git.HEAD r) ∧ default "HEAD" (Git.current r) = "HEAD".

(** The operation the markers of the git directory indicate. *)
Definition ongoing_of (r : Git.Repo) : option Operation :=
  if Git.MERGE_HEAD r then Some merge
  else if Git.rebase_merge r || Git.rebase_apply r then Some rebase
  else if Git.CHERRY_PICK_HEAD r then Some cherry_pick
  else if Git.BISECT_LOG r then Some bisect
  else None.

(** ** The journal, continued *)

(** The entries recorded for the current directory. *)
Definition scoped (w : World) : list RecordedAction.t :=
  List.filter (λ a, bool_decide (RecordedAction.repoPath a = cwd w)) (journal w).

(** [slice(-count).reverse()] of a list, seen from its newest end. *)
Definition newest {A} (count : nat) (l : list A) : list A :=
  match count with
  | 0 => rev l
  | S _ => take count (rev l)
  end.

(** An entry with an undo directive has an after-state whose head differs
    from the head before, and the directive resets to the head before. *)
Definition directive_ok (a : RecordedAction.t) : Prop :=
  ∀ c, RecordedAction.undoCommand a = Some c →
    c = "git reset --hard " +:+ HeadState.headHash (RecordedAction.beforeState a) ∧
    ∃ s, RecordedAction.afterState a = Some s ∧
         HeadState.headHash s ≠ HeadState.headHash (RecordedAction.beforeState a).

(** One operation on the journal or on the repository: recording,
    completing an action that carries no directive yet (as [recordAction]
    returns it), undoing, clearing, or any change git makes. *)
Inductive journal_step : World → World → Prop :=
  | step_record type description canUndo w res w1 :
      run (ActionHistory.recordAction type description canUndo) w = (res, w1) →
      journal_step w w1
  | step_complete a w res w1 :
      RecordedAction.undoCommand a = None →
      run (ActionHistory.completeAction a) w = (res, w1) →
      journal_step w w1
  | step_undo w res w1 :
      run ActionHistory.undoLastAction w = (res, w1) →
      journal_step w w1
  | step_clear w res w1 :
      run ActionHistory.clearHistory w = (res, w1) →
      journal_step w w1
  | step_git w r :
      journal_step w (set_repo r w).

(** ** Branch names *)

(** The characters of the class [[a-zA-Z0-9/_-]]. *)
Definition allowedChars : string :=
  "abcdefghijklmnopqrstuvwxyzABCDEFGHIJKLMNOPQRSTUVWXYZ0123456789/_-".

(** The characters of a string. *)
Definition chars (s : string) : list ascii := String.list_ascii_of_string s.

(** ** Raw git output *)

(** A line of text: free of line feeds, and without white space at its
    ends. *)
Definition is_line (l : string) : Prop :=
  (JsText.newline ∉ chars l) ∧ JsText.trim l = l.

(** The line [%H|%gs] of a reflog entry (hash, subject). *)
Definition reflogLine (e : string * string) : string := e.1 +:+ "|" +:+ e.2.

(** A commit of [git log --diff-filter=D --name-only --format=%H|%s], as
    (hash, subject, deleted paths): its header line and its name lines,
    and what [getDeletedFiles] reports for it. *)
Definition deletedGroup : Type := string * string * list string.

Definition groupLines (g : deletedGroup) : list string :=
  (g.1.1 +:+ "|" +:+ g.1.2) :: g.2.

Definition groupFiles (g : deletedGroup) : list (string * string * string) :=
  (λ path, (path, g.1.1, Js.before_bar g.1.2)) <$> g.2.

Definition group_ok (g : deletedGroup) : Prop :=
  g.1.1 ≠ EmptyString ∧ ("|"%char ∉ chars g.1.1) ∧
  Forall (λ path, path ≠ EmptyString ∧ ("|"%char ∉ chars path)) g.2.

(** ** A detached HEAD *)

(** HEAD at [c2], on no branch. *)
Definition detached_repo : Git.Repo :=
  {| Git.objects := Samples.three_commits; Git.HEAD := Some "c2"; Git.current := None;
     Git.tracking := None; Git.staged := []; Git.modified := [];
     Git.untracked := []; Git.ahead := 0; Git.behind := 0;
     Git.remotes := []; Git.remote_refs := []; Git.branches := ["main"];
     Git.reflog := []; Git.stashes := []; Git.conflicted := [];
     Git.MERGE_HEAD := false; Git.rebase_merge := false; Git.rebase_apply := false;
     Git.CHERRY_PICK_HEAD := false; Git.BISECT_LOG := false;
     Git.after_reset := Samples.settled |}.

(** The message [getDetachedHeadInfo] shows for the last commit. *)
Definition shownMessage (lastCommit : option CommitInfo.t) : string :=
  match lastCommit with
  | Some c => if Js.truthy (CommitInfo.message c) then CommitInfo.message c
              else "Unknown commit"
  | None => "Unknown commit"
  end.

(** ** The menu *)

(** The items of a menu, separators left out, and their values. *)
Definition menuItems (entries : list MenuEntry) : list MenuItem.t :=
  omap (λ e, match e with Item i => Some i | Separator _ => None end) entries.

Definition menuValues (entries : list MenuEntry) : list string :=
  MenuItem.value <$> menuItems entries.

(** The first item with a given value. *)
Definition itemOf (v : string) (entries : list MenuEntry) : option MenuItem.t :=
  List.find (λ i, bool_decide (MenuItem.value i = v)) (menuItems entries).

(** The menu offers a value, and the operator can select it. *)
Definition offered (v : string) (entries : list MenuEntry) : bool :=
  bool_decide (is_Some (itemOf v entries)).

Definition selectable (v : string) (entries : list MenuEntry) : bool :=
  match itemOf v entries with
  | Some i => bool_decide (MenuItem.disabled i = None)
  | None => false
  end.

(** The number of untracked files a snapshot shows. *)
Definition untrackedCount (state : RepoState.t) : nat :=
  match RepoState.status state with
  | Some status => length (GitStatus.untracked status)
  | None => 0
  end.

(** ** Operators and files *)

(** The same world with another operator at the prompts. *)
Definition with_operator (op : Operator) (w : World) : World :=
  {| repo := repo w; faults := faults w; cwd := cwd w; historyFile := historyFile w;
     writable := writable w; config := config w; ticks := ticks w;
     rand := rand w; clock := clock w; operator := op |}.

(** The journal of earlier actions on a file that cannot be written. *)
Definition locked_world : World :=
  {| repo := Some Samples.local_repo; faults := λ _, false; cwd := "/home/alice/project";
     historyFile := Stored SampleJournal.three_entries; writable := false;
     config := Config.defaultConfig; ticks := 0;
     rand := λ n, "1700000000000-" +:+ pretty n;
     clock := λ n, "2024-01-01T00:00:0" +:+ pretty n +:+ "Z";
     operator := Samples.agreeing |}.

(** * Properties *)

(** ** JavaScript primitives *)

Example slice_last_two : Js.slice_from (-2)%Z [1; 2; 3] = [2; 3].
Proof. reflexivity. Qed.

Example slice_minus_zero : Js.slice_from (-0)%Z [1; 2; 3] = [1; 2; 3].
Proof. reflexivity. Qed.

Example match_checkout_from_example :
  Js.match_checkout_from "checkout: moving from feature/x to main" = Some "feature/x".
Proof. reflexivity. Qed.

Example match_colon_rest_example :
  Js.match_colon_rest "stash: drop: WIP on main" = Some "drop: WIP on main".
Proof. reflexivity. Qed.


(** ** The monad *)

Section MonadLaws.
Context {A B : Type}.

Lemma run_ret (a : A) w : run (ret a) w = (Ok a, w).
Proof. reflexivity. Qed.

Lemma run_throw e w : run (throw e : M A) w = (Throw e, w).
Proof. reflexivity. Qed.

Lemma run_get (f : World → A) w : run (get f) w = (Ok (f w), w).
Proof. reflexivity. Qed.

Lemma run_bind (m : M A) (k : A → M B) w :
  run (bind m k) w =
  match run m w with
  | (Ok a, w1) => run (k a) w1
  | (Throw e, w1) => (Throw e, w1)
  end.
Proof.
  unfold run, bind. destruct (m w) as [[[a|e] w1] t1]; simpl; [|reflexivity].
  destruct (k a w1) as [rw t2]; reflexivity.
Qed.

Lemma run_catch (m : M A) (h : string → M A) w :
  run (catch m h) w =
  match run m w with
  | (Ok a, w1) => (Ok a, w1)
  | (Throw e, w1) => run (h e) w1
  end.
Proof.
  unfold run, catch. destruct (m w) as [[[a|e] w1] t1]; simpl; [reflexivity|].
  destruct (h e w1) as [rw t2]; reflexivity.
Qed.

Lemma run_both (m1 : M A) (m2 : M B) w :
  run (both m1 m2) w =
  match run m1 w with
  | (r1, w1) =>
      match run m2 w1 with
      | (r2, w2) =>
          (match r1, r2 with
           | Ok a, Ok b => Ok (a, b)
           | Throw e, _ => Throw e
           | Ok _, Throw e => Throw e
           end, w2)
      end
  end.
Proof.
  unfold run, both. destruct (m1 w) as [[r1 w1] t1]; simpl.
  destruct (m2 w1) as [[r2 w2] t2]; reflexivity.
Qed.

Lemma run_git cmd (f : Git.Repo → Res A) w :
  run (git cmd f) w =
  (match repo w with
   | Some r => if faults w cmd then Throw "git: command failed" else f r
   | None => Throw "fatal: not a git repository"
   end, w).
Proof. reflexivity. Qed.

End MonadLaws.

Lemma run_modify f w : run (modify f) w = (Ok tt, f w).
Proof. reflexivity. Qed.

Lemma run_withSpinner {A} (m : M A) w : run (Prompts.withSpinner m) w = run m w.
Proof.
  unfold Prompts.withSpinner. rewrite run_catch.
  destruct (run m w) as [[a|e] w1]; reflexivity.
Qed.


Lemma readonly_ret {A} (a : A) : readonly (ret a).
Proof. intros w; reflexivity. Qed.

Lemma readonly_get {A} (f : World → A) : readonly (get f).
Proof. intros w; reflexivity. Qed.

Lemma readonly_git {A} cmd (f : Git.Repo → Res A) : readonly (git cmd f).
Proof. intros w; reflexivity. Qed.

Lemma readonly_bind {A B} (m : M A) (k : A → M B) :
  readonly m → (∀ a, readonly (k a)) → readonly (bind m k).
Proof.
  intros Hm Hk w. rewrite run_bind. specialize (Hm w).
  destruct (run m w) as [[a|e] w1]; simpl in *; subst; [apply Hk|reflexivity].
Qed.

Lemma readonly_catch {A} (m : M A) h :
  readonly m → (∀ e, readonly (h e)) → readonly (catch m h).
Proof.
  intros Hm Hh w. rewrite run_catch. specialize (Hm w).
  destruct (run m w) as [[a|e] w1]; simpl in *; subst; [reflexivity|apply Hh].
Qed.

Lemma readonly_both {A B} (m1 : M A) (m2 : M B) :
  readonly m1 → readonly m2 → readonly (both m1 m2).
Proof.
  intros H1 H2 w. rewrite run_both. specialize (H1 w).
  destruct (run m1 w) as [r1 w1]; simpl in *; subst.
  specialize (H2 w). destruct (run m2 w) as [r2 w2]; simpl in *; subst. reflexivity.
Qed.

Create HintDb readonly.
#[export] Hint Resolve readonly_ret readonly_get readonly_git : readonly.

Ltac readonly :=
  repeat first
    [ apply readonly_ret | apply readonly_get | apply readonly_git
    | apply readonly_bind; [|intros ?] | apply readonly_catch; [|intros ?]
    | apply readonly_both
    | match goal with |- readonly (if ?b then _ else _) => destruct b end
    | match goal with |- readonly (match ?x with _ => _ end) => destruct x end
    | solve [auto with readonly] ].

Lemma readonly_isGitRepo : readonly GitWrapper.isGitRepo.
Proof. unfold GitWrapper.isGitRepo. readonly. Qed.

Lemma readonly_getStatus : readonly GitWrapper.getStatus.
Proof. unfold GitWrapper.getStatus. readonly. Qed.

Lemma readonly_getRecentCommits n : readonly (GitWrapper.getRecentCommits n).
Proof. unfold GitWrapper.getRecentCommits. readonly. Qed.

#[export] Hint Resolve readonly_isGitRepo readonly_getStatus readonly_getRecentCommits : readonly.

Lemma readonly_getLastCommit : readonly GitWrapper.getLastCommit.
Proof. unfold GitWrapper.getLastCommit. readonly. Qed.

Lemma readonly_getCurrentBranch : readonly GitWrapper.getCurrentBranch.
Proof. unfold GitWrapper.getCurrentBranch. readonly. Qed.

Lemma readonly_getBranches : readonly GitWrapper.getBranches.
Proof. unfold GitWrapper.getBranches. readonly. Qed.

Lemma readonly_getReflog n : readonly (GitWrapper.getReflog n).
Proof. unfold GitWrapper.getReflog. readonly. Qed.

Lemma readonly_getHeadHash : readonly GitWrapper.getHeadHash.
Proof. unfold GitWrapper.getHeadHash. readonly. Qed.

Lemma readonly_hasUncommittedChanges : readonly GitWrapper.hasUncommittedChanges.
Proof. unfold GitWrapper.hasUncommittedChanges. readonly. Qed.

Lemma readonly_hasStagedChanges : readonly GitWrapper.hasStagedChanges.
Proof. unfold GitWrapper.hasStagedChanges. readonly. Qed.

Lemma readonly_hasRemote : readonly GitWrapper.hasRemote.
Proof. unfold GitWrapper.hasRemote. readonly. Qed.

Lemma readonly_isPushed h : readonly (GitWrapper.isPushed h).
Proof. unfold GitWrapper.isPushed. readonly. Qed.

Lemma readonly_isDetachedHead : readonly GitWrapper.isDetachedHead.
Proof. unfold GitWrapper.isDetachedHead. readonly. Qed.

Lemma readonly_getOngoingOperation : readonly GitWrapper.getOngoingOperation.
Proof. unfold GitWrapper.getOngoingOperation. readonly. Qed.

Lemma readonly_getStashList : readonly GitWrapper.getStashList.
Proof. unfold GitWrapper.getStashList. readonly. Qed.

Lemma readonly_getConflictedFiles : readonly GitWrapper.getConflictedFiles.
Proof. unfold GitWrapper.getConflictedFiles. readonly. Qed.

#[export] Hint Resolve readonly_getLastCommit readonly_getCurrentBranch
  readonly_getBranches readonly_getReflog readonly_getHeadHash
  readonly_hasUncommittedChanges readonly_hasStagedChanges readonly_hasRemote
  readonly_isPushed readonly_isDetachedHead readonly_getOngoingOperation
  readonly_getStashList readonly_getConflictedFiles : readonly.

(** ** detectIssues *)

Lemma has_code_app c l1 l2 : has_code c (l1 ++ l2) ↔ has_code c l1 ∨ has_code c l2.
Proof.
  unfold has_code. split.
  - intros (i & Hi & Hc). apply elem_of_app in Hi as [Hi|Hi]; eauto.
  - intros [(i & Hi & Hc)|(i & Hi & Hc)]; exists i; rewrite elem_of_app; eauto.
Qed.

Lemma has_code_nil c : has_code c [] ↔ False.
Proof. unfold has_code. split; [|tauto]. intros (i & Hi & _). inversion Hi. Qed.

Lemma has_code_singleton c i : has_code c [i] ↔ RepoIssue.code i = c.
Proof.
  unfold has_code. split.
  - intros (j & Hj & Hc). apply list_elem_of_singleton in Hj. congruence.
  - intros Hc. exists i. split; [apply list_elem_of_singleton; reflexivity|exact Hc].
Qed.

Lemma has_code_push_if c b i :
  has_code c (StateDetector.push_if b i) ↔ b = true ∧ RepoIssue.code i = c.
Proof.
  destruct b; simpl.
  - rewrite has_code_singleton. tauto.
  - rewrite has_code_nil. split; [tauto|]. intros [? _]. discriminate.
Qed.

Lemma with_code_app c l1 l2 : with_code c (l1 ++ l2) = (with_code c l1 ++ with_code c l2)%list.
Proof. apply filter_app. Qed.

Lemma with_code_push_if_ne c b i :
  RepoIssue.code i ≠ c → with_code c (StateDetector.push_if b i) = [].
Proof.
  intros Hne. destruct b; [|reflexivity].
  unfold with_code; simpl. rewrite filter_cons. destruct (decide _); [contradiction|reflexivity].
Qed.

(** C4. An issue with code HAS_CONFLICTS is produced exactly when conflicted
    files are present and no operation is ongoing; during a merge with
    conflicted files the only ONGOING_OPERATION issue is the warning whose
    suggestion names the number of conflicts, and no HAS_CONFLICTS issue
    appears. *)
Theorem detectIssues_has_conflicts_iff (context : DetectionContext.t) :
  let issues := StateDetector.detectIssues context in
  let n := length (DetectionContext.conflictedFiles context) in
  (has_code "HAS_CONFLICTS" issues ↔
     0 < n ∧ DetectionContext.ongoingOperation context = None) ∧
  (DetectionContext.ongoingOperation context = Some merge → 0 < n →
     with_code "ONGOING_OPERATION" issues = [mergeConflictWarning n] ∧
     ¬ has_code "HAS_CONFLICTS" issues).
Proof.
  intros issues n.
  assert (Hiff : has_code "HAS_CONFLICTS" issues ↔
                 0 < n ∧ DetectionContext.ongoingOperation context = None).
  { subst issues n. unfold StateDetector.detectIssues.
    rewrite !has_code_app, !has_code_push_if. simpl.
    destruct (DetectionContext.ongoingOperation context) as [op|] eqn:Hop.
    - rewrite has_code_singleton. simpl. split.
      + intros [[_ ?]|[?|[[H _]|[[_ ?]|[[_ ?]|[[_ ?]|[[_ ?]|[_ ?]]]]]]]];
          try discriminate.
        rewrite andb_false_r in H. discriminate.
      + intros [_ ?]. discriminate.
    - rewrite has_code_nil. split.
      + intros [[_ ?]|[?|[[H _]|[[_ ?]|[[_ ?]|[[_ ?]|[[_ ?]|[_ ?]]]]]]]];
          try discriminate; try contradiction.
        rewrite andb_true_r in H. apply Nat.ltb_lt in H. auto.
      + intros [Hn _]. right. right. left. split; [|reflexivity].
        rewrite andb_true_r. apply Nat.ltb_lt. exact Hn. }
  split; [exact Hiff|].
  intros Hop Hn. split.
  - subst issues. unfold StateDetector.detectIssues.
    rewrite !with_code_app, !with_code_push_if_ne by (simpl; discriminate).
    rewrite Hop. fold n. apply Nat.ltb_lt in Hn. rewrite Hn. reflexivity.
  - rewrite Hiff. intros [_ Hnone]. congruence.
Qed.

Example detectIssues_merge_two_conflicts :
  RepoIssue.code <$> StateDetector.detectIssues
    {| DetectionContext.currentBranch := Some "main";
       DetectionContext.hasUncommittedChanges := false;
       DetectionContext.hasStagedChanges := false;
       DetectionContext.hasRemote := true;
       DetectionContext.lastCommit := Some (CommitInfo.mk "c1" "first" "alice" "2024-01-01");
       DetectionContext.status := None;
       DetectionContext.isDetachedHead := false;
       DetectionContext.ongoingOperation := Some merge;
       DetectionContext.conflictedFiles := ["a.txt"; "b.txt"] |}
  = ["ONGOING_OPERATION"].
Proof. reflexivity. Qed.

(** ** The object store *)

Lemma lookup_commit_cons_eq c rest :
  Git.lookup_commit (c :: rest) (Git.hash c) = Some c.
Proof. unfold Git.lookup_commit. simpl. rewrite bool_decide_eq_true_2; reflexivity. Qed.

Lemma lookup_commit_cons_ne c rest h :
  Git.hash c ≠ h → Git.lookup_commit (c :: rest) h = Git.lookup_commit rest h.
Proof.
  intros Hne. unfold Git.lookup_commit. simpl.
  rewrite bool_decide_eq_false_2; [reflexivity|exact Hne].
Qed.

Lemma lookup_commit_Some objs h c :
  Git.lookup_commit objs h = Some c → Git.hash c = h ∧ c ∈ objs.
Proof.
  unfold Git.lookup_commit. intros H. apply List.find_some in H as [Hin Hd].
  apply bool_decide_eq_true in Hd. split; [exact Hd|]. apply list_elem_of_In. exact Hin.
Qed.

Lemma lookup_commit_hashes objs h c :
  Git.lookup_commit objs h = Some c → h ∈ Git.hashes objs.
Proof.
  intros H. apply lookup_commit_Some in H as [<- Hin].
  unfold Git.hashes. apply list_elem_of_fmap. eauto.
Qed.

Lemma hashes_lookup_commit objs h :
  h ∈ Git.hashes objs → is_Some (Git.lookup_commit objs h).
Proof.
  induction objs as [|c rest IH]; intros Hin.
  - inversion Hin.
  - destruct (decide (Git.hash c = h)) as [<-|Hne].
    + rewrite lookup_commit_cons_eq. eauto.
    + rewrite lookup_commit_cons_ne by exact Hne. apply IH.
      unfold Git.hashes in Hin. simpl in Hin. apply elem_of_cons in Hin as [->|Hin];
        [contradiction|exact Hin].
Qed.

Lemma wf_store_parents objs h c p :
  Git.wf_store objs → Git.lookup_commit objs h = Some c → p ∈ Git.parents c →
  p ∈ Git.hashes objs.
Proof.
  induction objs as [|c0 rest IH]; intros Hwf Hl Hp.
  - discriminate.
  - destruct Hwf as (_ & Hfresh & Hpar & Hwf).
    unfold Git.hashes. simpl. apply elem_of_cons. right.
    destruct (decide (Git.hash c0 = h)) as [<-|Hne].
    + rewrite lookup_commit_cons_eq in Hl. injection Hl as <-. apply Hpar, Hp.
    + rewrite lookup_commit_cons_ne in Hl by exact Hne. eapply IH; eauto.
Qed.

Lemma wf_store_hash_nonempty objs h :
  Git.wf_store objs → h ∈ Git.hashes objs → h ≠ EmptyString.
Proof.
  induction objs as [|c rest IH]; intros Hwf Hin.
  - inversion Hin.
  - destruct Hwf as (Hne & _ & _ & Hwf).
    unfold Git.hashes in Hin. simpl in Hin. apply elem_of_cons in Hin as [->|Hin]; auto.
Qed.

Lemma Reach_source objs a b : Reach objs a b → a ∈ Git.hashes objs.
Proof. intros H. destruct H; eapply lookup_commit_hashes; eauto. Qed.

Lemma Reach_target objs a b : Reach objs a b → b ∈ Git.hashes objs.
Proof. induction 1; [eapply lookup_commit_hashes; eauto|assumption]. Qed.

(** Below the newest commit, reachability does not see that commit. *)
Lemma Reach_cons c rest t h :
  Git.wf_store (c :: rest) → t ∈ Git.hashes rest →
  Reach (c :: rest) t h ↔ Reach rest t h.
Proof.
  intros (_ & Hfresh & _ & Hwf).
  assert (Hne : ∀ x, x ∈ Git.hashes rest → Git.hash c ≠ x) by (intros x Hx Heq; subst x; auto).
  intros Ht. split.
  - intros H. induction H as [h c0 Hl|a c0 p b Hl Hp _ IH].
    + rewrite lookup_commit_cons_ne in Hl by auto. econstructor; eauto.
    + rewrite lookup_commit_cons_ne in Hl by auto.
      eapply Reach_parent; eauto. apply IH. eapply wf_store_parents; eauto.
  - intros H. induction H as [h c0 Hl|a c0 p b Hl Hp _ IH].
    + eapply Reach_here. rewrite lookup_commit_cons_ne by auto. eauto.
    + eapply Reach_parent; eauto.
      * rewrite lookup_commit_cons_ne by auto. eauto.
      * apply IH. eapply wf_store_parents; eauto.
Qed.

Lemma Reach_head_inv c rest h :
  Reach (c :: rest) (Git.hash c) h →
  h = Git.hash c ∨ ∃ p, p ∈ Git.parents c ∧ Reach (c :: rest) p h.
Proof.
  intros H. inversion H as [h0 c0 Hl|a c0 p b Hl Hp Hr]; subst.
  - left; reflexivity.
  - rewrite lookup_commit_cons_eq in Hl. injection Hl as <-. right. eauto.
Qed.

Lemma Reach_cons_down c rest t h :
  Git.wf_store (c :: rest) → t ≠ Git.hash c →
  Reach (c :: rest) t h → Reach rest t h.
Proof.
  intros Hwf Hne H. apply (Reach_cons c rest t h Hwf); [|exact H].
  apply Reach_source in H. unfold Git.hashes in H. simpl in H.
  apply elem_of_cons in H as [->|H]; [contradiction|exact H].
Qed.

Lemma Reach_cons_up c rest t h :
  Git.wf_store (c :: rest) → Reach rest t h → Reach (c :: rest) t h.
Proof.
  intros Hwf H. apply (Reach_cons c rest t h Hwf); [|exact H].
  eapply Reach_source; eauto.
Qed.

(** [Git.reach] computes reachability. *)
Lemma reach_Reach objs want h :
  Git.wf_store objs →
  h ∈ Git.hashes (Git.reach objs want) ↔ ∃ t, t ∈ want ∧ Reach objs t h.
Proof.
  revert want. induction objs as [|c rest IH]; intros want Hwf.
  - simpl. split.
    + intros H. inversion H.
    + intros (t & _ & H). apply Reach_source in H. inversion H.
  - pose proof Hwf as (_ & Hfresh & Hpar & Hwf').
    simpl. destruct (bool_decide (Git.hash c ∈ want)) eqn:Hc.
    + apply bool_decide_eq_true in Hc. unfold Git.hashes. simpl.
      rewrite elem_of_cons. fold (Git.hashes (Git.reach rest (Git.parents c ++ want))).
      rewrite IH by exact Hwf'. split.
      * intros [->|(t & Ht & Hr)].
        -- exists (Git.hash c). split; [exact Hc|]. eapply Reach_here, lookup_commit_cons_eq.
        -- apply elem_of_app in Ht as [Ht|Ht].
           ++ exists (Git.hash c). split; [exact Hc|].
              eapply Reach_parent; [apply lookup_commit_cons_eq|exact Ht|].
              apply Reach_cons_up; auto.
           ++ exists t. split; [exact Ht|]. apply Reach_cons_up; auto.
      * intros (t & Ht & Hr). destruct (decide (t = Git.hash c)) as [->|Hne].
        -- apply Reach_head_inv in Hr as [->|(p & Hp & Hr)]; [left; reflexivity|].
           right. exists p. split; [apply elem_of_app; left; exact Hp|].
           apply Reach_cons_down in Hr; auto.
           intros ->. apply Hfresh, Hpar, Hp.
        -- right. exists t. split; [apply elem_of_app; right; exact Ht|].
           apply Reach_cons_down in Hr; auto.
    + apply bool_decide_eq_false in Hc. rewrite IH by exact Hwf'. split.
      * intros (t & Ht & Hr). exists t. split; [exact Ht|].
        apply Reach_cons_up; auto.
      * intros (t & Ht & Hr). exists t. split; [exact Ht|].
        apply Reach_cons_down in Hr; auto. intros ->; contradiction.
Qed.

Lemma contains_Reach objs tip h :
  Git.wf_store objs → Git.contains objs tip h = true ↔ Reach objs tip h.
Proof.
  intros Hwf. unfold Git.contains. rewrite bool_decide_eq_true, reach_Reach by exact Hwf.
  split.
  - intros (t & Ht & Hr). apply list_elem_of_singleton in Ht. subst. exact Hr.
  - intros Hr. exists tip. split; [apply list_elem_of_singleton; reflexivity|exact Hr].
Qed.

Lemma reach_subset objs want c : c ∈ Git.reach objs want → c ∈ objs.
Proof.
  revert want. induction objs as [|c0 rest IH]; intros want; simpl.
  - intros H; inversion H.
  - destruct (bool_decide _).
    + rewrite !elem_of_cons. intros [->|H]; eauto.
    + rewrite elem_of_cons. eauto.
Qed.

(** ** Read accessors *)

Lemma run_readonly {A} (m : M A) w : readonly m → run m w = (value m w, w).
Proof. intros H. unfold value. specialize (H w). destruct (run m w); simpl in *; congruence. Qed.

Lemma getStatus_run w r :
  repo w = Some r → faults w Git.Status = false →
  run GitWrapper.getStatus w = (Ok (status_of r), w).
Proof. intros Hr Hf. unfold GitWrapper.getStatus. rewrite run_git, Hr, Hf. reflexivity. Qed.

Lemma hasUncommittedChanges_run w r :
  repo w = Some r → faults w Git.Status = false →
  run GitWrapper.hasUncommittedChanges w =
  (Ok ((0 <? length (Git.staged r)) || (0 <? length (Git.modified r))), w).
Proof.
  intros Hr Hf. unfold GitWrapper.hasUncommittedChanges.
  rewrite run_bind, (getStatus_run w r Hr Hf). reflexivity.
Qed.

Lemma nonempty_length {A} (l : list A) : (0 <? length l) = true ↔ l ≠ [].
Proof.
  destruct l; split.
  - discriminate.
  - intros H. contradiction.
  - intros _ H. discriminate.
  - reflexivity.
Qed.

Lemma getRecentCommits_run w r n :
  repo w = Some r → faults w (Git.Log n) = false →
  run (GitWrapper.getRecentCommits n) w = (Ok (candidates r n), w).
Proof.
  intros Hr Hf. unfold GitWrapper.getRecentCommits, candidates.
  rewrite run_catch, run_bind, run_git, Hr, Hf. unfold Git.log, Git.history.
  destruct (Git.HEAD r); simpl; [reflexivity|].
  destruct n; cbn; rewrite ?take_nil; reflexivity.
Qed.

Lemma getHeadHash_run w r h :
  repo w = Some r → faults w Git.RevParseHead = false → Git.HEAD r = Some h →
  run GitWrapper.getHeadHash w = (Ok h, w).
Proof. intros Hr Hf Hh. unfold GitWrapper.getHeadHash. rewrite run_git, Hr, Hf, Hh. reflexivity. Qed.

Lemma getCurrentBranch_total w :
  ∃ b, run GitWrapper.getCurrentBranch w = (Ok b, w).
Proof.
  unfold GitWrapper.getCurrentBranch. rewrite run_catch, run_bind, run_git.
  destruct (repo w) as [r|]; [|eauto].
  destruct (faults w _); [eauto|]. destruct (GitWrapper.abbrev_ref r); eauto.
Qed.

Lemma isGitRepo_run w r :
  repo w = Some r → faults w Git.RevParseGitDir = false →
  run GitWrapper.isGitRepo w = (Ok true, w).
Proof.
  intros Hr Hf. unfold GitWrapper.isGitRepo.
  rewrite run_catch, run_bind, run_git, Hr, Hf. reflexivity.
Qed.

Lemma isPushed_total h w : ∃ b, run (GitWrapper.isPushed h) w = (Ok b, w).
Proof.
  unfold GitWrapper.isPushed. rewrite run_catch.
  match goal with |- context [run ?m w] =>
    assert (Hro : readonly m) by readonly; rewrite (run_readonly m w Hro);
    destruct (value m w) end; eauto.
Qed.

Lemma isPushed_run h w : run (GitWrapper.isPushed h) w = (Ok (pushedb w h), w).
Proof.
  destruct (isPushed_total h w) as [b Hb]. unfold pushedb, value. rewrite Hb. reflexivity.
Qed.

Lemma pushedb_spec w r h :
  repo w = Some r → faults w Git.Status = false →
  faults w (Git.BranchRemoteContains h) = false →
  pushedb w h =
  Js.truthy_opt (Git.tracking r) &&
  match Git.branch_remote_contains h r with
  | Ok l => 0 <? length l
  | Throw _ => false
  end.
Proof.
  intros Hr Hs Hb. unfold pushedb, value, GitWrapper.isPushed.
  rewrite run_catch, run_bind, (getStatus_run w r Hr Hs). simpl.
  destruct (Js.truthy_opt (Git.tracking r)); simpl; [|reflexivity].
  rewrite run_bind, run_git, Hr, Hb.
  destruct (Git.branch_remote_contains h r); reflexivity.
Qed.

Lemma truthy_opt_has_upstream r :
  Js.truthy_opt (Git.tracking r) = true ↔ has_upstream r.
Proof.
  unfold has_upstream, Js.truthy_opt, Js.truthy. destruct (Git.tracking r) as [t|].
  - rewrite negb_true_iff, bool_decide_eq_false. split.
    + intros H. eauto.
    + intros (t' & [= <-] & H). exact H.
  - split; [discriminate|]. intros (t' & [=] & _).
Qed.

Lemma branch_remote_contains_nonempty r h :
  Git.wf_store (Git.objects r) →
  match Git.branch_remote_contains h r with
  | Ok l => 0 <? length l
  | Throw _ => false
  end = true ↔ reachable_from_remote r h.
Proof.
  intros Hwf. unfold Git.branch_remote_contains, reachable_from_remote.
  destruct (Git.lookup_commit (Git.objects r) h) as [c|] eqn:Hl.
  - rewrite length_fmap, nonempty_length. split.
    + intros Hne.
      destruct (List.filter _ _) as [|ref l] eqn:Hf; [contradiction|].
      assert (Hin : List.In ref (List.filter
                (λ ref, Git.contains (Git.objects r) ref.2 h) (Git.remote_refs r)))
        by (rewrite Hf; left; reflexivity).
      apply List.filter_In in Hin as [Hin Hc]. exists ref. split.
      * apply list_elem_of_In. exact Hin.
      * apply contains_Reach; assumption.
    + intros (ref & Hin & Hreach) Hnil.
      assert (Hin' : List.In ref (List.filter
                (λ ref, Git.contains (Git.objects r) ref.2 h) (Git.remote_refs r))).
      { apply List.filter_In. split; [apply list_elem_of_In; exact Hin|].
        apply contains_Reach; assumption. }
      rewrite Hnil in Hin'. destruct Hin'.
  - split; [discriminate|]. intros (ref & _ & Hreach).
    apply Reach_target, hashes_lookup_commit in Hreach. rewrite Hl in Hreach.
    destruct Hreach; discriminate.
Qed.

Lemma wf_storeb_sound objs : wf_storeb objs = true → Git.wf_store objs.
Proof.
  induction objs as [|c rest IH]; simpl; [tauto|].
  rewrite !andb_true_iff, !negb_true_iff, !bool_decide_eq_false.
  intros [[[Hne Hfresh] Hpar] Hwf]. repeat split; auto.
  intros p Hp. rewrite forallb_forall in Hpar.
  apply list_elem_of_In, Hpar, bool_decide_eq_true in Hp. exact Hp.
Qed.

Lemma three_commits_wf : Git.wf_store Samples.three_commits.
Proof. apply wf_storeb_sound. reflexivity. Qed.

Lemma samples_healthy r j c : healthy (Samples.world_with r j c).
Proof. intros cmd. reflexivity. Qed.

(** ** isPushed *)

(** C2, as amended. [isPushed] answers, and it answers true exactly when
    the current branch has an upstream and the commit is reachable from at
    least one remote-tracking reference. *)
Theorem isPushed_iff_upstream_and_reachable w r h :
  repo w = Some r → healthy w → Git.wf_store (Git.objects r) →
  ∃ b, run (GitWrapper.isPushed h) w = (Ok b, w) ∧
       (b = true ↔ has_upstream r ∧ reachable_from_remote r h).
Proof.
  intros Hr Hh Hwf. exists (pushedb w h). split; [apply isPushed_run|].
  rewrite (pushedb_spec w r h Hr (Hh _) (Hh _)), andb_true_iff.
  rewrite truthy_opt_has_upstream, branch_remote_contains_nonempty by exact Hwf.
  reflexivity.
Qed.

Lemma isPushed_iff_upstream_and_reachable_witness :
  let w := Samples.world_of Samples.tracked_repo in
  let r := Samples.tracked_repo in
  repo w = Some r ∧ healthy w ∧ Git.wf_store (Git.objects r) ∧
  ∃ b, run (GitWrapper.isPushed "c1") w = (Ok b, w) ∧
       (b = true ↔ has_upstream r ∧ reachable_from_remote r "c1").
Proof.
  intros w r.
  assert (Hr : repo w = Some r) by reflexivity.
  assert (Hh : healthy w) by (intros cmd; reflexivity).
  assert (Hwf : Git.wf_store (Git.objects r)) by (apply wf_storeb_sound; reflexivity).
  split; [exact Hr|]. split; [exact Hh|]. split; [exact Hwf|].
  apply (isPushed_iff_upstream_and_reachable w r "c1" Hr Hh Hwf).
Defined.

Example isPushed_tracked_c1 :
  value (GitWrapper.isPushed "c1") (Samples.world_of Samples.tracked_repo) = Ok true.
Proof. reflexivity. Qed.

Example isPushed_tracked_c3 :
  value (GitWrapper.isPushed "c3") (Samples.world_of Samples.tracked_repo) = Ok false.
Proof. reflexivity. Qed.

(** C2, counterexample. A commit reachable from [origin/main] is reported
    as not pushed when the current branch has no upstream. *)
Lemma isPushed_no_upstream_counterexample :
  reachable_from_remote Samples.untracked_branch_repo "c2" ∧
  run (GitWrapper.isPushed "c2") (Samples.world_of Samples.untracked_branch_repo)
  = (Ok false, Samples.world_of Samples.untracked_branch_repo).
Proof.
  split; [|reflexivity].
  exists ("origin/main", "c2"). split.
  - apply list_elem_of_singleton. reflexivity.
  - eapply Reach_here. reflexivity.
Qed.

(** ** checkBeforeReset *)

Lemma pushedLoop_run commits warnings w :
  run (SafetyChecks.pushedLoop commits warnings) w =
  (Ok (warnings ++ pushedWarnings w commits)%list, w).
Proof.
  revert warnings. induction commits as [|c commits IH]; intros warnings; simpl.
  - rewrite run_ret. unfold pushedWarnings. simpl. rewrite app_nil_r. reflexivity.
  - rewrite run_bind, isPushed_run, IH. unfold pushedWarnings. simpl.
    destruct (pushedb w (CommitInfo.hash c)); simpl; [|reflexivity].
    rewrite <- app_assoc. reflexivity.
Qed.

Lemma checkBeforeReset_run mode n w r :
  repo w = Some r → faults w (Git.Log n) = false → faults w Git.Status = false →
  run (SafetyChecks.checkBeforeReset mode n) w =
  (Ok {| SafetyCheckResult.safe := negb (length (candidates r n) <? n);
         SafetyCheckResult.warnings :=
           (discardWarnings mode r ++ pushedWarnings w (candidates r n))%list;
         SafetyCheckResult.blockers :=
           if length (candidates r n) <? n
           then [SafetyChecks.blockerTooFew (length (candidates r n)) n] else [] |}, w).
Proof.
  intros Hr Hlog Hst. unfold SafetyChecks.checkBeforeReset.
  rewrite run_bind, (getRecentCommits_run w r n Hr Hlog), run_bind.
  assert (Hpre : run match mode with
                     | Git.Hard =>
                         hasChanges <- GitWrapper.hasUncommittedChanges ;;
                         ret (if hasChanges then [SafetyChecks.warnDiscard] else [])
                     | _ => ret []
                     end w = (Ok (discardWarnings mode r), w)).
  { destruct mode; try reflexivity.
    rewrite run_bind, (hasUncommittedChanges_run w r Hr Hst). reflexivity. }
  rewrite Hpre, run_bind, pushedLoop_run, run_ret.
  destruct (length (candidates r n) <? n); reflexivity.
Qed.

Lemma length_candidates r n :
  length (candidates r n) =
  match n with
  | 0 => Git.commit_count r
  | S _ => Nat.min n (Git.commit_count r)
  end.
Proof.
  unfold candidates, Git.commit_count. rewrite length_fmap.
  destruct n; cbn [Git.max_count]; [reflexivity|apply length_take].
Qed.

Lemma few_candidates r n :
  (length (candidates r n) <? n) = (Git.commit_count r <? n).
Proof.
  rewrite length_candidates. destruct n as [|n].
  - rewrite !(proj2 (Nat.ltb_ge _ 0)) by lia. reflexivity.
  - destruct (Git.commit_count r <? S n) eqn:E.
    + apply Nat.ltb_lt in E. apply Nat.ltb_lt. lia.
    + apply Nat.ltb_ge in E. apply Nat.ltb_ge. lia.
Qed.

Lemma warnPushed_not_warnDiscard c : SafetyChecks.warnPushed c ≠ SafetyChecks.warnDiscard.
Proof. unfold SafetyChecks.warnPushed, SafetyChecks.warnDiscard. simpl. discriminate. Qed.

Lemma warnDiscard_not_pushed w commits : SafetyChecks.warnDiscard ∉ pushedWarnings w commits.
Proof.
  unfold pushedWarnings. intros H. apply list_elem_of_fmap in H as (c & Hc & _).
  symmetry in Hc. exact (warnPushed_not_warnDiscard c Hc).
Qed.

(** C5, as amended. In a repository where git answers, [checkBeforeReset]
    returns a result that is safe exactly when it has no blocker, and it has
    a blocker exactly when fewer than [n] commits exist; the discard
    warning is present exactly in hard mode with staged or modified files;
    and the remaining warnings are one per candidate commit that [isPushed]
    reports, in order and without deduplication. [isPushed] reports a
    commit exactly when the current branch has an upstream and the commit
    is reachable from a remote-tracking reference. *)
Theorem checkBeforeReset_blockers_and_warnings mode n w r :
  repo w = Some r → healthy w → Git.wf_store (Git.objects r) →
  ∃ res, run (SafetyChecks.checkBeforeReset mode n) w = (Ok res, w) ∧
    (SafetyCheckResult.safe res = true ↔ SafetyCheckResult.blockers res = []) ∧
    (SafetyCheckResult.blockers res ≠ [] ↔ Git.commit_count r < n) ∧
    (Git.commit_count r < n →
       SafetyCheckResult.blockers res ≠ [] ∧ SafetyCheckResult.safe res = false) ∧
    (SafetyChecks.warnDiscard ∈ SafetyCheckResult.warnings res ↔
       mode = Git.Hard ∧ (Git.staged r ≠ [] ∨ Git.modified r ≠ [])) ∧
    (∃ discard, (discard = [] ∨ discard = [SafetyChecks.warnDiscard]) ∧
       SafetyCheckResult.warnings res =
       (discard ++ (SafetyChecks.warnPushed <$>
                     List.filter (λ c, pushedb w (CommitInfo.hash c)) (candidates r n)))%list) ∧
    (∀ h, pushedb w h = true ↔ has_upstream r ∧ reachable_from_remote r h).
Proof.
  intros Hr Hh Hwf. eexists. split; [apply (checkBeforeReset_run mode n w r Hr (Hh _) (Hh _))|].
  assert (Hfew : (length (candidates r n) <? n) = true ↔ Git.commit_count r < n).
  { rewrite Nat.ltb_lt, length_candidates. destruct n; lia. }
  simpl. split; [|split; [|split; [|split; [|split]]]].
  - destruct (length (candidates r n) <? n); simpl; split; congruence.
  - rewrite <- Hfew. destruct (length (candidates r n) <? n); split; congruence.
  - intros Hlt. apply Hfew in Hlt. rewrite Hlt. split; [discriminate|reflexivity].
  - rewrite elem_of_app. split.
    + intros [Hin|Hin]; [|destruct (warnDiscard_not_pushed w _ Hin)].
      unfold discardWarnings in Hin. destruct mode; try (apply elem_of_nil in Hin; tauto).
      split; [reflexivity|].
      destruct (_ || _) eqn:E; [|apply elem_of_nil in Hin; tauto].
      apply orb_true_iff in E. rewrite !nonempty_length in E. exact E.
    + intros [-> Hdirty]. left. unfold discardWarnings.
      assert (Hb : (0 <? length (Git.staged r)) || (0 <? length (Git.modified r)) = true).
      { apply orb_true_iff. rewrite !nonempty_length. exact Hdirty. }
      rewrite Hb. apply list_elem_of_singleton. reflexivity.
  - exists (discardWarnings mode r). split; [|reflexivity].
    unfold discardWarnings. destruct mode; auto. destruct (_ || _); auto.
  - intros h. rewrite (pushedb_spec w r h Hr (Hh _) (Hh _)), andb_true_iff.
    rewrite truthy_opt_has_upstream, branch_remote_contains_nonempty by exact Hwf.
    reflexivity.
Qed.

Lemma checkBeforeReset_blockers_and_warnings_witness :
  let w := Samples.world_of Samples.dirty_repo in
  let r := Samples.dirty_repo in
  repo w = Some r ∧ healthy w ∧ Git.wf_store (Git.objects r) ∧
  ∃ res, run (SafetyChecks.checkBeforeReset Git.Hard 4) w = (Ok res, w) ∧
    (SafetyCheckResult.safe res = true ↔ SafetyCheckResult.blockers res = []) ∧
    (SafetyCheckResult.blockers res ≠ [] ↔ Git.commit_count r < 4) ∧
    (Git.commit_count r < 4 →
       SafetyCheckResult.blockers res ≠ [] ∧ SafetyCheckResult.safe res = false) ∧
    (SafetyChecks.warnDiscard ∈ SafetyCheckResult.warnings res ↔
       Git.Hard = Git.Hard ∧ (Git.staged r ≠ [] ∨ Git.modified r ≠ [])) ∧
    (∃ discard, (discard = [] ∨ discard = [SafetyChecks.warnDiscard]) ∧
       SafetyCheckResult.warnings res =
       (discard ++ (SafetyChecks.warnPushed <$>
                     List.filter (λ c, pushedb w (CommitInfo.hash c)) (candidates r 4)))%list) ∧
    (∀ h, pushedb w h = true ↔ has_upstream r ∧ reachable_from_remote r h).
Proof.
  intros w r.
  assert (Hr : repo w = Some r) by reflexivity.
  assert (Hh : healthy w) by (intros cmd; reflexivity).
  assert (Hwf : Git.wf_store (Git.objects r)) by (apply wf_storeb_sound; reflexivity).
  split; [exact Hr|]. split; [exact Hh|]. split; [exact Hwf|].
  apply (checkBeforeReset_blockers_and_warnings Git.Hard 4 w r Hr Hh Hwf).
Defined.

(** C5, counterexample. The current branch has no upstream; of the two
    candidate commits, [c2] is reachable from [origin/main], yet the check
    returns no warning. *)
Lemma checkBeforeReset_no_upstream_counterexample :
  let r := Samples.untracked_branch_repo in
  CommitInfo.hash <$> candidates r 2 = ["c3"; "c2"] ∧
  reachable_from_remote r "c2" ∧
  run (SafetyChecks.checkBeforeReset Git.Soft 2) (Samples.world_of r)
  = (Ok {| SafetyCheckResult.safe := true;
           SafetyCheckResult.warnings := [];
           SafetyCheckResult.blockers := [] |}, Samples.world_of r).
Proof.
  split; [reflexivity|]. split; [|reflexivity].
  exists ("origin/main", "c2"). split.
  - apply list_elem_of_singleton. reflexivity.
  - eapply Reach_here. reflexivity.
Qed.

(** With a count of 0 the whole history is examined. *)
Example checkBeforeReset_count_zero :
  value (SafetyChecks.checkBeforeReset Git.Soft 0) (Samples.world_of Samples.tracked_repo) =
  Ok {| SafetyCheckResult.safe := true;
        SafetyCheckResult.warnings :=
          [ "Commit " +:+ Js.quote +:+ "second" +:+ Js.quote
              +:+ " has been pushed. Undoing will require force push.";
            "Commit " +:+ Js.quote +:+ "first" +:+ Js.quote
              +:+ " has been pushed. Undoing will require force push." ];
        SafetyCheckResult.blockers := [] |}.
Proof. reflexivity. Qed.

Example checkBeforeReset_dirty_hard_four :
  value (SafetyChecks.checkBeforeReset Git.Hard 4) (Samples.world_of Samples.dirty_repo) =
  Ok {| SafetyCheckResult.safe := false;
        SafetyCheckResult.warnings :=
          [ "Hard reset will discard all uncommitted changes";
            "Commit " +:+ Js.quote +:+ "second" +:+ Js.quote
              +:+ " has been pushed. Undoing will require force push.";
            "Commit " +:+ Js.quote +:+ "first" +:+ Js.quote
              +:+ " has been pushed. Undoing will require force push." ];
        SafetyCheckResult.blockers := ["Only 3 commits available, cannot undo 4"] |}.
Proof. reflexivity. Qed.

(** ** hasUncommittedChanges *)

(** C10. [hasUncommittedChanges] answers true exactly when the staged list
    or the modified list of the status is non-empty, whatever the untracked
    list holds; with both lists empty a hard reset check carries no discard
    warning. *)
Theorem hasUncommittedChanges_ignores_untracked w r :
  repo w = Some r → healthy w →
  (∃ b, run GitWrapper.hasUncommittedChanges w = (Ok b, w) ∧
        (b = true ↔ Git.staged r ≠ [] ∨ Git.modified r ≠ [])) ∧
  (Git.staged r = [] → Git.modified r = [] →
   ∀ n, ∃ res, run (SafetyChecks.checkBeforeReset Git.Hard n) w = (Ok res, w) ∧
               SafetyChecks.warnDiscard ∉ SafetyCheckResult.warnings res).
Proof.
  intros Hr Hh. split.
  - eexists. split; [apply (hasUncommittedChanges_run w r Hr (Hh _))|].
    rewrite orb_true_iff, !nonempty_length. reflexivity.
  - intros Hs Hm n. eexists.
    split; [apply (checkBeforeReset_run Git.Hard n w r Hr (Hh _) (Hh _))|].
    simpl. unfold discardWarnings. rewrite Hs, Hm. simpl.
    apply warnDiscard_not_pushed.
Qed.

Lemma hasUncommittedChanges_ignores_untracked_witness :
  let w := Samples.world_of Samples.untracked_files_repo in
  let r := Samples.untracked_files_repo in
  repo w = Some r ∧ healthy w ∧
  Git.untracked r = ["notes.txt"] ∧
  (∃ b, run GitWrapper.hasUncommittedChanges w = (Ok b, w) ∧
        (b = true ↔ Git.staged r ≠ [] ∨ Git.modified r ≠ [])) ∧
  (Git.staged r = [] → Git.modified r = [] →
   ∀ n, ∃ res, run (SafetyChecks.checkBeforeReset Git.Hard n) w = (Ok res, w) ∧
               SafetyChecks.warnDiscard ∉ SafetyCheckResult.warnings res).
Proof.
  intros w r.
  assert (Hr : repo w = Some r) by reflexivity.
  assert (Hh : healthy w) by (intros cmd; reflexivity).
  split; [exact Hr|]. split; [exact Hh|]. split; [reflexivity|].
  apply (hasUncommittedChanges_ignores_untracked w r Hr Hh).
Defined.

Example hasUncommittedChanges_untracked_only :
  value GitWrapper.hasUncommittedChanges (Samples.world_of Samples.untracked_files_repo)
  = Ok false.
Proof. reflexivity. Qed.

(** ** detectRepoState *)

Lemma issued_bind {A B} (m : M A) (k : A → M B) w :
  issued (bind m k) w =
  (issued m w ++ match run m w with
                 | (Ok a, w1) => issued (k a) w1
                 | (Throw _, _) => []
                 end)%list.
Proof.
  unfold issued, run, bind. destruct (m w) as [[[a|e] w1] t1]; simpl.
  - destruct (k a w1) as [rw t2]; reflexivity.
  - rewrite app_nil_r. reflexivity.
Qed.

Lemma issued_catch {A} (m : M A) h w :
  issued (catch m h) w =
  (issued m w ++ match run m w with
                 | (Ok _, _) => []
                 | (Throw e, w1) => issued (h e) w1
                 end)%list.
Proof.
  unfold issued, run, catch. destruct (m w) as [[[a|e] w1] t1]; simpl.
  - rewrite app_nil_r. reflexivity.
  - destruct (h e w1) as [rw t2]; reflexivity.
Qed.

Lemma isGitRepo_value w : run GitWrapper.isGitRepo w = (Ok (is_repository w), w).
Proof.
  unfold GitWrapper.isGitRepo, is_repository.
  rewrite run_catch, run_bind, run_git.
  destruct (repo w); [|reflexivity]. destruct (faults w _); reflexivity.
Qed.

Lemma isGitRepo_issued w : issued GitWrapper.isGitRepo w = [Git.RevParseGitDir].
Proof.
  unfold GitWrapper.isGitRepo. rewrite issued_catch, issued_bind, run_bind, run_git.
  destruct (repo w); [|reflexivity]. destruct (faults w _); reflexivity.
Qed.

Lemma readonly_queryBatch : readonly StateDetector.queryBatch.
Proof. unfold StateDetector.queryBatch. readonly. Qed.

(** C3. [detectRepoState] always returns a state and never throws. Outside
    a repository the state is the default one with the single issue
    NOT_GIT_REPO and the only git command issued is the repository check;
    inside a repository, when the query batch throws, the state is the
    default one with the single issue DETECTION_FAILED, and otherwise the
    state is flagged as a repository. *)
Theorem detectRepoState_never_raises w :
  (∃ s, run StateDetector.detectRepoState w = (Ok s, w)) ∧
  (is_repository w = false →
     run StateDetector.detectRepoState w
       = (Ok (StateDetector.with_issues [StateDetector.notGitRepoIssue]), w) ∧
     issued StateDetector.detectRepoState w = [Git.RevParseGitDir]) ∧
  (is_repository w = true → ∀ e, value StateDetector.queryBatch w = Throw e →
     run StateDetector.detectRepoState w
       = (Ok (StateDetector.with_issues [StateDetector.detectionFailedIssue]), w)) ∧
  (is_repository w = true → ∀ res, value StateDetector.queryBatch w = Ok res →
     ∃ s, run StateDetector.detectRepoState w = (Ok s, w) ∧
          RepoState.isGitRepo s = true) ∧
  (∀ r, repo w = Some r → faults w Git.Status = true →
     ∃ e, value StateDetector.queryBatch w = Throw e).
Proof.
  assert (Hrun : run StateDetector.detectRepoState w =
    if is_repository w
    then match value StateDetector.queryBatch w with
         | Ok res =>
             (Ok (let '(currentBranch, (hasUncommittedChanges, (hasStagedChanges,
                       (hasRemote, (lastCommit, (status, (isDetachedHead,
                       (ongoingOperation, (conflictedFiles, stashList))))))))) := res in
                  {| RepoState.isGitRepo := true;
                     RepoState.currentBranch := currentBranch;
                     RepoState.hasUncommittedChanges := hasUncommittedChanges;
                     RepoState.hasStagedChanges := hasStagedChanges;
                     RepoState.hasRemote := hasRemote;
                     RepoState.lastCommit := lastCommit;
                     RepoState.status := Some status;
                     RepoState.issues := StateDetector.detectIssues
                       {| DetectionContext.currentBranch := currentBranch;
                          DetectionContext.hasUncommittedChanges := hasUncommittedChanges;
                          DetectionContext.hasStagedChanges := hasStagedChanges;
                          DetectionContext.hasRemote := hasRemote;
                          DetectionContext.lastCommit := lastCommit;
                          DetectionContext.status := Some status;
                          DetectionContext.isDetachedHead := isDetachedHead;
                          DetectionContext.ongoingOperation := ongoingOperation;
                          DetectionContext.conflictedFiles := conflictedFiles |};
                     RepoState.isDetachedHead := isDetachedHead;
                     RepoState.ongoingOperation := ongoingOperation;
                     RepoState.hasConflicts := 0 <? length conflictedFiles;
                     RepoState.conflictedFiles := conflictedFiles;
                     RepoState.hasStashes := 0 <? length stashList;
                     RepoState.stashCount := length stashList |}), w)
         | Throw _ =>
             (Ok (StateDetector.with_issues [StateDetector.detectionFailedIssue]), w)
         end
    else (Ok (StateDetector.with_issues [StateDetector.notGitRepoIssue]), w)).
  { unfold StateDetector.detectRepoState.
    rewrite run_catch, run_bind, isGitRepo_value.
    destruct (is_repository w); simpl; [|reflexivity].
    rewrite run_bind, (run_readonly _ w readonly_queryBatch).
    destruct (value StateDetector.queryBatch w) as [res|e]; [|reflexivity].
    destruct res as (?&?&?&?&?&?&?&?&?&?). reflexivity. }
  split; [|split; [|split; [|split]]].
  - rewrite Hrun. destruct (is_repository w); [|eauto].
    destruct (value StateDetector.queryBatch w); eauto.
  - intros Hno. split; [rewrite Hrun, Hno; reflexivity|].
    unfold StateDetector.detectRepoState.
    rewrite issued_catch, issued_bind, run_bind, isGitRepo_value, isGitRepo_issued, Hno.
    reflexivity.
  - intros Hyes e He. rewrite Hrun, Hyes, He. reflexivity.
  - intros Hyes res Hres. rewrite Hrun, Hyes, Hres. eexists. split; [reflexivity|].
    destruct res as (?&?&?&?&?&?&?&?&?&?). reflexivity.
  - intros r Hr Hf. unfold value, StateDetector.queryBatch.
    rewrite run_both.
    destruct (getCurrentBranch_total w) as [b Hb]. rewrite Hb.
    rewrite run_both. unfold GitWrapper.hasUncommittedChanges at 1.
    rewrite run_bind. unfold GitWrapper.getStatus at 1. rewrite run_git, Hr, Hf.
    match goal with |- context [run ?m w] => destruct (run m w) as [r2 w2] end.
    eexists. reflexivity.
Qed.

Example detectRepoState_outside_repository :
  value StateDetector.detectRepoState
    (Samples.world_with None Absent Config.defaultConfig)
  = Ok (StateDetector.with_issues [StateDetector.notGitRepoIssue]).
Proof. reflexivity. Qed.

Example detectRepoState_status_fails :
  value StateDetector.detectRepoState
    (failing_status (Samples.world_of Samples.local_repo))
  = Ok (StateDetector.with_issues [StateDetector.detectionFailedIssue]).
Proof. reflexivity. Qed.

Example detectRepoState_status_fails_issues_all_queries :
  issued StateDetector.detectRepoState
    (failing_status (Samples.world_of Samples.local_repo))
  = [Git.RevParseGitDir; Git.RevParseAbbrevRefHead; Git.Status; Git.Status;
     Git.GetRemotes; Git.Log 1; Git.Status; Git.RevParseAbbrevRefHead;
     Git.RevParseGitDir; Git.DiffUnmerged; Git.StashList].
Proof. reflexivity. Qed.

(** ** Reflog-derived queries *)

Lemma getReflog_run w r n :
  repo w = Some r → faults w (Git.Reflog n) = false →
  run (GitWrapper.getReflog n) w = (Ok (reflog_window r n), w).
Proof.
  intros Hr Hf. unfold GitWrapper.getReflog.
  rewrite run_catch, run_bind, run_git, Hr, Hf. reflexivity.
Qed.

Lemma getBranches_run w r :
  repo w = Some r → faults w Git.Branch = false →
  run GitWrapper.getBranches w = (Ok (Git.branches r), w).
Proof. intros Hr Hf. unfold GitWrapper.getBranches. rewrite run_git, Hr, Hf. reflexivity. Qed.

Lemma first_checkout_from_cons_ne e entries name :
  Js.match_checkout_from (ReflogEntry.message e) ≠ Some name →
  first_checkout_from (e :: entries) name = first_checkout_from entries name.
Proof.
  intros Hne. unfold first_checkout_from. simpl.
  rewrite bool_decide_eq_false_2 by exact Hne. reflexivity.
Qed.

Lemma first_checkout_from_cons_eq e entries name :
  Js.match_checkout_from (ReflogEntry.message e) = Some name →
  first_checkout_from (e :: entries) name = Some (ReflogEntry.hash e).
Proof.
  intros Heq. unfold first_checkout_from. simpl.
  rewrite bool_decide_eq_true_2 by exact Heq. reflexivity.
Qed.

Lemma not_elem_of_add (b name : string) (seen : gset string) :
  name ∉ ({[b]} ∪ seen : gset string) ↔ name ≠ b ∧ name ∉ seen.
Proof. rewrite elem_of_union, elem_of_singleton. tauto. Qed.

(** The loop appends to the accumulator one pair for each name that is new,
    is not a branch, and is left by some entry; the pair carries the hash
    of the first such entry. *)
Lemma deletedBranchesLoop_run w r entries :
  repo w = Some r → faults w Git.Branch = false →
  ∀ acc (seen : gset string),
  ∃ new,
    run (GitWrapper.deletedBranchesLoop entries acc seen) w = (Ok (acc ++ new)%list, w) ∧
    NoDup new.*1 ∧
    ∀ name hash, (name, hash) ∈ new ↔
      (name ∉ seen) ∧ (name ∉ Git.branches r) ∧
      first_checkout_from entries name = Some hash.
Proof.
  intros Hr Hf. induction entries as [|e entries IH]; intros acc seen.
  - exists []. simpl. rewrite run_ret, app_nil_r. split; [reflexivity|].
    split; [constructor|]. intros name hash. split.
    + intros H; inversion H.
    + intros (_ & _ & H). discriminate.
  - simpl. destruct (Js.match_checkout_from (ReflogEntry.message e)) as [b|] eqn:Hm.
    + destruct (bool_decide (b ∈ seen)) eqn:Hseen.
      * apply bool_decide_eq_true in Hseen.
        destruct (IH acc seen) as (new & Hrun & Hnd & Hmem).
        exists new. split; [exact Hrun|]. split; [exact Hnd|].
        intros name hash. rewrite Hmem. destruct (decide (name = b)) as [->|Hne].
        -- tauto.
        -- rewrite first_checkout_from_cons_ne by congruence. reflexivity.
      * apply bool_decide_eq_false in Hseen.
        rewrite run_bind, (getBranches_run w r Hr Hf).
        destruct (bool_decide (b ∈ Git.branches r)) eqn:Hbr.
        -- apply bool_decide_eq_true in Hbr.
           destruct (IH acc ({[b]} ∪ seen)) as (new & Hrun & Hnd & Hmem).
           exists new. split; [exact Hrun|]. split; [exact Hnd|].
           intros name hash. rewrite Hmem, not_elem_of_add.
           destruct (decide (name = b)) as [->|Hne].
           ++ tauto.
           ++ rewrite first_checkout_from_cons_ne by congruence. tauto.
        -- apply bool_decide_eq_false in Hbr.
           destruct (IH (acc ++ [(b, ReflogEntry.hash e)])%list ({[b]} ∪ seen))
             as (new & Hrun & Hnd & Hmem).
           exists ((b, ReflogEntry.hash e) :: new). split.
           { rewrite Hrun, <- app_assoc. reflexivity. }
           split.
           { simpl. constructor; [|exact Hnd].
             intros Hin. apply list_elem_of_fmap in Hin as ([n h] & Hn & Hin).
             simpl in Hn. subst n. apply Hmem in Hin as (Hin & _).
             apply not_elem_of_add in Hin as [Hin _]. congruence. }
           intros name hash. rewrite elem_of_cons, Hmem, not_elem_of_add.
           destruct (decide (name = b)) as [->|Hne].
           ++ rewrite first_checkout_from_cons_eq by exact Hm. split.
              ** intros [[= ->]|((H & _) & _)]; [auto|congruence].
              ** intros (_ & _ & [= ->]). left; reflexivity.
           ++ rewrite first_checkout_from_cons_ne by congruence. split.
              ** intros [[= ? ?]|H]; [contradiction|tauto].
              ** intros H. right. tauto.
    + destruct (IH acc seen) as (new & Hrun & Hnd & Hmem).
      exists new. split; [exact Hrun|]. split; [exact Hnd|].
      intros name hash. rewrite Hmem.
      rewrite first_checkout_from_cons_ne by congruence. reflexivity.
Qed.

Lemma omap_if_filter {A B} (p : A → bool) (f : A → B) (l : list A) :
  omap (λ x, if p x then Some (f x) else None) l = f <$> List.filter p l.
Proof.
  induction l as [|x l IH]; [reflexivity|].
  cbn [omap list_omap List.filter]. destruct (p x); cbn [fmap list_fmap]; rewrite <- IH; reflexivity.
Qed.

Lemma getDroppedStashes_run w r :
  repo w = Some r → faults w (Git.Reflog 100) = false →
  run GitWrapper.getDroppedStashes w =
  (Ok (droppedStash <$> List.filter is_stash_drop (reflog_window r 100)), w).
Proof.
  intros Hr Hf. unfold GitWrapper.getDroppedStashes.
  rewrite run_catch, run_bind, (getReflog_run w r 100 Hr Hf), run_ret.
  do 2 f_equal. apply (omap_if_filter is_stash_drop droppedStash).
Qed.

(** C9, as amended. Both queries scan the newest hundred reflog entries,
    newest first. The deleted-branches query returns at most one result per
    branch name: the names left by some checkout that are no branch any
    more, each with the hash of its most recent such entry. The
    dropped-stashes query returns one result for every entry that mentions
    a stash drop, in reflog order, without deduplication. *)
Theorem reflog_queries_results w r :
  repo w = Some r → healthy w →
  (∃ deleted,
     run GitWrapper.getDeletedBranches w = (Ok deleted, w) ∧
     NoDup deleted.*1 ∧
     ∀ name hash, (name, hash) ∈ deleted ↔
       (name ∉ Git.branches r) ∧
       first_checkout_from (reflog_window r 100) name = Some hash) ∧
  run GitWrapper.getDroppedStashes w =
    (Ok (droppedStash <$> List.filter is_stash_drop (reflog_window r 100)), w).
Proof.
  intros Hr Hh. split; [|apply (getDroppedStashes_run w r Hr (Hh _))].
  unfold GitWrapper.getDeletedBranches.
  rewrite run_bind, (getReflog_run w r 100 Hr (Hh _)).
  destruct (deletedBranchesLoop_run w r (reflog_window r 100) Hr (Hh _) [] ∅)
    as (new & Hrun & Hnd & Hmem).
  exists new. split; [exact Hrun|]. split; [exact Hnd|].
  intros name hash. rewrite Hmem. split.
  - intros (_ & H2 & H3). auto.
  - intros (H2 & H3). repeat split; auto. apply not_elem_of_empty.
Qed.

Lemma reflog_queries_results_witness :
  let w := Samples.world_of Samples.deleted_topic_repo in
  let r := Samples.deleted_topic_repo in
  repo w = Some r ∧ healthy w ∧
  (∃ deleted,
     run GitWrapper.getDeletedBranches w = (Ok deleted, w) ∧
     NoDup deleted.*1 ∧
     ∀ name hash, (name, hash) ∈ deleted ↔
       (name ∉ Git.branches r) ∧
       first_checkout_from (reflog_window r 100) name = Some hash) ∧
  run GitWrapper.getDroppedStashes w =
    (Ok (droppedStash <$> List.filter is_stash_drop (reflog_window r 100)), w).
Proof.
  intros w r.
  assert (Hr : repo w = Some r) by reflexivity.
  assert (Hh : healthy w) by (intros cmd; reflexivity).
  split; [exact Hr|]. split; [exact Hh|].
  apply (reflog_queries_results w r Hr Hh).
Defined.

Example getDeletedBranches_topic :
  value GitWrapper.getDeletedBranches (Samples.world_of Samples.deleted_topic_repo)
  = Ok [("topic", "c3")].
Proof. reflexivity. Qed.

(** C9, counterexample. Two reflog entries with the same description give
    two dropped-stash results with that description. *)
Lemma getDroppedStashes_duplicates_counterexample :
  run GitWrapper.getDroppedStashes (Samples.world_of Samples.two_drops_repo)
  = (Ok [("c3", "drop the stash cache"); ("c2", "drop the stash cache")],
     Samples.world_of Samples.two_drops_repo)
  ∧ ¬ NoDup [("c3", "drop the stash cache"); ("c2", "drop the stash cache")].*2.
Proof.
  split; [reflexivity|]. simpl. intros H. apply NoDup_cons in H as [H _].
  apply H. left.
Qed.

(** ** The journal file *)

Lemma loadHistory_run w : run ActionHistory.loadHistory w = (Ok (journal w), w).
Proof. reflexivity. Qed.

Lemma journal_set_historyFile actions w :
  journal (set_historyFile (Stored actions) w) = actions.
Proof. reflexivity. Qed.

Lemma saveHistory_run actions w :
  run (ActionHistory.saveHistory actions) w =
  (Ok tt, if writable w
          then set_historyFile
                 (Stored (Js.slice_from (- Config.maxActionHistory (config w)) actions)) w
          else w).
Proof. reflexivity. Qed.

Lemma slice_from_drop {A} k (l : list A) : ∃ n, Js.slice_from k l = drop n l.
Proof. unfold Js.slice_from. eauto. Qed.

Lemma slice_from_suffix {A} k (l : list A) : ∃ pre, l = (pre ++ Js.slice_from k l)%list.
Proof.
  destruct (slice_from_drop k l) as [n ->]. exists (take n l).
  symmetry. apply take_drop.
Qed.

Lemma slice_from_subseteq {A} k (l : list A) x : x ∈ Js.slice_from k l → x ∈ l.
Proof.
  destruct (slice_from_suffix k l) as [pre Hl]. intros H. rewrite Hl.
  apply elem_of_app. right. exact H.
Qed.

(** A positive maximum bounds what is kept, and what is kept is the newest
    entries. *)
Lemma slice_from_positive {A} (m : Z) (l : list A) :
  (0 < m)%Z →
  Js.slice_from (- m) l = drop (length l - Z.to_nat m) l ∧
  (Z.of_nat (length (Js.slice_from (- m) l)) ≤ m)%Z.
Proof.
  intros Hm. unfold Js.slice_from.
  assert (Hneg : (- m <? 0)%Z = true) by (apply Z.ltb_lt; lia). rewrite Hneg.
  assert (Hk : Z.to_nat (Z.max (Z.of_nat (length l) + - m) 0) = length l - Z.to_nat m) by lia.
  rewrite Hk. split; [reflexivity|]. rewrite length_drop. lia.
Qed.

(** With a non-negative maximum the newest entry is never dropped. *)
Lemma slice_from_snoc {A} (m : Z) (l : list A) (a : A) :
  (0 ≤ m)%Z →
  ∃ dropped kept, l = (dropped ++ kept)%list ∧
                  Js.slice_from (- m) (l ++ [a]) = (kept ++ [a])%list.
Proof.
  intros Hm. unfold Js.slice_from. rewrite length_app. simpl.
  set (k := Z.to_nat _).
  assert (Hk : k ≤ length l).
  { subst k. destruct (- m <? 0)%Z eqn:Hneg.
    - apply Z.ltb_lt in Hneg. lia.
    - apply Z.ltb_ge in Hneg. assert (m = 0%Z) by lia. subst m. simpl. lia. }
  exists (take k l), (drop k l). split; [symmetry; apply take_drop|].
  rewrite drop_app_le by exact Hk. reflexivity.
Qed.

(** C8, on the failing input. With [maxActionHistory] set to 0 a save
    writes every entry it is given: [slice(-0)] is [slice(0)]. *)
Theorem saveHistory_zero_maximum_keeps_all :
  let w := Samples.world_with (Some Samples.local_repo) Absent SampleJournal.zero_maximum in
  let w' := (run (ActionHistory.saveHistory SampleJournal.three_entries) w).2 in
  Config.maxActionHistory (config w') = 0%Z ∧
  journal w' = SampleJournal.three_entries ∧
  length (journal w') = 3.
Proof. repeat split. Qed.

(** For a positive maximum the bound holds and the oldest entries go first. *)
Lemma saveHistory_positive_maximum actions w :
  writable w = true → (0 < Config.maxActionHistory (config w))%Z →
  let w' := (run (ActionHistory.saveHistory actions) w).2 in
  (Z.of_nat (length (journal w')) ≤ Config.maxActionHistory (config w))%Z ∧
  journal w' = drop (length actions - Z.to_nat (Config.maxActionHistory (config w))) actions.
Proof.
  intros Hw Hm. rewrite saveHistory_run, Hw. simpl. unfold journal. simpl.
  destruct (slice_from_positive (Config.maxActionHistory (config w)) actions Hm) as [-> Hlen].
  split; [|reflexivity].
  rewrite length_drop. lia.
Qed.

(** ** getLastUndoableAction and undoLastAction *)

Lemma getLastUndoableAction_run w :
  run ActionHistory.getLastUndoableAction w =
  (Ok (List.find (ActionHistory.undoable (cwd w)) (rev (journal w))), w).
Proof. reflexivity. Qed.

(** Searching the reversed list finds the last element that qualifies. *)
Lemma find_rev_Some {A} (p : A → bool) (l : list A) a :
  List.find p (rev l) = Some a →
  p a = true ∧
  ∃ older newer, l = (older ++ a :: newer)%list ∧ Forall (λ b, p b = false) newer.
Proof.
  induction l as [|x l IH] using rev_ind; [discriminate|].
  rewrite rev_app_distr. simpl. destruct (p x) eqn:Hx.
  - intros [= <-]. split; [exact Hx|]. exists l, []. split; [reflexivity|constructor].
  - intros H. destruct (IH H) as (Ha & older & newer & -> & Hall).
    split; [exact Ha|]. exists older, (newer ++ [x])%list. split.
    + rewrite <- app_assoc. reflexivity.
    + apply Forall_app. split; [exact Hall|]. constructor; [exact Hx|constructor].
Qed.

Lemma find_rev_None {A} (p : A → bool) (l : list A) :
  List.find p (rev l) = None ↔ Forall (λ b, p b = false) l.
Proof.
  split.
  - intros H. apply Forall_forall. intros x Hx.
    apply (List.find_none _ _ H). apply in_rev. rewrite rev_involutive.
    apply list_elem_of_In. exact Hx.
  - intros H. destruct (List.find p (rev l)) as [a|] eqn:Hf; [|reflexivity].
    apply List.find_some in Hf as [Hin Hp]. apply in_rev, list_elem_of_In in Hin.
    rewrite Forall_forall in H. rewrite (H a Hin) in Hp. discriminate.
Qed.

Lemma undoable_inv path a :
  ActionHistory.undoable path a = true →
  RecordedAction.canUndo a = true ∧
  (∃ c, RecordedAction.undoCommand a = Some c ∧ c ≠ EmptyString) ∧
  RecordedAction.repoPath a = path.
Proof.
  unfold ActionHistory.undoable. rewrite !andb_true_iff, bool_decide_eq_true.
  intros [[Hc Hu] Hp]. repeat split; auto.
  unfold Js.truthy_opt, Js.truthy in Hu. destruct (RecordedAction.undoCommand a) as [c|];
    [|discriminate].
  exists c. split; [reflexivity|]. apply negb_true_iff, bool_decide_eq_false in Hu. exact Hu.
Qed.

Lemma findIndex_Some {A} (p : A → bool) (l : list A) i :
  Js.findIndex p l = Some i →
  ∃ x, l !! i = Some x ∧ p x = true ∧ ∀ j y, j < i → l !! j = Some y → p y = false.
Proof.
  revert i. induction l as [|x l IH]; intros i; simpl; [discriminate|].
  destruct (p x) eqn:Hx.
  - intros [= <-]. exists x. repeat split; auto. intros j y Hj. lia.
  - destruct (Js.findIndex p l) as [i'|]; [|discriminate].
    intros [= <-]. destruct (IH i' eq_refl) as (y & Hy & Hpy & Hmin).
    exists y. repeat split; auto. intros [|j] z Hj; simpl.
    + intros [= <-]. exact Hx.
    + apply Hmin. lia.
Qed.

Lemma findIndex_None {A} (p : A → bool) (l : list A) :
  Js.findIndex p l = None → ∀ x, x ∈ l → p x = false.
Proof.
  induction l as [|x l IH]; simpl; intros H y Hy; [inversion Hy|].
  destruct (p x) eqn:Hx; [discriminate|].
  destruct (Js.findIndex p l); [discriminate|].
  apply elem_of_cons in Hy as [->|Hy]; auto.
Qed.

(** With unique ids the index found for an entry's id is the entry's. *)
Lemma findIndex_id_NoDup actions a i :
  NoDup (ids actions) → a ∈ actions →
  Js.findIndex (λ b, bool_decide (RecordedAction.id b = RecordedAction.id a)) actions
    = Some i → actions !! i = Some a.
Proof.
  intros Hnd Hin Hi. apply findIndex_Some in Hi as (x & Hx & Hp & _).
  apply bool_decide_eq_true in Hp.
  apply list_elem_of_lookup in Hin as [j Hj].
  assert (i = j); [|subst; congruence].
  eapply NoDup_lookup; [exact Hnd| |]; unfold ids; rewrite list_lookup_fmap.
  - rewrite Hx. simpl. rewrite Hp. reflexivity.
  - rewrite Hj. reflexivity.
Qed.

Lemma hardReset_run w r h c :
  repo w = Some r → faults w (Git.Reset Git.Hard (Git.Object h)) = false →
  Git.lookup_commit (Git.objects r) h = Some c →
  ∃ r', run (GitWrapper.hardReset (Git.Object h)) w = (Ok tt, set_repo r' w) ∧
        Git.HEAD r' = Some h ∧ Git.objects r' = Git.objects r.
Proof.
  intros Hr Hf Hl. unfold GitWrapper.hardReset, git_mut, run. rewrite Hr, Hf.
  unfold Git.reset. simpl. rewrite Hl. simpl.
  apply lookup_commit_Some in Hl as [-> _]. eexists. split; [reflexivity|]. split; reflexivity.
Qed.

(** What a successful [undoLastAction] leaves in the journal: the entry it
    consumed has lost its flag, every other entry is as before. *)
Lemma undoLastAction_success w msg w' :
  NoDup (ids (journal w)) → writable w = true →
  run ActionHistory.undoLastAction w = (Ok (true, msg), w') →
  ∃ a, value ActionHistory.getLastUndoableAction w = Ok (Some a) ∧
       cwd w' = cwd w ∧
       ∀ b, b ∈ journal w' →
            b = ActionHistory.with_canUndo false a ∨
            (b ∈ journal w ∧ RecordedAction.id b ≠ RecordedAction.id a).
Proof.
  intros Hnd Hw. unfold ActionHistory.undoLastAction.
  rewrite run_bind, getLastUndoableAction_run.
  destruct (List.find _ _) as [a|] eqn:Hfind; [|intros [=]].
  destruct (negb _); [intros [=]|].
  rewrite run_catch, run_bind.
  destruct (run (GitWrapper.hardReset _) w) as [[[]|e] w1] eqn:Hreset; [|intros [=]].
  assert (Hw1 : historyFile w1 = historyFile w ∧ writable w1 = writable w
                ∧ config w1 = config w ∧ cwd w1 = cwd w).
  { unfold GitWrapper.hardReset, git_mut, run in Hreset.
    destruct (repo w); [|discriminate]. destruct (faults w _); [discriminate|].
    destruct (Git.reset _ _ _); [|discriminate].
    injection Hreset as <-. repeat split. }
  destruct Hw1 as (Hfile & Hwr & Hcfg & Hcwd).
  assert (Hj : journal w1 = journal w) by (unfold journal; rewrite Hfile; reflexivity).
  rewrite run_bind, loadHistory_run, run_bind, Hj.
  assert (Hval : value ActionHistory.getLastUndoableAction w = Ok (Some a)).
  { unfold value. rewrite getLastUndoableAction_run. simpl. rewrite Hfind. reflexivity. }
  apply find_rev_Some in Hfind as (Hund & older & newer & Hsplit & _).
  assert (Hin : a ∈ journal w).
  { rewrite Hsplit. apply elem_of_app. right. left. }
  destruct (Js.findIndex _ (journal w)) as [i|] eqn:Hi.
  - pose proof (findIndex_id_NoDup _ _ _ Hnd Hin Hi) as Hia.
    rewrite saveHistory_run, Hwr, Hw, run_ret. intros [= _ <-].
    exists a. split; [exact Hval|]. split; [exact Hcwd|].
    intros b Hb. rewrite journal_set_historyFile in Hb.
    apply slice_from_subseteq in Hb.
    apply list_elem_of_lookup in Hb as [j Hj'].
    destruct (decide (j = i)) as [->|Hne].
    + left. rewrite list_lookup_alter_eq, Hia in Hj'. injection Hj' as <-. reflexivity.
    + right. rewrite list_lookup_alter_ne in Hj' by auto. split.
      * apply list_elem_of_lookup. eauto.
      * intros Heq. apply Hne.
        eapply NoDup_lookup; [exact Hnd| |]; unfold ids; rewrite list_lookup_fmap.
        -- rewrite Hj'. reflexivity.
        -- rewrite Hia. simpl. rewrite Heq. reflexivity.
  - apply findIndex_None with (x := a) in Hi; [|exact Hin].
    apply bool_decide_eq_false in Hi. contradiction.
Qed.

(** ** First-parent ancestors *)

Lemma nth_ancestor_lookup objs k h t :
  Git.nth_ancestor objs k h = Some t → ∃ c, Git.lookup_commit objs h = Some c.
Proof. destruct k; simpl; destruct (Git.lookup_commit objs h); eauto; discriminate. Qed.

Lemma nth_ancestor_in objs k h t :
  Git.nth_ancestor objs k h = Some t → t ∈ Git.hashes objs.
Proof.
  revert h. induction k as [|k IH]; intros h; simpl;
    destruct (Git.lookup_commit objs h) as [c|] eqn:Hl; try discriminate.
  - intros [= <-]. apply lookup_commit_Some in Hl as [_ Hin].
    apply list_elem_of_fmap. eauto.
  - destruct (Git.parents c); [discriminate|]. apply IH.
Qed.

Lemma nth_ancestor_cons_ne c rest k h :
  Git.wf_store (c :: rest) → h ∈ Git.hashes rest →
  Git.nth_ancestor (c :: rest) k h = Git.nth_ancestor rest k h.
Proof.
  intros Hwf. pose proof Hwf as (_ & Hfresh & _ & Hwf').
  revert h. induction k as [|k IH]; intros h Hh; cbn [Git.nth_ancestor];
    (rewrite lookup_commit_cons_ne by (intros Heq; subst h; contradiction));
    destruct (Git.lookup_commit rest h) as [c0|] eqn:Hl; try reflexivity.
  destruct (Git.parents c0) as [|p ps] eqn:Hp; [reflexivity|].
  apply IH. eapply wf_store_parents; eauto. rewrite Hp. left.
Qed.

Lemma hashes_cons_inv c rest h :
  h ∈ Git.hashes (c :: rest) → Git.hash c ≠ h → h ∈ Git.hashes rest.
Proof.
  unfold Git.hashes. simpl. intros H Hne. apply elem_of_cons in H as [->|H]; [contradiction|exact H].
Qed.

(** A proper first-parent ancestor is a different commit. *)
Lemma nth_ancestor_distinct objs k h t :
  Git.wf_store objs → 0 < k → Git.nth_ancestor objs k h = Some t → t ≠ h.
Proof.
  intros Hwf Hk. revert h. induction objs as [|c rest IH]; intros h Hn.
  - destruct k; discriminate.
  - pose proof Hwf as (_ & Hfresh & Hpar & Hwf').
    destruct (decide (Git.hash c = h)) as [<-|Hne].
    + destruct k as [|k]; [lia|]. cbn [Git.nth_ancestor] in Hn. rewrite lookup_commit_cons_eq in Hn.
      destruct (Git.parents c) as [|p ps] eqn:Hp; [discriminate|].
      assert (Hin : p ∈ Git.hashes rest) by (apply Hpar; try rewrite Hp; left).
      rewrite nth_ancestor_cons_ne in Hn by assumption.
      apply nth_ancestor_in in Hn. intros ->. contradiction.
    + assert (Hin : h ∈ Git.hashes rest).
      { destruct (nth_ancestor_lookup _ _ _ _ Hn) as [c0 Hl].
        apply lookup_commit_hashes in Hl. apply hashes_cons_inv in Hl; assumption. }
      rewrite nth_ancestor_cons_ne in Hn by assumption. apply IH; assumption.
Qed.

(** The history holds more commits than any first-parent distance. *)
Lemma nth_ancestor_reach objs want k h t :
  Git.wf_store objs → h ∈ want → Git.nth_ancestor objs k h = Some t →
  k < length (Git.reach objs want).
Proof.
  revert want k h. induction objs as [|c rest IH]; intros want k h Hwf Hw Hn.
  - destruct k; discriminate.
  - pose proof Hwf as (_ & Hfresh & Hpar & Hwf'). cbn [Git.reach].
    destruct (decide (Git.hash c = h)) as [<-|Hne].
    + rewrite bool_decide_eq_true_2 by exact Hw. cbn [length].
      destruct k as [|k]; [lia|]. cbn [Git.nth_ancestor] in Hn. rewrite lookup_commit_cons_eq in Hn.
      destruct (Git.parents c) as [|p ps] eqn:Hp; [discriminate|].
      assert (Hin : p ∈ Git.hashes rest) by (apply Hpar; try rewrite Hp; left).
      rewrite nth_ancestor_cons_ne in Hn by assumption.
      apply -> Nat.succ_lt_mono. eapply IH; [exact Hwf'| |exact Hn].
      apply elem_of_app. left. left.
    + assert (Hin : h ∈ Git.hashes rest).
      { destruct (nth_ancestor_lookup _ _ _ _ Hn) as [c0 Hl].
        apply lookup_commit_hashes in Hl. apply hashes_cons_inv in Hl; assumption. }
      rewrite nth_ancestor_cons_ne in Hn by assumption.
      destruct (bool_decide (Git.hash c ∈ want)); simpl.
      * apply Nat.lt_lt_succ_r. eapply IH; [exact Hwf'| |exact Hn].
        apply elem_of_app. right. exact Hw.
      * eapply IH; eauto.
Qed.

Lemma nth_ancestor_commit_count r k h t :
  Git.wf_store (Git.objects r) → Git.HEAD r = Some h →
  Git.nth_ancestor (Git.objects r) k h = Some t → k < Git.commit_count r.
Proof.
  intros Hwf Hh Hn. unfold Git.commit_count, Git.history. rewrite Hh.
  eapply nth_ancestor_reach; eauto. left.
Qed.

(** ** Linear histories *)

(** On a linear history every distance below the number of commits names
    a first-parent ancestor. *)
Lemma linear_reach_ancestor objs want k h :
  Git.wf_store objs → linear objs →
  (∀ x, x ∈ want → x ∈ Git.hashes objs → x = h) →
  k < length (Git.reach objs want) →
  is_Some (Git.nth_ancestor objs k h).
Proof.
  revert want k h. induction objs as [|c rest IH]; intros want k h Hwf Hlin Hone Hk.
  - simpl in Hk. lia.
  - pose proof Hwf as (_ & Hfresh & Hpar & Hwf').
    assert (Hlin' : linear rest) by (intros x Hx; apply Hlin; right; exact Hx).
    assert (Hc : Git.hash c ∈ Git.hashes (c :: rest)) by (unfold Git.hashes; simpl; left).
    cbn [Git.reach] in Hk. destruct (bool_decide (Git.hash c ∈ want)) eqn:Hin.
    + apply bool_decide_eq_true in Hin. pose proof (Hone _ Hin Hc) as <-.
      destruct k as [|k]; cbn [Git.nth_ancestor]; rewrite lookup_commit_cons_eq; [eauto|].
      cbn [length] in Hk. apply Nat.succ_lt_mono in Hk.
      assert (Hold : ∀ x, x ∈ want → x ∉ Git.hashes rest).
      { intros x Hx Hx'. assert (x = Git.hash c); [|subst; contradiction].
        apply Hone; [exact Hx|]. unfold Git.hashes. simpl. right. exact Hx'. }
      destruct (Git.parents c) as [|p ps] eqn:Hp.
      * exfalso. simpl in Hk.
        assert (Hsome : is_Some (Git.nth_ancestor rest k (Git.hash c))).
        { apply (IH want); auto. intros x Hx Hx'. exfalso. exact (Hold x Hx Hx'). }
        destruct Hsome as [t Ht]. destruct (nth_ancestor_lookup _ _ _ _ Ht) as [c0 Hl].
        apply lookup_commit_hashes in Hl. contradiction.
      * assert (Hps : ps = []).
        { assert (Hlen : length (Git.parents c) ≤ 1) by (apply Hlin; left).
          rewrite Hp in Hlen. simpl in Hlen. destruct ps; [reflexivity|simpl in Hlen; lia]. }
        subst ps.
        assert (Hpin : p ∈ Git.hashes rest) by (apply Hpar; left).
        rewrite nth_ancestor_cons_ne by assumption.
        apply (IH ([p] ++ want)%list); auto.
        intros x Hx Hx'. apply elem_of_app in Hx as [Hx|Hx].
        -- apply list_elem_of_singleton in Hx. exact Hx.
        -- exfalso. exact (Hold x Hx Hx').
    + assert (Hsome : is_Some (Git.nth_ancestor rest k h)).
      { apply (IH want); auto. intros x Hx Hx'. apply Hone; [exact Hx|].
        unfold Git.hashes. simpl. right. exact Hx'. }
      destruct Hsome as [t Ht]. destruct (nth_ancestor_lookup _ _ _ _ Ht) as [c0 Hl].
      apply lookup_commit_hashes in Hl.
      rewrite nth_ancestor_cons_ne by assumption. eauto.
Qed.

(** On a linear history of N commits, [HEAD~k] exists exactly for k < N. *)
Lemma linear_history_ancestor r h k :
  Git.wf_store (Git.objects r) → linear (Git.objects r) → Git.HEAD r = Some h →
  k < Git.commit_count r ↔ is_Some (Git.nth_ancestor (Git.objects r) k h).
Proof.
  intros Hwf Hlin Hh. split.
  - unfold Git.commit_count, Git.history. rewrite Hh. intros Hk.
    eapply linear_reach_ancestor; eauto.
    intros x Hx _. apply list_elem_of_singleton in Hx. exact Hx.
  - intros [t Ht]. eapply nth_ancestor_commit_count; eauto.
Qed.

Example three_commits_linear : linear Samples.three_commits.
Proof.
  intros c Hc. repeat (apply elem_of_cons in Hc as [->|Hc]); simpl; try lia.
  inversion Hc.
Qed.

(** ** recordAction and completeAction *)

Lemma getCurrentBranch_run w :
  run GitWrapper.getCurrentBranch w = (Ok (current_branch w), w).
Proof.
  destruct (getCurrentBranch_total w) as [b Hb]. unfold current_branch, value.
  rewrite Hb. reflexivity.
Qed.

(** The branch reported depends on the repository and on the faults only. *)
Lemma current_branch_ext w w' :
  repo w = repo w' → faults w = faults w' → current_branch w = current_branch w'.
Proof.
  intros Hr Hf. unfold current_branch, value, GitWrapper.getCurrentBranch.
  rewrite !run_catch, !run_bind, !run_git, Hr, Hf.
  destruct (repo w'); [|reflexivity]. destruct (faults w' _); [reflexivity|].
  destruct (GitWrapper.abbrev_ref _); reflexivity.
Qed.

Lemma current_branch_tick w : current_branch (tick w) = current_branch w.
Proof. apply current_branch_ext; reflexivity. Qed.

Lemma recordAction_run type description canUndo w r h :
  repo w = Some r → faults w Git.RevParseHead = false → Git.HEAD r = Some h →
  run (ActionHistory.recordAction type description canUndo) w =
  (Ok (pending w type description canUndo h),
   if writable w
   then set_historyFile
          (Stored (Js.slice_from (- Config.maxActionHistory (config w))
                     (journal w ++ [pending w type description canUndo h]))) (tick w)
   else tick w).
Proof.
  intros Hr Hf Hh. unfold ActionHistory.recordAction.
  rewrite run_bind, run_get, run_bind. unfold ActionHistory.generateId at 1.
  unfold run at 1. simpl.
  rewrite run_bind, run_get, run_bind.
  rewrite (getHeadHash_run (tick w) r h Hr Hf Hh).
  rewrite run_bind, getCurrentBranch_run, run_bind, loadHistory_run, run_bind.
  rewrite saveHistory_run, run_ret, current_branch_tick. reflexivity.
Qed.

Lemma recordAction_throws type description canUndo w r :
  repo w = Some r → Git.HEAD r = None →
  ∃ e, run (ActionHistory.recordAction type description canUndo) w = (Throw e, tick w).
Proof.
  intros Hr Hh. unfold ActionHistory.recordAction.
  rewrite run_bind, run_get, run_bind. unfold ActionHistory.generateId at 1.
  unfold run at 1. simpl.
  rewrite run_bind, run_get, run_bind. unfold GitWrapper.getHeadHash.
  rewrite run_git. simpl. rewrite Hr, Hh. destruct (faults w _); eauto.
Qed.

Lemma completed_id a t b : RecordedAction.id (completed a t b) = RecordedAction.id a.
Proof. unfold completed. destruct (_ && _); reflexivity. Qed.

Lemma completeAction_run a w r t :
  repo w = Some r → faults w Git.RevParseHead = false → Git.HEAD r = Some t →
  run (ActionHistory.completeAction a) w =
  (Ok tt,
   match Js.findIndex (λ b, bool_decide (RecordedAction.id b = RecordedAction.id a))
           (journal w) with
   | Some index =>
       if writable w
       then set_historyFile
              (Stored (Js.slice_from (- Config.maxActionHistory (config w))
                         (<[index := completed a t (current_branch w)]> (journal w)))) w
       else w
   | None => w
   end).
Proof.
  intros Hr Hf Hh. unfold ActionHistory.completeAction.
  rewrite run_bind, (getHeadHash_run w r t Hr Hf Hh), run_bind, getCurrentBranch_run.
  rewrite run_bind, loadHistory_run.
  fold (completed a t (current_branch w)). rewrite completed_id.
  destruct (Js.findIndex _ (journal w)); [rewrite saveHistory_run|rewrite run_ret]; reflexivity.
Qed.

(** ** undoCommit *)

Lemma findIndex_snoc_fresh {A} (p : A → bool) (l : list A) a :
  (∀ x, x ∈ l → p x = false) → p a = true →
  Js.findIndex p (l ++ [a])%list = Some (length l).
Proof.
  intros Hl Ha. induction l as [|x l IH]; simpl.
  - rewrite Ha. reflexivity.
  - rewrite (Hl x) by left. rewrite IH; [reflexivity|].
    intros y Hy. apply Hl. right. exact Hy.
Qed.

Lemma insert_snoc {A} (l : list A) a b : <[length l := b]> (l ++ [a])%list = (l ++ [b])%list.
Proof. induction l as [|x l IH]; simpl; [reflexivity|]. rewrite IH. reflexivity. Qed.

Lemma reset_run mode k w r t :
  repo w = Some r → healthy w → Git.resolve r (Git.HeadTilde k) = Some t →
  (mode = Git.Soft → Git.MERGE_HEAD r = false ∧ Git.conflicted r = []) →
  ∃ r', run match mode with
            | Git.Soft => GitWrapper.softReset (Git.HeadTilde k)
            | Git.Mixed => GitWrapper.mixedReset (Git.HeadTilde k)
            | Git.Hard => GitWrapper.hardReset (Git.HeadTilde k)
            end w = (Ok tt, set_repo r' w) ∧
        Git.HEAD r' = Some t ∧ Git.objects r' = Git.objects r ∧
        Git.current r' = Git.current r.
Proof.
  intros Hr Hh Ht Hmerge.
  destruct mode; unfold GitWrapper.softReset, GitWrapper.mixedReset, GitWrapper.hardReset,
    git_mut, run; rewrite Hr, Hh; unfold Git.reset; rewrite Ht;
    try (destruct (Hmerge eq_refl) as [-> ->]); simpl;
    eexists; (split; [reflexivity|split; [reflexivity|split; reflexivity]]).
Qed.

Lemma current_branch_value w r h :
  repo w = Some r → faults w Git.RevParseAbbrevRefHead = false → Git.HEAD r = Some h →
  current_branch w = Some (default "HEAD" (Git.current r)).
Proof.
  intros Hr Hf Hh. unfold current_branch, value, GitWrapper.getCurrentBranch.
  rewrite run_catch, run_bind, run_git, Hr, Hf. unfold GitWrapper.abbrev_ref.
  rewrite Hh. reflexivity.
Qed.

Lemma chosen_count_run count w r :
  run match count with
      | Some (S n) => ret (S n)
      | Some 0 | None =>
          Prompts.selectNumber "How many commits do you want to undo?"
            (Nat.min (length (candidates r 10)) 10) 1
      end w = (Ok (chosen_count count w r), w).
Proof. destruct count as [[|n]|]; reflexivity. Qed.

Lemma showSafetyWarnings_confirmed res w :
  SafetyCheckResult.safe res = true →
  (∀ message, answer_confirm (operator w) message = true) →
  run (SafetyChecks.showSafetyWarnings res) w = (Ok true, w).
Proof.
  intros Hs Hc. unfold SafetyChecks.showSafetyWarnings. rewrite Hs. simpl.
  destruct (0 <? _); [|reflexivity].
  unfold Prompts.confirm. rewrite run_get, Hc. reflexivity.
Qed.

Lemma undoCommit_success count w r h k t :
  repo w = Some r → healthy w → Git.wf_store (Git.objects r) →
  Git.HEAD r = Some h → chosen_count count w r = k → 0 < k →
  Git.nth_ancestor (Git.objects r) k h = Some t →
  writable w = true → (0 ≤ Config.maxActionHistory (config w))%Z →
  rand w (ticks w) ∉ ids (journal w) →
  (∀ message, answer_confirm (operator w) message = true) →
  (answer_mode (operator w) = Git.Soft →
   Git.MERGE_HEAD r = false ∧ Git.conflicted r = []) →
  ∃ w' r' kept,
    run (Commands.undoCommit count) w = (Ok tt, w') ∧
    repo w' = Some r' ∧ Git.HEAD r' = Some t ∧ Git.objects r' = Git.objects r ∧
    faults w' = faults w ∧ cwd w' = cwd w ∧ writable w' = true ∧
    config w' = config w ∧
    journal w' =
      (kept ++ [completed (pending w undo_commit
                             (undoDescription k (answer_mode (operator w))) true h)
                          t (current_branch w)])%list.
Proof.
  intros Hr Hh Hwf Hhead Hk Hpos Hanc Hw Hmax Hfresh Hconf Hmerge.
  pose proof (nth_ancestor_commit_count r k h t Hwf Hhead Hanc) as Hcount.
  unfold Commands.undoCommit.
  rewrite run_bind, (isGitRepo_run w r Hr (Hh _)). simpl.
  rewrite run_bind, (getRecentCommits_run w r 10 Hr (Hh _)).
  rewrite bool_decide_eq_false_2
    by (pose proof (length_candidates r 10) as L; cbv beta iota in L; lia).
  rewrite run_bind, chosen_count_run, Hk.
  rewrite run_bind. unfold Prompts.selectResetMode. rewrite run_get.
  set (mode := answer_mode (operator w)).
  rewrite run_bind, (checkBeforeReset_run mode k w r Hr (Hh _) (Hh _)).
  rewrite run_bind, showSafetyWarnings_confirmed; [|simpl|exact Hconf].
  2:{ rewrite length_candidates. apply negb_true_iff, Nat.ltb_ge. destruct k; lia. }
  simpl. rewrite run_bind. unfold Prompts.confirmAction, Prompts.confirm.
  rewrite run_get, Hconf. simpl.
  rewrite run_bind.
  fold (undoDescription k mode).
  rewrite (recordAction_run undo_commit (undoDescription k mode) true w r h Hr (Hh _) Hhead).
  rewrite Hw.
  set (a := pending w undo_commit (undoDescription k mode) true h).
  destruct (slice_from_snoc (Config.maxActionHistory (config w)) (journal w) a Hmax)
    as (dropped & kept & Hsplit & ->).
  set (w1 := set_historyFile (Stored (kept ++ [a])) (tick w)).
  rewrite run_catch, run_bind, run_withSpinner.
  assert (Hh1 : healthy w1) by (intros cmd; apply Hh).
  assert (Hres : Git.resolve r (Git.HeadTilde k) = Some t)
    by (unfold Git.resolve; rewrite Hhead; exact Hanc).
  destruct (reset_run mode k w1 r t Hr Hh1 Hres Hmerge) as (r' & -> & Hhead' & Hobj & Hcur).
  set (w2 := set_repo r' w1).
  rewrite run_bind, (completeAction_run a w2 r' t eq_refl (Hh _) Hhead').
  change (journal w2) with (kept ++ [a])%list.
  change (writable w2) with (writable w). rewrite Hw.
  change (config w2) with (config w).
  rewrite findIndex_snoc_fresh.
  2:{ intros x Hx. apply bool_decide_eq_false. intros Heq. apply Hfresh.
      unfold ids. apply list_elem_of_fmap. exists x. split; [symmetry; exact Heq|].
      rewrite Hsplit. apply elem_of_app. right. exact Hx. }
  2:{ apply bool_decide_eq_true. reflexivity. }
  rewrite insert_snoc.
  assert (Hb : current_branch w2 = current_branch w).
  { rewrite (current_branch_value w2 r' t eq_refl (Hh _) Hhead').
    rewrite (current_branch_value w r h Hr (Hh _) Hhead), Hcur. reflexivity. }
  rewrite Hb.
  destruct (slice_from_snoc (Config.maxActionHistory (config w)) kept
              (completed a t (current_branch w)) Hmax)
    as (dropped' & kept' & Hsplit' & ->).
  rewrite run_bind, (run_readonly _ _ readonly_getLastCommit).
  set (w3 := set_historyFile _ w2).
  exists w3, r', kept'. split.
  { destruct (value GitWrapper.getLastCommit w3); reflexivity. }
  repeat split; assumption.
Qed.

Lemma completed_pending_undoable w k mode h t b :
  t ≠ h →
  completed (pending w undo_commit (undoDescription k mode) true h) t b =
  {| RecordedAction.id := rand w (ticks w);
     RecordedAction.type := undo_commit;
     RecordedAction.timestamp := clock w (S (ticks w));
     RecordedAction.description := undoDescription k mode;
     RecordedAction.repoPath := cwd w;
     RecordedAction.beforeState :=
       {| HeadState.headHash := h; HeadState.branch := current_branch w |};
     RecordedAction.afterState :=
       Some {| HeadState.headHash := t; HeadState.branch := b |};
     RecordedAction.undoCommand := Some ("git reset --hard " +:+ h);
     RecordedAction.canUndo := true |}.
Proof.
  intros Hne. unfold completed, pending. simpl.
  rewrite bool_decide_eq_false_2 by congruence. reflexivity.
Qed.

Lemma find_rev_snoc {A} (p : A → bool) (l : list A) a :
  p a = true → List.find p (rev (l ++ [a])) = Some a.
Proof. intros Ha. rewrite rev_app_distr. simpl. rewrite Ha. reflexivity. Qed.

(** C1, as amended. When [HEAD~k] exists (on a linear history of N commits:
    1 <= k < N), git and the journal file work, the operator confirms, the
    configured maximum is not negative, the generated id is new and, for a
    soft reset, no merge is in progress and no path is unmerged (git
    refuses a soft reset in the middle of a merge), an undo of [k] commits
    moves the head to [HEAD~k], and an immediately following
    [undoLastAction] succeeds and restores the head hash to its value
    before the undo. *)
Theorem undo_then_journal_undo_restores_head count w r h k t :
  repo w = Some r → healthy w → Git.wf_store (Git.objects r) →
  Git.HEAD r = Some h → chosen_count count w r = k → 0 < k →
  Git.nth_ancestor (Git.objects r) k h = Some t →
  writable w = true → (0 ≤ Config.maxActionHistory (config w))%Z →
  rand w (ticks w) ∉ ids (journal w) →
  (∀ message, answer_confirm (operator w) message = true) →
  (answer_mode (operator w) = Git.Soft →
   Git.MERGE_HEAD r = false ∧ Git.conflicted r = []) →
  ∃ w1 r1 w2 r2 msg,
    run (Commands.undoCommit count) w = (Ok tt, w1) ∧
    repo w1 = Some r1 ∧ Git.HEAD r1 = Some t ∧ t ≠ h ∧
    run ActionHistory.undoLastAction w1 = (Ok (true, msg), w2) ∧
    repo w2 = Some r2 ∧ Git.HEAD r2 = Some h.
Proof.
  intros Hr Hh Hwf Hhead Hk Hpos Hanc Hw Hmax Hfresh Hconf Hmerge.
  destruct (undoCommit_success count w r h k t Hr Hh Hwf Hhead Hk Hpos Hanc Hw Hmax
              Hfresh Hconf Hmerge)
    as (w1 & r1 & kept & Hrun & Hr1 & Hhead1 & Hobj & Hf1 & Hcwd & Hw1 & Hcfg & Hj).
  pose proof (nth_ancestor_distinct _ _ _ _ Hwf Hpos Hanc) as Hne.
  rewrite completed_pending_undoable in Hj by exact Hne.
  destruct (nth_ancestor_lookup _ _ _ _ Hanc) as [c Hc].
  assert (Hnonempty : h ≠ EmptyString).
  { eapply wf_store_hash_nonempty; [exact Hwf|]. eapply lookup_commit_hashes; eauto. }
  cut (∃ w2 r2 msg,
         run ActionHistory.undoLastAction w1 = (Ok (true, msg), w2) ∧
         repo w2 = Some r2 ∧ Git.HEAD r2 = Some h).
  { intros (w2 & r2 & msg & H1 & H2 & H3). exists w1, r1, w2, r2, msg. auto 10. }
  unfold ActionHistory.undoLastAction.
  rewrite run_bind, getLastUndoableAction_run, Hj, find_rev_snoc.
  2:{ unfold ActionHistory.undoable. simpl. rewrite Hcwd.
      rewrite bool_decide_eq_true_2 by reflexivity. reflexivity. }
  simpl.
  assert (Htruthy : Js.truthy h = true).
  { unfold Js.truthy. rewrite bool_decide_eq_false_2 by exact Hnonempty. reflexivity. }
  rewrite Htruthy. simpl.
  rewrite <- Hobj in Hc.
  assert (Hf : faults w1 (Git.Reset Git.Hard (Git.Object h)) = false)
    by (rewrite Hf1; apply Hh).
  destruct (hardReset_run w1 r1 h c Hr1 Hf Hc) as (r2 & Hreset & Hhead2 & _).
  rewrite run_catch, run_bind, Hreset, run_bind, loadHistory_run, run_bind.
  set (w2 := set_repo r2 w1).
  assert (Hsave : ∃ w3, run match Js.findIndex
                                    (λ a, bool_decide (RecordedAction.id a = rand w (ticks w)))
                                    (journal w2) with
                            | Some index =>
                                ActionHistory.saveHistory
                                  (alter (ActionHistory.with_canUndo false) index (journal w2))
                            | None => ret tt
                            end w2 = (Ok tt, w3) ∧ repo w3 = Some r2).
  { destruct (Js.findIndex _ _).
    - rewrite saveHistory_run. eexists. split; [reflexivity|].
      destruct (writable w2); reflexivity.
    - rewrite run_ret. eexists. split; reflexivity. }
  destruct Hsave as (w3 & -> & Hr3). rewrite run_ret.
  exists w3, r2. eexists. split; [reflexivity|]. split; assumption.
Qed.

Lemma undo_then_journal_undo_restores_head_witness :
  let w := SampleJournal.busy_world in
  let r := Samples.local_repo in
  repo w = Some r ∧ healthy w ∧ Git.wf_store (Git.objects r) ∧
  Git.HEAD r = Some "c3" ∧ chosen_count (Some 2) w r = 2 ∧ 0 < 2 ∧
  Git.nth_ancestor (Git.objects r) 2 "c3" = Some "c1" ∧
  writable w = true ∧ (0 ≤ Config.maxActionHistory (config w))%Z ∧
  (rand w (ticks w) ∉ ids (journal w)) ∧
  (∀ message, answer_confirm (operator w) message = true) ∧
  (answer_mode (operator w) = Git.Soft →
   Git.MERGE_HEAD r = false ∧ Git.conflicted r = []) ∧
  ∃ w1 r1 w2 r2 msg,
    run (Commands.undoCommit (Some 2)) w = (Ok tt, w1) ∧
    repo w1 = Some r1 ∧ Git.HEAD r1 = Some "c1" ∧ "c1" ≠ "c3" ∧
    run ActionHistory.undoLastAction w1 = (Ok (true, msg), w2) ∧
    repo w2 = Some r2 ∧ Git.HEAD r2 = Some "c3".
Proof.
  intros w r.
  assert (Hr : repo w = Some r) by reflexivity.
  assert (Hh : healthy w) by (intros cmd; reflexivity).
  assert (Hwf : Git.wf_store (Git.objects r)) by (apply wf_storeb_sound; reflexivity).
  assert (Hhead : Git.HEAD r = Some "c3") by reflexivity.
  assert (Hk : chosen_count (Some 2) w r = 2) by reflexivity.
  assert (Hpos : 0 < 2) by lia.
  assert (Hanc : Git.nth_ancestor (Git.objects r) 2 "c3" = Some "c1") by reflexivity.
  assert (Hw : writable w = true) by reflexivity.
  assert (Hmax : (0 ≤ Config.maxActionHistory (config w))%Z) by (simpl; lia).
  assert (Hfresh : rand w (ticks w) ∉ ids (journal w))
    by (apply (proj1 (bool_decide_eq_false _)); reflexivity).
  assert (Hconf : ∀ message, answer_confirm (operator w) message = true)
    by (intros message; reflexivity).
  assert (Hmerge : answer_mode (operator w) = Git.Soft →
                   Git.MERGE_HEAD r = false ∧ Git.conflicted r = [])
    by (intros _; split; reflexivity).
  repeat (split; [assumption|]).
  apply (undo_then_journal_undo_restores_head (Some 2) w r "c3" 2 "c1"
           Hr Hh Hwf Hhead Hk Hpos Hanc Hw Hmax Hfresh Hconf Hmerge).
Defined.

Example undo_two_then_undo_action :
  let w1 := (run (Commands.undoCommit (Some 2)) SampleJournal.busy_world).2 in
  let w2 := (run ActionHistory.undoLastAction w1).2 in
  (Git.HEAD <$> repo w1, Git.HEAD <$> repo w2) = (Some (Some "c1"), Some (Some "c3")).
Proof. reflexivity. Qed.

(** C1, counterexample. The repository has one commit (N = 1) and the
    journal holds an older undoable entry. An undo of k = 1 <= N commits
    cannot move the head ([HEAD~1] does not exist), and the journal's undo
    then resets the head to the older entry's commit, not to the head
    before the undo. *)
Lemma undo_all_commits_counterexample :
  let w := SampleJournal.reworded_world in
  let w1 := (run (Commands.undoCommit (Some 1)) w).2 in
  let w2 := (run ActionHistory.undoLastAction w1).2 in
  Git.commit_count SampleJournal.reworded_repo = 1 ∧
  Git.HEAD <$> repo w = Some (Some "c1b") ∧
  Git.HEAD <$> repo w1 = Some (Some "c1b") ∧
  (∃ msg, value ActionHistory.undoLastAction w1 = Ok (true, msg)) ∧
  Git.HEAD <$> repo w2 = Some (Some "c1") ∧
  Git.HEAD <$> repo w2 ≠ Git.HEAD <$> repo w.
Proof.
  intros w w1 w2. split; [reflexivity|]. split; [reflexivity|]. split; [reflexivity|].
  split; [eexists; reflexivity|]. split; [reflexivity|]. discriminate.
Qed.

(** In the middle of a merge git refuses the soft reset: the head stays,
    and the entry recorded for the undo stays pending. A mixed reset goes
    through. *)
Example undo_one_in_a_merge :
  let w := Samples.world_of Samples.merging_repo in
  let w1 := (run (Commands.undoCommit (Some 1)) w).2 in
  value (GitWrapper.softReset (Git.HeadTilde 1)) w
    = Throw "Cannot do a soft reset in the middle of a merge." ∧
  repo w1 = repo w ∧
  (RecordedAction.afterState <$> last (journal w1)) = Some None ∧
  Git.HEAD <$> repo (run (GitWrapper.mixedReset (Git.HeadTilde 1)) w).2 = Some (Some "c2").
Proof. repeat split. Qed.

(** ** A failed mutation *)

Lemma readonly_pushedLoop commits warnings : readonly (SafetyChecks.pushedLoop commits warnings).
Proof.
  revert warnings. induction commits as [|c commits IH]; intros warnings; simpl.
  - apply readonly_ret.
  - apply readonly_bind; [apply readonly_isPushed|]. intros b. apply IH.
Qed.

Lemma readonly_checkBeforeReset mode n : readonly (SafetyChecks.checkBeforeReset mode n).
Proof.
  unfold SafetyChecks.checkBeforeReset.
  apply readonly_bind; [apply readonly_getRecentCommits|]. intros commits.
  apply readonly_bind.
  - destruct mode; try apply readonly_ret.
    apply readonly_bind; [apply readonly_hasUncommittedChanges|]. intros b. apply readonly_ret.
  - intros warnings. apply readonly_bind; [apply readonly_pushedLoop|].
    intros ws. apply readonly_ret.
Qed.

Lemma readonly_showSafetyWarnings res : readonly (SafetyChecks.showSafetyWarnings res).
Proof.
  unfold SafetyChecks.showSafetyWarnings, Prompts.confirm.
  destruct (negb _); [apply readonly_ret|]. destruct (0 <? _); [apply readonly_get|apply readonly_ret].
Qed.

Lemma getRecentCommits_fault w n :
  faults w (Git.Log n) = true → run (GitWrapper.getRecentCommits n) w = (Ok [], w).
Proof.
  intros Hf. unfold GitWrapper.getRecentCommits.
  rewrite run_catch, run_bind, run_git, Hf. destruct (repo w); reflexivity.
Qed.

(** [recordAction] leaves the repository alone; what it returns is a
    pending entry with the generated id, and the journal gains at most
    that entry. *)
Lemma recordAction_shape type description canUndo w res w1 :
  run (ActionHistory.recordAction type description canUndo) w = (res, w1) →
  repo w1 = repo w ∧ faults w1 = faults w ∧ cwd w1 = cwd w ∧
  match res with
  | Ok a =>
      RecordedAction.id a = rand w (ticks w) ∧
      RecordedAction.afterState a = None ∧ RecordedAction.undoCommand a = None ∧
      ∀ b, b ∈ journal w1 → b ∈ journal w ∨ b = a
  | Throw _ => journal w1 = journal w
  end.
Proof.
  unfold ActionHistory.recordAction.
  rewrite run_bind, run_get, run_bind. unfold ActionHistory.generateId at 1.
  unfold run at 1. simpl.
  rewrite run_bind, run_get, run_bind, (run_readonly _ _ readonly_getHeadHash).
  destruct (value GitWrapper.getHeadHash (tick w)) as [h|e].
  2:{ intros [= <- <-]. repeat split. }
  rewrite run_bind, getCurrentBranch_run, run_bind, loadHistory_run, run_bind.
  rewrite saveHistory_run, run_ret. intros [= <- <-].
  simpl. change (journal (tick w)) with (journal w).
  destruct (writable w); (split; [reflexivity|]); (split; [reflexivity|]);
    (split; [reflexivity|]); repeat split; intros b Hb.
  - rewrite journal_set_historyFile in Hb. apply slice_from_subseteq in Hb.
    apply elem_of_app in Hb as [Hb|Hb]; [left; exact Hb|right].
    apply list_elem_of_singleton in Hb. exact Hb.
  - left. exact Hb.
Qed.

Lemma reset_fails_run mode k w r :
  repo w = Some r →
  faults w (Git.Reset mode (Git.HeadTilde k)) = true
    ∨ Git.resolve r (Git.HeadTilde k) = None →
  ∃ e, run match mode with
           | Git.Soft => GitWrapper.softReset (Git.HeadTilde k)
           | Git.Mixed => GitWrapper.mixedReset (Git.HeadTilde k)
           | Git.Hard => GitWrapper.hardReset (Git.HeadTilde k)
           end w = (Throw e, w).
Proof.
  intros Hr Hfail.
  destruct mode; unfold GitWrapper.softReset, GitWrapper.mixedReset, GitWrapper.hardReset,
    git_mut, run; rewrite Hr; destruct (faults w _) eqn:Hf; try (eexists; reflexivity);
    destruct Hfail as [Hfail|Hfail]; try congruence;
    unfold Git.reset; rewrite Hfail; eexists; reflexivity.
Qed.

(** When the reset of [undoCommit] fails, the repository is untouched and
    the journal holds, besides its old entries, at most the pending entry. *)
Lemma undoCommit_failed_reset count w r :
  repo w = Some r →
  faults w (Git.Reset (answer_mode (operator w))
              (Git.HeadTilde (chosen_count count w r))) = true
    ∨ Git.resolve r (Git.HeadTilde (chosen_count count w r)) = None →
  let w' := (run (Commands.undoCommit count) w).2 in
  repo w' = Some r ∧ cwd w' = cwd w ∧
  ∀ b, b ∈ journal w' →
       b ∈ journal w ∨
       (RecordedAction.id b = rand w (ticks w) ∧
        RecordedAction.afterState b = None ∧ RecordedAction.undoCommand b = None).
Proof.
  intros Hr Hfail.
  assert (Hsame : repo w = Some r ∧ cwd w = cwd w ∧
                  ∀ b, b ∈ journal w →
                       b ∈ journal w ∨
                       (RecordedAction.id b = rand w (ticks w) ∧
                        RecordedAction.afterState b = None ∧
                        RecordedAction.undoCommand b = None)) by auto.
  unfold Commands.undoCommit.
  rewrite run_bind, isGitRepo_value. destruct (is_repository w); simpl; [|exact Hsame].
  rewrite run_bind.
  destruct (faults w (Git.Log 10)) eqn:Hlog.
  { rewrite (getRecentCommits_fault w 10 Hlog). simpl. exact Hsame. }
  rewrite (getRecentCommits_run w r 10 Hr Hlog).
  destruct (bool_decide _); [exact Hsame|].
  rewrite run_bind, chosen_count_run.
  set (k := chosen_count count w r) in *.
  rewrite run_bind. unfold Prompts.selectResetMode. rewrite run_get.
  set (mode := answer_mode (operator w)) in *.
  rewrite run_bind, (run_readonly _ _ (readonly_checkBeforeReset mode k)).
  destruct (value _ w) as [res|e]; [|exact Hsame].
  rewrite run_bind, (run_readonly _ _ (readonly_showSafetyWarnings res)).
  destruct (value _ w) as [[|]|e]; simpl; try exact Hsame.
  rewrite run_bind. unfold Prompts.confirmAction, Prompts.confirm. rewrite run_get.
  destruct (answer_confirm _ _); simpl; [|exact Hsame].
  rewrite run_bind.
  destruct (run (ActionHistory.recordAction _ _ _) w) as [[a|e] w1] eqn:Hrec;
    apply recordAction_shape in Hrec as (Hr1 & Hf1 & Hcwd1 & Hrest).
  - destruct Hrest as (Hid & Hafter & Hcmd & Hj).
    rewrite run_catch, run_bind, run_withSpinner.
    assert (Hfail1 : faults w1 (Git.Reset mode (Git.HeadTilde k)) = true
                     ∨ Git.resolve r (Git.HeadTilde k) = None)
      by (rewrite Hf1; exact Hfail).
    rewrite Hr in Hr1.
    destruct (reset_fails_run mode k w1 r Hr1 Hfail1) as [e ->].
    rewrite run_ret. simpl. split; [exact Hr1|]. split; [exact Hcwd1|].
    intros b Hb. destruct (Hj b Hb) as [?| ->]; auto.
  - simpl. rewrite Hr in Hr1. split; [exact Hr1|]. split; [exact Hcwd1|].
    intros b Hb. left. rewrite <- Hrest. exact Hb.
Qed.

(** What [recordAction] yields when the head can be read, and what is left
    of it when the mutation of [undoCommit] then fails: the entry is
    pending, its before-state is the head and branch at the time of the
    call, the repository is untouched by the recording; after a failed
    reset no entry with the new id has an after-state, and
    [getLastUndoableAction] does not return that id. *)
Theorem recordAction_pending_then_failed_mutation count w r h :
  repo w = Some r → faults w Git.RevParseHead = false → Git.HEAD r = Some h →
  rand w (ticks w) ∉ ids (journal w) →
  (∀ type description canUndo, ∃ a w1,
     run (ActionHistory.recordAction type description canUndo) w = (Ok a, w1) ∧
     RecordedAction.id a = rand w (ticks w) ∧
     RecordedAction.beforeState a =
       {| HeadState.headHash := h; HeadState.branch := current_branch w |} ∧
     RecordedAction.afterState a = None ∧ RecordedAction.undoCommand a = None ∧
     repo w1 = repo w ∧
     (writable w = true → (0 ≤ Config.maxActionHistory (config w))%Z →
      last (journal w1) = Some a)) ∧
  (faults w (Git.Reset (answer_mode (operator w))
               (Git.HeadTilde (chosen_count count w r))) = true
     ∨ Git.resolve r (Git.HeadTilde (chosen_count count w r)) = None →
   let w' := (run (Commands.undoCommit count) w).2 in
   repo w' = Some r ∧
   (∀ b, b ∈ journal w' → RecordedAction.id b = rand w (ticks w) →
         RecordedAction.afterState b = None) ∧
   (∀ b, value ActionHistory.getLastUndoableAction w' = Ok (Some b) →
         RecordedAction.id b ≠ rand w (ticks w))).
Proof.
  intros Hr Hf Hhead Hfresh. split.
  - intros type description canUndo. eexists. eexists.
    split; [apply (recordAction_run type description canUndo w r h Hr Hf Hhead)|].
    repeat split.
    + destruct (writable w); reflexivity.
    + intros -> Hmax. rewrite journal_set_historyFile.
      destruct (slice_from_snoc _ (journal w)
                  (pending w type description canUndo h) Hmax) as (d & kept & _ & ->).
      apply last_snoc.
  - intros Hfail w'.
    destruct (undoCommit_failed_reset count w r Hr Hfail) as (Hr' & Hcwd & Hj).
    fold w' in Hr', Hcwd, Hj.
    assert (Hold : ∀ b, b ∈ journal w → RecordedAction.id b ≠ rand w (ticks w)).
    { intros b Hb Heq. apply Hfresh. unfold ids. apply list_elem_of_fmap. eauto. }
    split; [exact Hr'|]. split.
    + intros b Hb Hid. destruct (Hj b Hb) as [Hin|(_ & Hafter & _)]; [|exact Hafter].
      exfalso. exact (Hold b Hin Hid).
    + intros b Hb. unfold value in Hb. rewrite getLastUndoableAction_run in Hb.
      simpl in Hb. injection Hb as Hb.
      apply find_rev_Some in Hb as (Hund & older & newer & Hsplit & _).
      assert (Hin : b ∈ journal w') by (rewrite Hsplit; apply elem_of_app; right; left).
      destruct (Hj b Hin) as [Hin'|(_ & _ & Hcmd)]; [apply Hold; exact Hin'|].
      apply undoable_inv in Hund as (_ & (c & Hc & _) & _). congruence.
Qed.

Lemma recordAction_pending_then_failed_mutation_witness :
  let w := SampleJournal.busy_world in
  let r := Samples.local_repo in
  repo w = Some r ∧ faults w Git.RevParseHead = false ∧ Git.HEAD r = Some "c3" ∧
  (rand w (ticks w) ∉ ids (journal w)) ∧
  (∀ type description canUndo, ∃ a w1,
     run (ActionHistory.recordAction type description canUndo) w = (Ok a, w1) ∧
     RecordedAction.id a = rand w (ticks w) ∧
     RecordedAction.beforeState a =
       {| HeadState.headHash := "c3"; HeadState.branch := current_branch w |} ∧
     RecordedAction.afterState a = None ∧ RecordedAction.undoCommand a = None ∧
     repo w1 = repo w ∧
     (writable w = true → (0 ≤ Config.maxActionHistory (config w))%Z →
      last (journal w1) = Some a)) ∧
  (faults w (Git.Reset (answer_mode (operator w))
               (Git.HeadTilde (chosen_count (Some 3) w r))) = true
     ∨ Git.resolve r (Git.HeadTilde (chosen_count (Some 3) w r)) = None →
   let w' := (run (Commands.undoCommit (Some 3)) w).2 in
   repo w' = Some r ∧
   (∀ b, b ∈ journal w' → RecordedAction.id b = rand w (ticks w) →
         RecordedAction.afterState b = None) ∧
   (∀ b, value ActionHistory.getLastUndoableAction w' = Ok (Some b) →
         RecordedAction.id b ≠ rand w (ticks w))).
Proof.
  intros w r.
  assert (Hr : repo w = Some r) by reflexivity.
  assert (Hf : faults w Git.RevParseHead = false) by reflexivity.
  assert (Hhead : Git.HEAD r = Some "c3") by reflexivity.
  assert (Hfresh : rand w (ticks w) ∉ ids (journal w))
    by (apply (proj1 (bool_decide_eq_false _)); reflexivity).
  repeat (split; [assumption|]).
  apply (recordAction_pending_then_failed_mutation (Some 3) w r "c3" Hr Hf Hhead Hfresh).
Defined.

Example undoCommit_three_of_three_fails :
  let w := SampleJournal.busy_world in
  let w' := (run (Commands.undoCommit (Some 3)) w).2 in
  Git.resolve Samples.local_repo (Git.HeadTilde 3) = None ∧
  Git.HEAD <$> repo w' = Some (Some "c3") ∧
  (RecordedAction.afterState <$> last (journal w')) = Some None ∧
  length (journal w') = 4.
Proof. repeat split. Qed.

(** C6, on the failing input. In a repository without commits
    [git rev-parse HEAD] fails, [getHeadHash] lets the failure through, and
    [recordAction] throws: no entry is produced and the journal is as
    before. *)
Theorem recordAction_unborn_head_raises :
  let w := Samples.world_of Samples.unborn_repo in
  ∃ e w1,
    run (ActionHistory.recordAction clean_untracked "Clean 1 untracked file(s)" false) w
      = (Throw e, w1) ∧
    journal w1 = journal w ∧ journal w1 = [] ∧
    value GitWrapper.getCurrentBranch w = Ok None.
Proof. intros w. eexists. eexists. repeat split. Qed.

(** ** Consumed entries stay consumed *)

Lemma completeAction_shape a w res w1 :
  run (ActionHistory.completeAction a) w = (res, w1) →
  ∀ b, b ∈ journal w1 → b ∈ journal w ∨ RecordedAction.id b = RecordedAction.id a.
Proof.
  unfold ActionHistory.completeAction.
  rewrite run_bind, (run_readonly _ _ readonly_getHeadHash).
  destruct (value GitWrapper.getHeadHash w) as [t|e]; [|intros [= _ <-]; auto].
  rewrite run_bind, getCurrentBranch_run, run_bind, loadHistory_run.
  fold (completed a t (current_branch w)). rewrite completed_id.
  destruct (Js.findIndex _ (journal w)) as [i|]; [|rewrite run_ret; intros [= _ <-]; auto].
  rewrite saveHistory_run. intros [= _ <-] b Hb.
  destruct (writable w); [|auto].
  rewrite journal_set_historyFile in Hb. apply slice_from_subseteq in Hb.
  apply list_elem_of_lookup in Hb as [j Hj].
  destruct (decide (j = i)) as [->|Hne].
  - right. apply list_lookup_insert_Some in Hj as [(_ & <- & _)|(Hne & _)];
      [apply completed_id|contradiction].
  - left. rewrite list_lookup_insert_ne in Hj by auto.
    apply list_elem_of_lookup. eauto.
Qed.

Lemma undoLastAction_shape w res w1 :
  run ActionHistory.undoLastAction w = (res, w1) →
  ∀ b, b ∈ journal w1 →
       ∃ b0, b0 ∈ journal w ∧ RecordedAction.id b = RecordedAction.id b0 ∧
             (b = b0 ∨ RecordedAction.canUndo b = false).
Proof.
  assert (Hsame : ∀ b, b ∈ journal w →
            ∃ b0, b0 ∈ journal w ∧ RecordedAction.id b = RecordedAction.id b0 ∧
                  (b = b0 ∨ RecordedAction.canUndo b = false)) by eauto.
  unfold ActionHistory.undoLastAction.
  rewrite run_bind, getLastUndoableAction_run.
  destruct (List.find _ _) as [a|]; [|intros [= _ <-]; exact Hsame].
  destruct (negb _); [intros [= _ <-]; exact Hsame|].
  rewrite run_catch, run_bind.
  destruct (run (GitWrapper.hardReset _) w) as [[[]|e] w0] eqn:Hreset.
  - assert (Hw0 : historyFile w0 = historyFile w).
    { unfold GitWrapper.hardReset, git_mut, run in Hreset.
      destruct (repo w); [|discriminate]. destruct (faults w _); [discriminate|].
      destruct (Git.reset _ _ _); [|discriminate]. injection Hreset as <-. reflexivity. }
    assert (Hj : journal w0 = journal w) by (unfold journal; rewrite Hw0; reflexivity).
    rewrite run_bind, loadHistory_run, run_bind, Hj.
    destruct (Js.findIndex _ (journal w)) as [i|].
    + rewrite saveHistory_run, run_ret. intros [= _ <-] b Hb.
      destruct (writable w0); [|rewrite Hj in Hb; auto].
      rewrite journal_set_historyFile in Hb. apply slice_from_subseteq in Hb.
      apply list_elem_of_lookup in Hb as [j Hjb].
      destruct (decide (j = i)) as [->|Hne].
      * rewrite list_lookup_alter_eq in Hjb.
        destruct (journal w !! i) as [b0|] eqn:Hb0; [|discriminate].
        injection Hjb as <-. exists b0. split; [apply list_elem_of_lookup; eauto|].
        split; [reflexivity|right; reflexivity].
      * rewrite list_lookup_alter_ne in Hjb by auto.
        exists b. split; [apply list_elem_of_lookup; eauto|]. auto.
    + rewrite run_ret, run_ret. intros [= _ <-] b Hb. rewrite Hj in Hb. auto.
  - assert (Hw0 : historyFile w0 = historyFile w).
    { unfold GitWrapper.hardReset, git_mut, run in Hreset.
      destruct (repo w); [|injection Hreset as _ <-; reflexivity].
      destruct (faults w _); [injection Hreset as _ <-; reflexivity|].
      destruct (Git.reset _ _ _); [discriminate|]. injection Hreset as _ <-. reflexivity. }
    rewrite run_ret. intros [= _ <-] b Hb. unfold journal in Hb. rewrite Hw0 in Hb. auto.
Qed.

Lemma consumed_later i w w' : consumed i w → later i w w' → consumed i w'.
Proof.
  intros Hc Hl. induction Hl as [w|w w1 w2 ty d cu res _ IH Hid Hrun
                                  |w w1 w2 a res _ IH Hid Hrun
                                  |w w1 w2 res _ IH Hrun|w w1 r _ IH].
  - exact Hc.
  - specialize (IH Hc). apply recordAction_shape in Hrun as (_ & _ & _ & Hrest).
    intros b Hb Hbi. destruct res as [a|e].
    + destruct Hrest as (Ha & _ & _ & Hj). destruct (Hj b Hb) as [Hin| ->].
      * exact (IH b Hin Hbi).
      * congruence.
    + rewrite Hrest in Hb. exact (IH b Hb Hbi).
  - specialize (IH Hc). intros b Hb Hbi.
    destruct (completeAction_shape a w1 res w2 Hrun b Hb) as [Hin|Heq].
    + exact (IH b Hin Hbi).
    + congruence.
  - specialize (IH Hc). intros b Hb Hbi.
    destruct (undoLastAction_shape w1 res w2 Hrun b Hb) as (b0 & Hin & Heq & [->|Hfalse]).
    + exact (IH b0 Hin Hbi).
    + exact Hfalse.
  - specialize (IH Hc). exact IH.
Qed.

Lemma consumed_not_returned i w b :
  consumed i w → value ActionHistory.getLastUndoableAction w = Ok (Some b) →
  RecordedAction.id b ≠ i.
Proof.
  intros Hc Hb Hid. unfold value in Hb. rewrite getLastUndoableAction_run in Hb.
  simpl in Hb. injection Hb as Hb.
  apply find_rev_Some in Hb as (Hund & older & newer & Hsplit & _).
  assert (Hin : b ∈ journal w) by (rewrite Hsplit; apply elem_of_app; right; left).
  apply undoable_inv in Hund as (Hcan & _). rewrite (Hc b Hin Hid) in Hcan. discriminate.
Qed.

Lemma undoLastAction_consumes w a msg w' :
  NoDup (ids (journal w)) → writable w = true →
  value ActionHistory.getLastUndoableAction w = Ok (Some a) →
  run ActionHistory.undoLastAction w = (Ok (true, msg), w') →
  consumed (RecordedAction.id a) w'.
Proof.
  intros Hnd Hw Ha Hrun.
  destruct (undoLastAction_success w msg w' Hnd Hw Hrun) as (a' & Ha' & _ & Hj).
  rewrite Ha in Ha'. injection Ha' as <-.
  intros b Hb Hid. destruct (Hj b Hb) as [->|[_ Hne]]; [reflexivity|contradiction].
Qed.

Lemma undoLastAction_succeeds w a r :
  value ActionHistory.getLastUndoableAction w = Ok (Some a) → repo w = Some r →
  HeadState.headHash (RecordedAction.beforeState a) ≠ EmptyString →
  HeadState.headHash (RecordedAction.beforeState a) ∈ Git.hashes (Git.objects r) →
  faults w (Git.Reset Git.Hard
              (Git.Object (HeadState.headHash (RecordedAction.beforeState a)))) = false →
  ∃ msg w', run ActionHistory.undoLastAction w = (Ok (true, msg), w').
Proof.
  intros Ha Hr Hne Hin Hf.
  unfold value in Ha. rewrite getLastUndoableAction_run in Ha. simpl in Ha.
  injection Ha as Hfind.
  destruct (hashes_lookup_commit _ _ Hin) as [c Hc].
  unfold ActionHistory.undoLastAction.
  rewrite run_bind, getLastUndoableAction_run, Hfind.
  assert (Htruthy : Js.truthy (HeadState.headHash (RecordedAction.beforeState a)) = true).
  { unfold Js.truthy. rewrite bool_decide_eq_false_2 by exact Hne. reflexivity. }
  rewrite Htruthy. cbn [negb].
  destruct (hardReset_run w r _ c Hr Hf Hc) as (r2 & Hreset & _).
  rewrite run_catch, run_bind, Hreset, run_bind, loadHistory_run, run_bind.
  destruct (Js.findIndex _ _).
  - rewrite saveHistory_run, run_ret. eexists _, _. reflexivity.
  - rewrite !run_ret. eexists _, _. reflexivity.
Qed.

(** C7, as amended. [getLastUndoableAction] returns the newest journal
    entry that is flagged undoable, carries an undo command and was recorded
    for the current directory, or nothing when no entry qualifies. When the
    journal ids are unique and the journal file can be written, and the
    commit recorded before the returned action exists and git resets to it,
    [undoLastAction] succeeds, and the consumed id is not returned by the
    next call, nor by any call after further journal operations. *)
Theorem getLastUndoableAction_newest_and_consumed w a r :
  NoDup (ids (journal w)) → writable w = true →
  value ActionHistory.getLastUndoableAction w = Ok (Some a) →
  repo w = Some r →
  HeadState.headHash (RecordedAction.beforeState a) ≠ EmptyString →
  HeadState.headHash (RecordedAction.beforeState a) ∈ Git.hashes (Git.objects r) →
  faults w (Git.Reset Git.Hard
              (Git.Object (HeadState.headHash (RecordedAction.beforeState a)))) = false →
  (∀ w0 a0, value ActionHistory.getLastUndoableAction w0 = Ok (Some a0) →
     RecordedAction.canUndo a0 = true ∧
     (∃ c, RecordedAction.undoCommand a0 = Some c ∧ c ≠ EmptyString) ∧
     RecordedAction.repoPath a0 = cwd w0 ∧
     ∃ older newer, journal w0 = (older ++ a0 :: newer)%list ∧
       Forall (λ b, ActionHistory.undoable (cwd w0) b = false) newer) ∧
  (∀ w0, value ActionHistory.getLastUndoableAction w0 = Ok None ↔
     Forall (λ b, ActionHistory.undoable (cwd w0) b = false) (journal w0)) ∧
  ∃ msg w',
    run ActionHistory.undoLastAction w = (Ok (true, msg), w') ∧
    ∀ w'', later (RecordedAction.id a) w' w'' →
    ∀ b, value ActionHistory.getLastUndoableAction w'' = Ok (Some b) →
         RecordedAction.id b ≠ RecordedAction.id a.
Proof.
  intros Hnd Hw Ha Hr Hne Hin Hf. split; [|split].
  - intros w0 a0. unfold value. rewrite getLastUndoableAction_run. simpl. intros [= Hfind].
    apply find_rev_Some in Hfind as (Hund & Hsplit).
    apply undoable_inv in Hund as (H1 & H2 & H3). auto.
  - intros w0. unfold value. rewrite getLastUndoableAction_run. simpl.
    rewrite <- find_rev_None.
    split; [intros [= ->]; reflexivity|intros ->; reflexivity].
  - destruct (undoLastAction_succeeds w a r Ha Hr Hne Hin Hf) as (msg & w' & Hrun).
    exists msg, w'. split; [exact Hrun|].
    intros w'' Hlater b Hb.
    apply (consumed_not_returned _ w'' b); [|exact Hb].
    apply (consumed_later _ w' w''); [|exact Hlater].
    apply (undoLastAction_consumes w a msg w' Hnd Hw Ha Hrun).
Qed.

Lemma getLastUndoableAction_newest_and_consumed_witness :
  let w := SampleJournal.busy_world in
  let a := SampleJournal.entry "c" "c2" "c3" in
  let r := Samples.local_repo in
  NoDup (ids (journal w)) ∧ writable w = true ∧
  value ActionHistory.getLastUndoableAction w = Ok (Some a) ∧
  repo w = Some r ∧
  HeadState.headHash (RecordedAction.beforeState a) ≠ EmptyString ∧
  HeadState.headHash (RecordedAction.beforeState a) ∈ Git.hashes (Git.objects r) ∧
  faults w (Git.Reset Git.Hard
              (Git.Object (HeadState.headHash (RecordedAction.beforeState a)))) = false ∧
  (∀ w0 a0, value ActionHistory.getLastUndoableAction w0 = Ok (Some a0) →
     RecordedAction.canUndo a0 = true ∧
     (∃ c, RecordedAction.undoCommand a0 = Some c ∧ c ≠ EmptyString) ∧
     RecordedAction.repoPath a0 = cwd w0 ∧
     ∃ older newer, journal w0 = (older ++ a0 :: newer)%list ∧
       Forall (λ b, ActionHistory.undoable (cwd w0) b = false) newer) ∧
  (∀ w0, value ActionHistory.getLastUndoableAction w0 = Ok None ↔
     Forall (λ b, ActionHistory.undoable (cwd w0) b = false) (journal w0)) ∧
  ∃ msg w',
    run ActionHistory.undoLastAction w = (Ok (true, msg), w') ∧
    ∀ w'', later (RecordedAction.id a) w' w'' →
    ∀ b, value ActionHistory.getLastUndoableAction w'' = Ok (Some b) →
         RecordedAction.id b ≠ RecordedAction.id a.
Proof.
  intros w a r.
  assert (Hnd : NoDup (ids (journal w)))
    by (apply (bool_decide_unpack _); vm_compute; exact I).
  assert (Hw : writable w = true) by reflexivity.
  assert (Ha : value ActionHistory.getLastUndoableAction w = Ok (Some a)) by reflexivity.
  assert (Hr : repo w = Some r) by reflexivity.
  assert (Hne : HeadState.headHash (RecordedAction.beforeState a) ≠ EmptyString)
    by discriminate.
  assert (Hin : HeadState.headHash (RecordedAction.beforeState a)
                  ∈ Git.hashes (Git.objects r))
    by (apply (bool_decide_unpack _); vm_compute; exact I).
  assert (Hf : faults w (Git.Reset Git.Hard
                 (Git.Object (HeadState.headHash (RecordedAction.beforeState a)))) = false)
    by reflexivity.
  repeat (split; [assumption|]).
  apply (getLastUndoableAction_newest_and_consumed w a r Hnd Hw Ha Hr Hne Hin Hf).
Defined.

(** C7, counterexample. The journal file cannot be written. The scan
    offers the entry with id [c]; [undoLastAction] resets the head and
    reports success, but the entry keeps its flag, and the next scan offers
    the same id again. *)
Lemma undoLastAction_unwritable_counterexample :
  let w := locked_world in
  let w' := (run ActionHistory.undoLastAction w).2 in
  value ActionHistory.getLastUndoableAction w
    = Ok (Some (SampleJournal.entry "c" "c2" "c3")) ∧
  (∃ msg, value ActionHistory.undoLastAction w = Ok (true, msg)) ∧
  Git.HEAD <$> repo w' = Some (Some "c2") ∧
  value ActionHistory.getLastUndoableAction w'
    = Ok (Some (SampleJournal.entry "c" "c2" "c3")).
Proof.
  intros w w'. split; [reflexivity|]. split; [eexists; reflexivity|].
  split; reflexivity.
Qed.

Example undoLastAction_twice :
  let w := SampleJournal.busy_world in
  let w1 := (run ActionHistory.undoLastAction w).2 in
  value ActionHistory.getLastUndoableAction w
    = Ok (Some (SampleJournal.entry "c" "c2" "c3")) ∧
  value ActionHistory.getLastUndoableAction w1
    = Ok (Some (SampleJournal.entry "b" "c2" "c3")).
Proof. split; reflexivity. Qed.

(** ** An undo without a target *)

(** When [HEAD~k] does not exist the undo fails and the head stays; if the
    journal held no undoable entry for the directory, [undoLastAction] then
    finds nothing to undo and the head still stays. *)
Lemma undo_without_target_keeps_head count w r h :
  repo w = Some r → Git.HEAD r = Some h →
  Git.resolve r (Git.HeadTilde (chosen_count count w r)) = None →
  Forall (λ b, ActionHistory.undoable (cwd w) b = false) (journal w) →
  let w1 := (run (Commands.undoCommit count) w).2 in
  ∃ msg, run ActionHistory.undoLastAction w1 = (Ok (false, msg), w1) ∧
         Git.HEAD <$> repo w1 = Some (Some h).
Proof.
  intros Hr Hhead Hres Hnone w1.
  destruct (undoCommit_failed_reset count w r Hr (or_intror Hres)) as (Hr1 & Hcwd & Hj).
  fold w1 in Hr1, Hcwd, Hj.
  assert (Hfind : List.find (ActionHistory.undoable (cwd w1)) (rev (journal w1)) = None).
  { apply find_rev_None, Forall_forall. intros b Hb. rewrite Hcwd.
    destruct (Hj b Hb) as [Hin|(_ & _ & Hcmd)].
    - rewrite Forall_forall in Hnone. exact (Hnone b Hin).
    - unfold ActionHistory.undoable. rewrite Hcmd. simpl.
      rewrite andb_false_r. reflexivity. }
  unfold ActionHistory.undoLastAction.
  rewrite run_bind, getLastUndoableAction_run, Hfind, run_ret.
  eexists. split; [reflexivity|]. rewrite Hr1. simpl. rewrite Hhead. reflexivity.
Qed.

(** * Further properties *)

(** ** detectIssues: which codes can occur together *)

Lemma codes_app l1 l2 : codes (l1 ++ l2) = (codes l1 ++ codes l2)%list.
Proof. apply fmap_app. Qed.

Lemma codes_push_if_sublist b i :
  sublist (codes (StateDetector.push_if b i)) [RepoIssue.code i].
Proof. destruct b; cbn; [reflexivity | apply sublist_nil_l]. Qed.

Lemma elem_of_codes c issues : c ∈ codes issues ↔ has_code c issues.
Proof.
  unfold codes, has_code. rewrite list_elem_of_fmap. split.
  - intros (i & -> & Hi). eauto.
  - intros (i & Hi & <-). eauto.
Qed.

Lemma detectIssues_has_code context c :
  has_code c (StateDetector.detectIssues context) ↔
    (c = "DETACHED_HEAD" ∧ DetectionContext.isDetachedHead context = true) ∨
    (c = "ONGOING_OPERATION" ∧ is_Some (DetectionContext.ongoingOperation context)) ∨
    (c = "HAS_CONFLICTS" ∧ DetectionContext.conflictedFiles context ≠ [] ∧
       DetectionContext.ongoingOperation context = None) ∨
    (c = "NO_COMMITS" ∧ DetectionContext.lastCommit context = None) ∨
    (c = "UNPUSHED_COMMITS" ∧
       ∃ status, DetectionContext.status context = Some status ∧ 0 < GitStatus.ahead status) ∨
    (c = "BEHIND_REMOTE" ∧
       ∃ status, DetectionContext.status context = Some status ∧ 0 < GitStatus.behind status) ∨
    (c = "UNSTAGED_CHANGES" ∧ DetectionContext.hasUncommittedChanges context = true ∧
       DetectionContext.hasStagedChanges context = false) ∨
    (c = "STAGED_CHANGES" ∧ DetectionContext.hasStagedChanges context = true).
Proof.
  unfold StateDetector.detectIssues. cbv zeta.
  rewrite !has_code_app, !has_code_push_if.
  assert (Hop : has_code c
            match DetectionContext.ongoingOperation context with
            | Some op =>
                [ {| RepoIssue.type := warning;
                     RepoIssue.code := "ONGOING_OPERATION";
                     RepoIssue.message := StateDetector.operationNames op +:+ " in progress";
                     RepoIssue.suggestion :=
                       Some (if 0 <? length (DetectionContext.conflictedFiles context)
                             then "Resolve "
                                  +:+ Js.num (length (DetectionContext.conflictedFiles context))
                                  +:+ " conflict(s) or abort"
                             else "Continue or abort the operation") |} ]
            | None => []
            end ↔ c = "ONGOING_OPERATION" ∧ is_Some (DetectionContext.ongoingOperation context)).
  { destruct (DetectionContext.ongoingOperation context).
    - rewrite has_code_singleton. cbn. split; [intros <-; eauto | intros [-> _]; reflexivity].
    - rewrite has_code_nil. split; [tauto | intros [_ [? ?]]; discriminate]. }
  rewrite Hop. clear Hop.
  rewrite andb_true_iff, negb_true_iff, bool_decide_eq_false, nonempty_length.
  rewrite negb_true_iff, bool_decide_eq_false.
  rewrite andb_true_iff, negb_true_iff.
  rewrite <- !eq_None_not_Some.
  assert (Ha : ∀ f, match DetectionContext.status context with
               | Some status => 0 <? f status
               | None => false
               end = true ↔
               ∃ status, DetectionContext.status context = Some status ∧ 0 < f status).
  { intros f. destruct (DetectionContext.status context) as [st|].
    - rewrite Nat.ltb_lt. split; [eauto | intros (? & [= <-] & ?); assumption].
    - split; [discriminate | intros (? & ? & _); discriminate]. }
  rewrite !Ha. cbn [RepoIssue.code].
  split; intros H; repeat (destruct H as [H|H]); destruct H as [H1 H2]; subst;
    tauto.
Qed.

(** X1. The codes [detectIssues] reports follow the order of its checks
    without repetition, and two pairs exclude each other: HAS_CONFLICTS
    with ONGOING_OPERATION, and UNSTAGED_CHANGES with STAGED_CHANGES. *)
Theorem detectIssues_codes_in_order (context : DetectionContext.t) :
  let reported := codes (StateDetector.detectIssues context) in
  sublist reported issueCodes ∧ NoDup reported ∧
  ¬ ("HAS_CONFLICTS" ∈ reported ∧ "ONGOING_OPERATION" ∈ reported) ∧
  ¬ ("UNSTAGED_CHANGES" ∈ reported ∧ "STAGED_CHANGES" ∈ reported).
Proof.
  intros reported.
  assert (Hsub : sublist reported issueCodes).
  { subst reported. unfold StateDetector.detectIssues. cbv zeta.
    rewrite !codes_app.
    change issueCodes with
      (["DETACHED_HEAD"] ++ ["ONGOING_OPERATION"] ++ ["HAS_CONFLICTS"] ++ ["NO_COMMITS"]
       ++ ["UNPUSHED_COMMITS"] ++ ["BEHIND_REMOTE"] ++ ["UNSTAGED_CHANGES"]
       ++ ["STAGED_CHANGES"])%list.
    repeat apply sublist_app; try apply codes_push_if_sublist.
    destruct (DetectionContext.ongoingOperation context); cbn;
      [reflexivity | apply sublist_nil_l]. }
  split; [exact Hsub|]. split.
  { eapply sublist_NoDup; [|exact Hsub]. apply (bool_decide_unpack _). vm_compute. exact I. }
  subst reported. split.
  - intros [H1 H2]. apply elem_of_codes, detectIssues_has_code in H1, H2.
    destruct H1 as [[E _]|[[E _]|[[_ [_ K1]]|[[E _]|[[E _]|[[E _]|[[E _]|[E _]]]]]]]];
      try discriminate.
    destruct H2 as [[E _]|[[_ K2]|[[E _]|[[E _]|[[E _]|[[E _]|[[E _]|[E _]]]]]]]];
      try discriminate.
    rewrite K1 in K2. destruct K2; discriminate.
  - intros [H1 H2]. apply elem_of_codes, detectIssues_has_code in H1, H2.
    destruct H1 as [[E _]|[[E _]|[[E _]|[[E _]|[[E _]|[[E _]|[[_ [_ K1]]|[E _]]]]]]]];
      try discriminate.
    destruct H2 as [[E _]|[[E _]|[[E _]|[[E _]|[[E _]|[[E _]|[[E _]|[_ K2]]]]]]]];
      try discriminate.
    congruence.
Qed.

(** ** detectRepoState: the snapshot *)

Lemma catch_ret_total {A} (m : M A) (d : A) w :
  readonly m → ∃ a, run (catch m (λ _, ret d)) w = (Ok a, w).
Proof.
  intros Hm. rewrite run_catch. rewrite (run_readonly m w Hm).
  destruct (value m w); eauto.
Qed.

Lemma isDetachedHead_run w :
  run GitWrapper.isDetachedHead w =
  (Ok (bool_decide (current_branch w = Some "HEAD")), w).
Proof.
  unfold current_branch, value, run, GitWrapper.isDetachedHead,
    GitWrapper.getCurrentBranch, catch, bind, git, ret.
  destruct (repo w) as [r|]; cbn; [|reflexivity].
  destruct (faults w Git.RevParseAbbrevRefHead); cbn; [reflexivity|].
  destruct (GitWrapper.abbrev_ref r) as [b|e]; cbn; [|reflexivity].
  do 2 f_equal. apply bool_decide_ext. split; congruence.
Qed.

Lemma getStatus_value_ro w : run GitWrapper.getStatus w = (value GitWrapper.getStatus w, w).
Proof. apply run_readonly, readonly_getStatus. Qed.

Lemma hasUncommittedChanges_of_status w :
  run GitWrapper.hasUncommittedChanges w =
  (match value GitWrapper.getStatus w with
   | Ok status => Ok ((0 <? length (GitStatus.staged status))
                      || (0 <? length (GitStatus.modified status)))
   | Throw e => Throw e
   end, w).
Proof.
  unfold GitWrapper.hasUncommittedChanges. rewrite run_bind, getStatus_value_ro.
  destruct (value GitWrapper.getStatus w); reflexivity.
Qed.

Lemma hasStagedChanges_of_status w :
  run GitWrapper.hasStagedChanges w =
  (match value GitWrapper.getStatus w with
   | Ok status => Ok (0 <? length (GitStatus.staged status))
   | Throw e => Throw e
   end, w).
Proof.
  unfold GitWrapper.hasStagedChanges. rewrite run_bind, getStatus_value_ro.
  destruct (value GitWrapper.getStatus w); reflexivity.
Qed.

Lemma hasRemote_total w : ∃ b, run GitWrapper.hasRemote w = (Ok b, w).
Proof. apply catch_ret_total. readonly. Qed.

Lemma getRecentCommits_total n w : ∃ l, run (GitWrapper.getRecentCommits n) w = (Ok l, w).
Proof. apply catch_ret_total. readonly. Qed.

Lemma getLastCommit_total w : ∃ c, run GitWrapper.getLastCommit w = (Ok c, w).
Proof.
  unfold GitWrapper.getLastCommit. rewrite run_bind.
  destruct (getRecentCommits_total 1 w) as [l ->]. eauto.
Qed.

Lemma getOngoingOperation_total w : ∃ o, run GitWrapper.getOngoingOperation w = (Ok o, w).
Proof. apply catch_ret_total. readonly. Qed.

Lemma getConflictedFiles_total w : ∃ l, run GitWrapper.getConflictedFiles w = (Ok l, w).
Proof. apply catch_ret_total. readonly. Qed.

Lemma getStashList_total w : ∃ l, run GitWrapper.getStashList w = (Ok l, w).
Proof. apply catch_ret_total. readonly. Qed.

(** What the batch of ten queries returns, in any world. *)
Lemma queryBatch_run w :
  ∃ hasRemote lastCommit ongoing conflicted stashList,
    run GitWrapper.hasRemote w = (Ok hasRemote, w) ∧
    run GitWrapper.getLastCommit w = (Ok lastCommit, w) ∧
    run GitWrapper.getOngoingOperation w = (Ok ongoing, w) ∧
    run GitWrapper.getConflictedFiles w = (Ok conflicted, w) ∧
    run GitWrapper.getStashList w = (Ok stashList, w) ∧
    run StateDetector.queryBatch w =
    (match value GitWrapper.getStatus w with
     | Ok status =>
         Ok (current_branch w,
             ((0 <? length (GitStatus.staged status))
              || (0 <? length (GitStatus.modified status)),
              (0 <? length (GitStatus.staged status),
               (hasRemote, (lastCommit, (status,
                 (bool_decide (current_branch w = Some "HEAD"),
                  (ongoing, (conflicted, stashList)))))))))
     | Throw e => Throw e
     end, w).
Proof.
  destruct (hasRemote_total w) as [hr Hhr], (getLastCommit_total w) as [lc Hlc],
    (getOngoingOperation_total w) as [oo Hoo], (getConflictedFiles_total w) as [cf Hcf],
    (getStashList_total w) as [sl Hsl].
  exists hr, lc, oo, cf, sl. repeat (split; [assumption|]).
  unfold StateDetector.queryBatch.
  rewrite run_both, getCurrentBranch_run. cbv beta iota.
  rewrite run_both, hasUncommittedChanges_of_status. cbv beta iota.
  rewrite run_both, hasStagedChanges_of_status. cbv beta iota.
  rewrite run_both, Hhr. cbv beta iota.
  rewrite run_both, Hlc. cbv beta iota.
  rewrite run_both, getStatus_value_ro. cbv beta iota.
  rewrite run_both, isDetachedHead_run. cbv beta iota.
  rewrite run_both, Hoo. cbv beta iota.
  rewrite run_both, Hcf, Hsl. cbv beta iota.
  destruct (value GitWrapper.getStatus w); reflexivity.
Qed.



Lemma hasRemote_run w r :
  repo w = Some r → faults w Git.GetRemotes = false →
  run GitWrapper.hasRemote w = (Ok (0 <? length (Git.remotes r)), w).
Proof.
  intros Hr Hf. unfold GitWrapper.hasRemote.
  rewrite run_catch, run_bind, run_git, Hr, Hf. reflexivity.
Qed.

Lemma getLastCommit_run w r :
  repo w = Some r → faults w (Git.Log 1) = false →
  run GitWrapper.getLastCommit w = (Ok (head (candidates r 1)), w).
Proof.
  intros Hr Hf. unfold GitWrapper.getLastCommit.
  rewrite run_bind, (getRecentCommits_run w r 1 Hr Hf). reflexivity.
Qed.

Lemma getOngoingOperation_run w r :
  repo w = Some r → faults w Git.RevParseGitDir = false →
  run GitWrapper.getOngoingOperation w = (Ok (ongoing_of r), w).
Proof.
  intros Hr Hf. unfold GitWrapper.getOngoingOperation, ongoing_of.
  rewrite run_catch, run_bind, run_git, Hr, Hf.
  destruct (Git.MERGE_HEAD r); [reflexivity|].
  destruct (Git.rebase_merge r || Git.rebase_apply r); [reflexivity|].
  destruct (Git.CHERRY_PICK_HEAD r); [reflexivity|].
  destruct (Git.BISECT_LOG r); reflexivity.
Qed.

Lemma getConflictedFiles_run w r :
  repo w = Some r → faults w Git.DiffUnmerged = false →
  run GitWrapper.getConflictedFiles w = (Ok (Git.conflicted r), w).
Proof.
  intros Hr Hf. unfold GitWrapper.getConflictedFiles.
  rewrite run_catch, run_git, Hr, Hf. reflexivity.
Qed.

Lemma getStashList_run w r :
  repo w = Some r → faults w Git.StashList = false →
  ∃ l, run GitWrapper.getStashList w = (Ok l, w) ∧ length l = length (Git.stashes r).
Proof.
  intros Hr Hf. unfold GitWrapper.getStashList.
  rewrite run_catch, run_bind, run_git, Hr, Hf.
  eexists. split; [reflexivity|]. apply length_imap.
Qed.

Lemma current_branch_healthy w r :
  repo w = Some r → faults w Git.RevParseAbbrevRefHead = false →
  current_branch w =
  match Git.HEAD r with
  | Some _ => Some (default "HEAD" (Git.current r))
  | None => None
  end.
Proof.
  intros Hr Hf.
  unfold current_branch, value, GitWrapper.getCurrentBranch.
  rewrite run_catch, run_bind, run_git, Hr, Hf.
  unfold GitWrapper.abbrev_ref. destruct (Git.HEAD r); reflexivity.
Qed.

Lemma ongoing_of_marker r : is_Some (ongoing_of r) ↔ marker r = true.
Proof.
  unfold ongoing_of, marker.
  destruct (Git.MERGE_HEAD r), (Git.rebase_merge r), (Git.rebase_apply r),
    (Git.CHERRY_PICK_HEAD r), (Git.BISECT_LOG r); cbn;
    (split; [reflexivity || (intros [? ?]; discriminate) | eauto || discriminate]).
Qed.

Lemma head_candidates_None r : head (candidates r 1) = None ↔ Git.commit_count r = 0.
Proof.
  unfold candidates, Git.commit_count.
  destruct (Git.history r); cbn; split; (reflexivity || discriminate).
Qed.

(** X3. In a repository where git answers, the snapshot of
    [detectRepoState] carries each issue code exactly when the repository
    is in the corresponding condition. *)
Theorem detectRepoState_reports w r :
  repo w = Some r → healthy w →
  ∃ s, run StateDetector.detectRepoState w = (Ok s, w) ∧
    RepoState.isGitRepo s = true ∧
    RepoState.status s = Some (status_of r) ∧
    RepoState.lastCommit s = head (candidates r 1) ∧
    RepoState.ongoingOperation s = ongoing_of r ∧
    RepoState.conflictedFiles s = Git.conflicted r ∧
    RepoState.stashCount s = length (Git.stashes r) ∧
    RepoState.hasRemote s = (0 <? length (Git.remotes r)) ∧
    (has_code "DETACHED_HEAD" (RepoState.issues s) ↔ detached r) ∧
    (has_code "ONGOING_OPERATION" (RepoState.issues s) ↔ marker r = true) ∧
    (has_code "HAS_CONFLICTS" (RepoState.issues s) ↔
       Git.conflicted r ≠ [] ∧ marker r = false) ∧
    (has_code "NO_COMMITS" (RepoState.issues s) ↔ Git.commit_count r = 0) ∧
    (has_code "UNPUSHED_COMMITS" (RepoState.issues s) ↔ 0 < Git.ahead r) ∧
    (has_code "BEHIND_REMOTE" (RepoState.issues s) ↔ 0 < Git.behind r) ∧
    (has_code "UNSTAGED_CHANGES" (RepoState.issues s) ↔
       Git.staged r = [] ∧ Git.modified r ≠ []) ∧
    (has_code "STAGED_CHANGES" (RepoState.issues s) ↔ Git.staged r ≠ []).
Proof.
  intros Hr Hh.
  unfold StateDetector.detectRepoState.
  rewrite run_catch, run_bind, (isGitRepo_run w r Hr (Hh _)). cbn [negb].
  destruct (queryBatch_run w) as (hr & lc & oo & cf & sl & Hhr & Hlc & Hoo & Hcf & Hsl & Hq).
  rewrite (hasRemote_run w r Hr (Hh _)) in Hhr.
  rewrite (getLastCommit_run w r Hr (Hh _)) in Hlc.
  rewrite (getOngoingOperation_run w r Hr (Hh _)) in Hoo.
  rewrite (getConflictedFiles_run w r Hr (Hh _)) in Hcf.
  destruct (getStashList_run w r Hr (Hh _)) as (sl' & Hsl' & Hlen).
  rewrite Hsl' in Hsl.
  injection Hhr as <-. injection Hlc as <-. injection Hoo as <-.
  injection Hcf as <-. injection Hsl as <-.
  assert (Hst : value GitWrapper.getStatus w = Ok (status_of r)).
  { unfold value. rewrite (getStatus_run w r Hr (Hh _)). reflexivity. }
  rewrite run_bind, Hq, Hst.
  eexists. split; [reflexivity|]. cbn [RepoState.isGitRepo RepoState.status
    RepoState.lastCommit RepoState.ongoingOperation RepoState.conflictedFiles
    RepoState.stashCount RepoState.hasRemote RepoState.issues].
  do 7 (split; [reflexivity || assumption|]).
  rewrite !detectIssues_has_code.
  cbn [DetectionContext.isDetachedHead DetectionContext.ongoingOperation
       DetectionContext.conflictedFiles DetectionContext.lastCommit
       DetectionContext.status DetectionContext.hasUncommittedChanges
       DetectionContext.hasStagedChanges status_of GitStatus.staged GitStatus.modified
       GitStatus.ahead GitStatus.behind].
  rewrite (current_branch_healthy w r Hr (Hh _)).
  pose proof (ongoing_of_marker r) as Hm.
  pose proof (head_candidates_None r) as Hn.
  repeat match goal with |- _ ∧ _ => split | |- _ ↔ _ => split end.
  - intros [[_ K]|[[E _]|[[E _]|[[E _]|[[E _]|[[E _]|[[E _]|[E _]]]]]]]]; try discriminate.
    apply bool_decide_eq_true in K. unfold detached.
    destruct (Git.HEAD r); [|discriminate].
    split; [eexists; reflexivity|congruence].
  - intros [[h Hhd] Hd]. left. split; [reflexivity|].
    apply bool_decide_eq_true. rewrite Hhd. congruence.
  - intros [[E _]|[[_ K]|[[E _]|[[E _]|[[E _]|[[E _]|[[E _]|[E _]]]]]]]]; try discriminate.
    apply Hm, K.
  - intros K. right. left. split; [reflexivity|]. apply Hm, K.
  - intros [[E _]|[[E _]|[[_ [K1 K2]]|[[E _]|[[E _]|[[E _]|[[E _]|[E _]]]]]]]];
      try discriminate.
    split; [assumption|].
    destruct (marker r); [|reflexivity].
    destruct Hm as [_ Hm2]. destruct (Hm2 eq_refl) as [o Ho]. congruence.
  - intros [K1 K2]. right. right. left. split; [reflexivity|]. split; [assumption|].
    destruct (ongoing_of r) eqn:E; [|reflexivity].
    assert (marker r = true) by (apply Hm; eauto). congruence.
  - intros [[E _]|[[E _]|[[E _]|[[_ K]|[[E _]|[[E _]|[[E _]|[E _]]]]]]]]; try discriminate.
    apply Hn, K.
  - intros K. do 3 right. left. split; [reflexivity|]. apply Hn, K.
  - intros [[E _]|[[E _]|[[E _]|[[E _]|[[_ K]|[[E _]|[[E _]|[E _]]]]]]]]; try discriminate.
    destruct K as (st & [= <-] & K). exact K.
  - intros K. do 4 right. left. split; [reflexivity|]. eauto.
  - intros [[E _]|[[E _]|[[E _]|[[E _]|[[E _]|[[_ K]|[[E _]|[E _]]]]]]]]; try discriminate.
    destruct K as (st & [= <-] & K). exact K.
  - intros K. do 5 right. left. split; [reflexivity|]. eauto.
  - intros [[E _]|[[E _]|[[E _]|[[E _]|[[E _]|[[E _]|[[_ [K1 K2]]|[E _]]]]]]]];
      try discriminate.
    destruct (Git.staged r); [|discriminate].
    split; [reflexivity|].
    cbn in K1. apply nonempty_length in K1. exact K1.
  - intros [K1 K2]. do 6 right. left. split; [reflexivity|].
    rewrite K1. cbn. split; [|reflexivity]. apply nonempty_length, K2.
  - intros [[E _]|[[E _]|[[E _]|[[E _]|[[E _]|[[E _]|[[E _]|[_ K]]]]]]]]; try discriminate.
    apply nonempty_length, K.
  - intros K. do 7 right. split; [reflexivity|]. apply nonempty_length, K.
Qed.

Lemma detectRepoState_reports_witness :
  let w := Samples.world_of Samples.dirty_repo in
  let r := Samples.dirty_repo in
  repo w = Some r ∧ healthy w ∧
  ∃ s, run StateDetector.detectRepoState w = (Ok s, w) ∧
    RepoState.isGitRepo s = true ∧
    RepoState.status s = Some (status_of r) ∧
    RepoState.lastCommit s = head (candidates r 1) ∧
    RepoState.ongoingOperation s = ongoing_of r ∧
    RepoState.conflictedFiles s = Git.conflicted r ∧
    RepoState.stashCount s = length (Git.stashes r) ∧
    RepoState.hasRemote s = (0 <? length (Git.remotes r)) ∧
    (has_code "DETACHED_HEAD" (RepoState.issues s) ↔ detached r) ∧
    (has_code "ONGOING_OPERATION" (RepoState.issues s) ↔ marker r = true) ∧
    (has_code "HAS_CONFLICTS" (RepoState.issues s) ↔
       Git.conflicted r ≠ [] ∧ marker r = false) ∧
    (has_code "NO_COMMITS" (RepoState.issues s) ↔ Git.commit_count r = 0) ∧
    (has_code "UNPUSHED_COMMITS" (RepoState.issues s) ↔ 0 < Git.ahead r) ∧
    (has_code "BEHIND_REMOTE" (RepoState.issues s) ↔ 0 < Git.behind r) ∧
    (has_code "UNSTAGED_CHANGES" (RepoState.issues s) ↔
       Git.staged r = [] ∧ Git.modified r ≠ []) ∧
    (has_code "STAGED_CHANGES" (RepoState.issues s) ↔ Git.staged r ≠ []).
Proof.
  intros w r.
  assert (H1 : repo w = Some r) by reflexivity.
  assert (H2 : healthy w) by (intros cmd; reflexivity).
  split; [exact H1|]. split; [exact H2|].
  apply (detectRepoState_reports w r H1 H2).
Defined.

(** ** The applicability checks of stateDetector.ts *)

Lemma readonly_getUntrackedFiles : readonly GitQueries.getUntrackedFiles.
Proof. unfold GitQueries.getUntrackedFiles. readonly. Qed.

Lemma isPushed_value_ro h w : run (GitWrapper.isPushed h) w = (Ok (pushedb w h), w).
Proof. apply isPushed_run. Qed.

Lemma canAmendCommit_run w :
  ∃ lastCommit, run GitWrapper.getLastCommit w = (Ok lastCommit, w) ∧
  run Can.canAmendCommit w =
  (Ok match lastCommit with
      | None => Can.no "No commits to amend"
      | Some c => if pushedb w (CommitInfo.hash c)
                  then {| Verdict.allowed := true; Verdict.reason := Some Can.amendWarning |}
                  else Can.yes
      end, w).
Proof.
  destruct (getLastCommit_total w) as [lc Hlc]. exists lc. split; [exact Hlc|].
  unfold Can.canAmendCommit. rewrite run_bind, Hlc.
  destruct lc as [c|]; [|reflexivity].
  rewrite run_bind, isPushed_run. destruct (pushedb w (CommitInfo.hash c)); reflexivity.
Qed.

Lemma checkBeforeAmend_run w :
  ∃ lastCommit, run GitWrapper.getLastCommit w = (Ok lastCommit, w) ∧
  run SafetyChecksMore.checkBeforeAmend w =
  (Ok match lastCommit with
      | None => {| SafetyCheckResult.safe := false;
                   SafetyCheckResult.warnings := [];
                   SafetyCheckResult.blockers := [SafetyChecksMore.noCommitsToAmend] |}
      | Some c => {| SafetyCheckResult.safe := true;
                     SafetyCheckResult.warnings :=
                       if pushedb w (CommitInfo.hash c)
                       then [SafetyChecksMore.amendPushedWarning] else [];
                     SafetyCheckResult.blockers := [] |}
      end, w).
Proof.
  destruct (getLastCommit_total w) as [lc Hlc]. exists lc. split; [exact Hlc|].
  unfold SafetyChecksMore.checkBeforeAmend. rewrite run_bind, Hlc.
  destruct lc as [c|]; [|reflexivity].
  rewrite run_bind, isPushed_run. reflexivity.
Qed.

(** X4. [canAmendCommit] and [checkBeforeAmend] never raise and always
    agree: amending is allowed exactly when the check is safe, it is refused
    exactly with the blocker for a missing commit, and the verdict carries
    its force-push warning exactly when the check does. *)
Theorem canAmendCommit_agrees_with_checkBeforeAmend w :
  ∃ v res,
    run Can.canAmendCommit w = (Ok v, w) ∧
    run SafetyChecksMore.checkBeforeAmend w = (Ok res, w) ∧
    Verdict.allowed v = SafetyCheckResult.safe res ∧
    (Verdict.allowed v = false ↔
       SafetyCheckResult.blockers res = [SafetyChecksMore.noCommitsToAmend]) ∧
    (Verdict.allowed v = true ↔ SafetyCheckResult.blockers res = []) ∧
    (Verdict.reason v = Some Can.amendWarning ↔
       SafetyCheckResult.warnings res = [SafetyChecksMore.amendPushedWarning]) ∧
    (Verdict.allowed v = true ∧ Verdict.reason v = None ↔
       SafetyCheckResult.safe res = true ∧ SafetyCheckResult.warnings res = []).
Proof.
  destruct (canAmendCommit_run w) as (lc & Hlc & Hc).
  destruct (checkBeforeAmend_run w) as (lc' & Hlc' & Hs).
  rewrite Hlc in Hlc'. injection Hlc' as <-.
  eexists _, _. split; [exact Hc|]. split; [exact Hs|].
  destruct lc as [c|]; [destruct (pushedb w (CommitInfo.hash c))|]; cbn;
    intuition (reflexivity || discriminate).
Qed.

Lemma canUndoCommit_run w :
  ∃ lastCommit, run GitWrapper.getLastCommit w = (Ok lastCommit, w) ∧
  run Can.canUndoCommit w =
  (Ok (if lastCommit is Some _ then Can.yes else Can.no "No commits to undo"), w).
Proof.
  destruct (getLastCommit_total w) as [lc Hlc]. exists lc. split; [exact Hlc|].
  unfold Can.canUndoCommit. rewrite run_bind, Hlc. destruct lc; reflexivity.
Qed.

Lemma canMoveCommits_run w :
  ∃ commits, run (GitWrapper.getRecentCommits 1) w = (Ok commits, w) ∧
  run Can.canMoveCommits w =
  (Ok (if bool_decide (length commits = 0) then Can.no "No commits to move" else Can.yes), w).
Proof.
  destruct (getRecentCommits_total 1 w) as [l Hl]. exists l. split; [exact Hl|].
  unfold Can.canMoveCommits. rewrite run_bind, Hl. destruct (bool_decide _); reflexivity.
Qed.

Lemma canSquashCommits_run w :
  ∃ commits, run (GitWrapper.getRecentCommits 2) w = (Ok commits, w) ∧
  run Can.canSquashCommits w =
  (Ok (if length commits <? 2 then Can.no "Need at least 2 commits to squash"
       else Can.yes), w).
Proof.
  destruct (getRecentCommits_total 2 w) as [l Hl]. exists l. split; [exact Hl|].
  unfold Can.canSquashCommits. rewrite run_bind, Hl. destruct (_ <? _); reflexivity.
Qed.

Lemma head_candidates_Some r : is_Some (head (candidates r 1)) ↔ 1 ≤ Git.commit_count r.
Proof.
  unfold candidates, Git.commit_count.
  destruct (Git.history r); cbn; split; try lia; eauto.
  intros [? ?]; discriminate.
Qed.

(** X5. In a repository where git answers, undoing, amending and moving
    commits are allowed exactly when the history has a commit, and
    squashing exactly when it has two. *)
Theorem commit_gates_count_history w r :
  repo w = Some r → healthy w →
  ∃ undo amend move squash,
    run Can.canUndoCommit w = (Ok undo, w) ∧
    run Can.canAmendCommit w = (Ok amend, w) ∧
    run Can.canMoveCommits w = (Ok move, w) ∧
    run Can.canSquashCommits w = (Ok squash, w) ∧
    (Verdict.allowed undo = true ↔ 1 ≤ Git.commit_count r) ∧
    (Verdict.allowed amend = true ↔ 1 ≤ Git.commit_count r) ∧
    (Verdict.allowed move = true ↔ 1 ≤ Git.commit_count r) ∧
    (Verdict.allowed squash = true ↔ 2 ≤ Git.commit_count r).
Proof.
  intros Hr Hh.
  destruct (canUndoCommit_run w) as (lc & Hlc & Hu).
  destruct (canAmendCommit_run w) as (lc' & Hlc' & Ha).
  destruct (canMoveCommits_run w) as (l1 & Hl1 & Hm).
  destruct (canSquashCommits_run w) as (l2 & Hl2 & Hs).
  rewrite (getLastCommit_run w r Hr (Hh _)) in Hlc, Hlc'.
  rewrite (getRecentCommits_run w r 1 Hr (Hh _)) in Hl1.
  rewrite (getRecentCommits_run w r 2 Hr (Hh _)) in Hl2.
  injection Hlc as <-. injection Hlc' as <-. injection Hl1 as <-. injection Hl2 as <-.
  eexists _, _, _, _. do 4 (split; [eassumption|]).
  pose proof (head_candidates_Some r) as Hc.
  pose proof (length_candidates r 1) as L1. pose proof (length_candidates r 2) as L2.
  cbv beta iota in L1, L2.
  repeat match goal with |- _ ∧ _ => split end.
  - destruct (head (candidates r 1)); cbn; split; try discriminate; try reflexivity.
    + intros _. apply Hc. eauto.
    + intros H. apply Hc in H as [? ?]. discriminate.
  - destruct (head (candidates r 1)) as [c|]; cbn.
    + destruct (pushedb w (CommitInfo.hash c)); cbn; (split; [intros _; apply Hc; eauto|reflexivity]).
    + split; [discriminate|]. intros H. apply Hc in H as [? ?]. discriminate.
  - destruct (bool_decide (length (candidates r 1) = 0)) eqn:E; cbn.
    + apply bool_decide_eq_true in E. split; [discriminate|lia].
    + apply bool_decide_eq_false in E. split; [lia|reflexivity].
  - destruct (length (candidates r 2) <? 2) eqn:E; cbn.
    + apply Nat.ltb_lt in E. split; [discriminate|lia].
    + apply Nat.ltb_ge in E. split; [lia|reflexivity].
Qed.

Lemma commit_gates_count_history_witness :
  let w := Samples.world_of Samples.local_repo in
  let r := Samples.local_repo in
  repo w = Some r ∧ healthy w ∧
  ∃ undo amend move squash,
    run Can.canUndoCommit w = (Ok undo, w) ∧
    run Can.canAmendCommit w = (Ok amend, w) ∧
    run Can.canMoveCommits w = (Ok move, w) ∧
    run Can.canSquashCommits w = (Ok squash, w) ∧
    (Verdict.allowed undo = true ↔ 1 ≤ Git.commit_count r) ∧
    (Verdict.allowed amend = true ↔ 1 ≤ Git.commit_count r) ∧
    (Verdict.allowed move = true ↔ 1 ≤ Git.commit_count r) ∧
    (Verdict.allowed squash = true ↔ 2 ≤ Git.commit_count r).
Proof.
  intros w r.
  assert (H1 : repo w = Some r) by reflexivity.
  assert (H2 : healthy w) by (intros cmd; reflexivity).
  split; [exact H1|]. split; [exact H2|].
  apply (commit_gates_count_history w r H1 H2).
Defined.

Lemma getUntrackedFiles_of_status w :
  run GitQueries.getUntrackedFiles w =
  (match value GitWrapper.getStatus w with
   | Ok status => Ok (GitStatus.untracked status)
   | Throw e => Throw e
   end, w).
Proof.
  unfold GitQueries.getUntrackedFiles. rewrite run_bind, getStatus_value_ro.
  destruct (value GitWrapper.getStatus w); reflexivity.
Qed.

Lemma canUnstage_run w :
  run Can.canUnstage w =
  (match value GitWrapper.getStatus w with
   | Ok status => Ok (if 0 <? length (GitStatus.staged status)
                      then Can.yes else Can.no "No staged files")
   | Throw e => Throw e
   end, w).
Proof.
  unfold Can.canUnstage. rewrite run_bind, hasStagedChanges_of_status.
  destruct (value GitWrapper.getStatus w) as [st|]; [|reflexivity].
  destruct (0 <? _); reflexivity.
Qed.

Lemma canDiscardChanges_run w :
  run Can.canDiscardChanges w =
  (match value GitWrapper.getStatus w with
   | Ok status => Ok (if (0 <? length (GitStatus.staged status))
                         || (0 <? length (GitStatus.modified status))
                      then Can.yes else Can.no "No changes to discard")
   | Throw e => Throw e
   end, w).
Proof.
  unfold Can.canDiscardChanges. rewrite run_bind, hasUncommittedChanges_of_status.
  destruct (value GitWrapper.getStatus w) as [st|]; [|reflexivity].
  destruct (_ || _); reflexivity.
Qed.

Lemma canCleanUntracked_run w :
  run Can.canCleanUntracked w =
  (match value GitWrapper.getStatus w with
   | Ok status => Ok (if bool_decide (length (GitStatus.untracked status) = 0)
                      then Can.no "No untracked files" else Can.yes)
   | Throw e => Throw e
   end, w).
Proof.
  unfold Can.canCleanUntracked. rewrite run_bind, getUntrackedFiles_of_status.
  destruct (value GitWrapper.getStatus w) as [st|]; [|reflexivity].
  destruct (bool_decide _); reflexivity.
Qed.

Lemma canStash_run w :
  ∃ stashList, run GitWrapper.getStashList w = (Ok stashList, w) ∧
  run Can.canStash w =
  (match value GitWrapper.getStatus w with
   | Ok status =>
       Ok (if negb ((0 <? length (GitStatus.staged status))
                    || (0 <? length (GitStatus.modified status)))
              && bool_decide (length stashList = 0)
           then (Can.no "No changes to stash and no existing stashes", None)
           else (Can.yes, Some (0 <? length stashList)))
   | Throw e => Throw e
   end, w).
Proof.
  destruct (getStashList_total w) as [sl Hsl]. exists sl. split; [exact Hsl|].
  unfold Can.canStash. rewrite run_bind, run_both, hasUncommittedChanges_of_status.
  cbv beta iota. rewrite Hsl.
  destruct (value GitWrapper.getStatus w) as [st|]; [|reflexivity].
  destruct (negb _ && _); reflexivity.
Qed.

Lemma length_zero_iff {A} (l : list A) : length l = 0 ↔ l = [].
Proof. destruct l; cbn; split; (reflexivity || discriminate). Qed.

(** X6. In a repository where git answers: unstaging is allowed exactly
    when files are staged, discarding exactly when files are staged or
    modified, stashing exactly when that holds or a stash exists, and
    cleaning exactly when untracked files exist. Untracked files alone
    allow neither discarding nor stashing. *)
Theorem working_tree_gates w r :
  repo w = Some r → healthy w →
  ∃ unstage discard stash hasStashes clean,
    run Can.canUnstage w = (Ok unstage, w) ∧
    run Can.canDiscardChanges w = (Ok discard, w) ∧
    run Can.canStash w = (Ok (stash, hasStashes), w) ∧
    run Can.canCleanUntracked w = (Ok clean, w) ∧
    (Verdict.allowed unstage = true ↔ Git.staged r ≠ []) ∧
    (Verdict.allowed discard = true ↔ Git.staged r ≠ [] ∨ Git.modified r ≠ []) ∧
    (Verdict.allowed stash = true ↔
       Git.staged r ≠ [] ∨ Git.modified r ≠ [] ∨ Git.stashes r ≠ []) ∧
    (Verdict.allowed stash = true → hasStashes = Some (0 <? length (Git.stashes r))) ∧
    (Verdict.allowed clean = true ↔ Git.untracked r ≠ []).
Proof.
  intros Hr Hh.
  assert (Hst : value GitWrapper.getStatus w = Ok (status_of r)).
  { unfold value. rewrite (getStatus_run w r Hr (Hh _)). reflexivity. }
  destruct (canStash_run w) as (sl & Hsl & Hs).
  destruct (getStashList_run w r Hr (Hh _)) as (sl' & Hsl' & Hlen).
  rewrite Hsl' in Hsl. injection Hsl as <-.
  rewrite Hst in Hs.
  pose proof (canUnstage_run w) as Hu. pose proof (canDiscardChanges_run w) as Hd.
  pose proof (canCleanUntracked_run w) as Hc.
  rewrite Hst in Hu, Hd, Hc. cbn [status_of GitStatus.staged GitStatus.modified
    GitStatus.untracked] in Hu, Hd, Hc, Hs.
  rewrite Hlen in Hs.
  destruct (Git.staged r) as [|s1 ss], (Git.modified r) as [|m1 ms],
    (Git.stashes r) as [|t1 ts], (Git.untracked r) as [|u1 us];
    cbn in Hu, Hd, Hs, Hc;
    (eexists _, _, _, _, _;
     split; [exact Hu|]; split; [exact Hd|]; split; [exact Hs|]; split; [exact Hc|];
     cbn; intuition (reflexivity || discriminate || congruence)).
Qed.

Lemma working_tree_gates_witness :
  let w := Samples.world_of Samples.untracked_files_repo in
  let r := Samples.untracked_files_repo in
  repo w = Some r ∧ healthy w ∧
  ∃ unstage discard stash hasStashes clean,
    run Can.canUnstage w = (Ok unstage, w) ∧
    run Can.canDiscardChanges w = (Ok discard, w) ∧
    run Can.canStash w = (Ok (stash, hasStashes), w) ∧
    run Can.canCleanUntracked w = (Ok clean, w) ∧
    (Verdict.allowed unstage = true ↔ Git.staged r ≠ []) ∧
    (Verdict.allowed discard = true ↔ Git.staged r ≠ [] ∨ Git.modified r ≠ []) ∧
    (Verdict.allowed stash = true ↔
       Git.staged r ≠ [] ∨ Git.modified r ≠ [] ∨ Git.stashes r ≠ []) ∧
    (Verdict.allowed stash = true → hasStashes = Some (0 <? length (Git.stashes r))) ∧
    (Verdict.allowed clean = true ↔ Git.untracked r ≠ []).
Proof.
  intros w r.
  assert (H1 : repo w = Some r) by reflexivity.
  assert (H2 : healthy w) by (intros cmd; reflexivity).
  split; [exact H1|]. split; [exact H2|].
  apply (working_tree_gates w r H1 H2).
Defined.

Lemma canFixDetachedHead_run w :
  run Can.canFixDetachedHead w =
  (Ok (if bool_decide (current_branch w = Some "HEAD")
       then Can.yes else Can.no "Not in detached HEAD state"), w).
Proof.
  unfold Can.canFixDetachedHead. rewrite run_bind, isDetachedHead_run.
  destruct (bool_decide _); reflexivity.
Qed.

Lemma canAbortOperation_run w :
  ∃ operation, run GitWrapper.getOngoingOperation w = (Ok operation, w) ∧
  run Can.canAbortOperation w =
  (Ok (if operation is Some _ then Can.yes else Can.no "No ongoing Git operation",
       operation), w).
Proof.
  destruct (getOngoingOperation_total w) as [o Ho]. exists o. split; [exact Ho|].
  unfold Can.canAbortOperation. rewrite run_bind, Ho. destruct o; reflexivity.
Qed.

Lemma canForcePushRecovery_run w :
  ∃ hasRemote, run GitWrapper.hasRemote w = (Ok hasRemote, w) ∧
  run Can.canForcePushRecovery w =
  (Ok (if hasRemote then Can.yes else Can.no "No remote configured"), w).
Proof.
  destruct (hasRemote_total w) as [b Hb]. exists b. split; [exact Hb|].
  unfold Can.canForcePushRecovery. rewrite run_bind, Hb. destruct b; reflexivity.
Qed.

Lemma detached_current_branch w r :
  repo w = Some r → faults w Git.RevParseAbbrevRefHead = false →
  current_branch w = Some "HEAD" ↔ detached r.
Proof.
  intros Hr Hf. rewrite (current_branch_healthy w r Hr Hf). unfold detached.
  destruct (Git.HEAD r).
  - split; [intros [= H]; split; [eexists; reflexivity|exact H] | intros [_ ->]; reflexivity].
  - split; [discriminate | intros [[? ?] _]; discriminate].
Qed.

(** X7. In a repository where git answers: fixing a detached HEAD is
    allowed exactly when HEAD names a commit and no branch; aborting is
    allowed exactly when an operation marker exists, and the operation
    named is the first of merge, rebase, cherry-pick, bisect whose marker
    exists; force-push recovery is allowed exactly when a remote is
    configured. *)
Theorem state_gates w r :
  repo w = Some r → healthy w →
  ∃ fixDetached abort operation push,
    run Can.canFixDetachedHead w = (Ok fixDetached, w) ∧
    run Can.canAbortOperation w = (Ok (abort, operation), w) ∧
    run Can.canForcePushRecovery w = (Ok push, w) ∧
    (Verdict.allowed fixDetached = true ↔ detached r) ∧
    (Verdict.allowed abort = true ↔ marker r = true) ∧
    operation = ongoing_of r ∧
    (Git.MERGE_HEAD r = true → operation = Some merge) ∧
    (Git.MERGE_HEAD r = false → Git.rebase_merge r = true ∨ Git.rebase_apply r = true →
       operation = Some rebase) ∧
    (Verdict.allowed push = true ↔ Git.remotes r ≠ []).
Proof.
  intros Hr Hh.
  destruct (canAbortOperation_run w) as (o & Ho & Ha).
  destruct (canForcePushRecovery_run w) as (b & Hb & Hp).
  rewrite (getOngoingOperation_run w r Hr (Hh _)) in Ho. injection Ho as <-.
  rewrite (hasRemote_run w r Hr (Hh _)) in Hb. injection Hb as <-.
  eexists _, _, _, _.
  split; [apply canFixDetachedHead_run|]. split; [exact Ha|]. split; [exact Hp|].
  pose proof (detached_current_branch w r Hr (Hh _)) as Hd.
  pose proof (ongoing_of_marker r) as Hm.
  repeat match goal with |- _ ∧ _ => split end.
  - destruct (bool_decide (current_branch w = Some "HEAD")) eqn:E; cbn.
    + apply bool_decide_eq_true in E. tauto.
    + apply bool_decide_eq_false in E. split; [discriminate|tauto].
  - destruct (ongoing_of r) as [op|]; cbn.
    + split; [intros _; apply Hm; eauto|reflexivity].
    + split; [discriminate|]. intros H. apply Hm in H as [? ?]. discriminate.
  - reflexivity.
  - unfold ongoing_of. intros ->. reflexivity.
  - unfold ongoing_of. intros -> [-> | ->]; [reflexivity|].
    rewrite orb_true_r. reflexivity.
  - destruct (Git.remotes r); cbn; split; (reflexivity || discriminate || congruence).
Qed.

Lemma state_gates_witness :
  let w := Samples.world_of Samples.tracked_repo in
  let r := Samples.tracked_repo in
  repo w = Some r ∧ healthy w ∧
  ∃ fixDetached abort operation push,
    run Can.canFixDetachedHead w = (Ok fixDetached, w) ∧
    run Can.canAbortOperation w = (Ok (abort, operation), w) ∧
    run Can.canForcePushRecovery w = (Ok push, w) ∧
    (Verdict.allowed fixDetached = true ↔ detached r) ∧
    (Verdict.allowed abort = true ↔ marker r = true) ∧
    operation = ongoing_of r ∧
    (Git.MERGE_HEAD r = true → operation = Some merge) ∧
    (Git.MERGE_HEAD r = false → Git.rebase_merge r = true ∨ Git.rebase_apply r = true →
       operation = Some rebase) ∧
    (Verdict.allowed push = true ↔ Git.remotes r ≠ []).
Proof.
  intros w r.
  assert (H1 : repo w = Some r) by reflexivity.
  assert (H2 : healthy w) by (intros cmd; reflexivity).
  split; [exact H1|]. split; [exact H2|].
  apply (state_gates w r H1 H2).
Defined.

(** X8. In a repository where git answers, recovering a branch is allowed
    exactly when one of the last hundred reflog entries records leaving a
    branch that no longer exists. *)
Theorem canRecoverBranch_iff_deleted_branch w r :
  repo w = Some r → healthy w →
  ∃ v, run Can.canRecoverBranch w = (Ok v, w) ∧
       (Verdict.allowed v = true ↔
          ∃ name hash, (name ∉ Git.branches r) ∧
            first_checkout_from (reflog_window r 100) name = Some hash).
Proof.
  intros Hr Hh. unfold Can.canRecoverBranch, GitWrapper.getDeletedBranches.
  rewrite !run_bind, (getReflog_run w r 100 Hr (Hh _)).
  destruct (deletedBranchesLoop_run w r (reflog_window r 100) Hr (Hh _) [] ∅)
    as (new & Hrun & _ & Hnew).
  rewrite Hrun. cbn [app].
  destruct new as [|[n h] new']; cbn.
  - eexists. split; [reflexivity|]. cbn. split; [discriminate|].
    intros (name & hash & H1 & H2).
    assert (Hin : (name, hash) ∈ []) by (apply Hnew; split; [apply not_elem_of_empty|tauto]).
    apply elem_of_nil in Hin. destruct Hin.
  - eexists. split; [reflexivity|]. cbn. split; [intros _|reflexivity].
    exists n, h. apply Hnew. left.
Qed.

Lemma canRecoverBranch_iff_deleted_branch_witness :
  let w := Samples.world_of Samples.deleted_topic_repo in
  let r := Samples.deleted_topic_repo in
  repo w = Some r ∧ healthy w ∧
  ∃ v, run Can.canRecoverBranch w = (Ok v, w) ∧
       (Verdict.allowed v = true ↔
          ∃ name hash, (name ∉ Git.branches r) ∧
            first_checkout_from (reflog_window r 100) name = Some hash).
Proof.
  intros w r.
  assert (H1 : repo w = Some r) by reflexivity.
  assert (H2 : healthy w) by (intros cmd; reflexivity).
  split; [exact H1|]. split; [exact H2|].
  apply (canRecoverBranch_iff_deleted_branch w r H1 H2).
Defined.

(** X9. Seven of the applicability checks answer in every world, also
    outside a repository or when git fails; the four that read
    [git status] raise whenever it fails. *)
Theorem applicability_checks_failures w :
  (∃ v, run Can.canUndoCommit w = (Ok v, w)) ∧
  (∃ v, run Can.canAmendCommit w = (Ok v, w)) ∧
  (∃ v, run Can.canMoveCommits w = (Ok v, w)) ∧
  (∃ v, run Can.canSquashCommits w = (Ok v, w)) ∧
  (∃ v, run Can.canFixDetachedHead w = (Ok v, w)) ∧
  (∃ v, run Can.canAbortOperation w = (Ok v, w)) ∧
  (∃ v, run Can.canForcePushRecovery w = (Ok v, w)) ∧
  (∀ e, value GitWrapper.getStatus w = Throw e →
     run Can.canUnstage w = (Throw e, w) ∧
     run Can.canDiscardChanges w = (Throw e, w) ∧
     run Can.canStash w = (Throw e, w) ∧
     run Can.canCleanUntracked w = (Throw e, w)) ∧
  (repo w = None ∨ faults w Git.Status = true →
     ∃ e, value GitWrapper.getStatus w = Throw e).
Proof.
  repeat match goal with |- _ ∧ _ => split end.
  - destruct (canUndoCommit_run w) as (? & _ & ->). eauto.
  - destruct (canAmendCommit_run w) as (? & _ & ->). eauto.
  - destruct (canMoveCommits_run w) as (? & _ & ->). eauto.
  - destruct (canSquashCommits_run w) as (? & _ & ->). eauto.
  - rewrite canFixDetachedHead_run. eauto.
  - destruct (canAbortOperation_run w) as (? & _ & ->). eauto.
  - destruct (canForcePushRecovery_run w) as (? & _ & ->). eauto.
  - intros e He.
    destruct (canStash_run w) as (sl & _ & Hs).
    rewrite canUnstage_run, canDiscardChanges_run, canCleanUntracked_run, Hs, He.
    repeat split.
  - unfold value, GitWrapper.getStatus. rewrite run_git.
    intros [-> | Hf]; [eauto|].
    destruct (repo w); [rewrite Hf|]; eauto.
Qed.

Example canUnstage_outside_repository :
  let w := Samples.world_with None Absent Config.defaultConfig in
  value Can.canUndoCommit w = Ok (Can.no "No commits to undo") ∧
  value Can.canUnstage w = Throw "fatal: not a git repository".
Proof. split; reflexivity. Qed.

(** ** undoCommit: when nothing happens *)

(** X10. [undoCommit] leaves the world as it is (no reset, nothing
    recorded) outside a repository, when the operator declines the final
    confirmation, and when more commits are asked for than the history
    holds: the blocker cannot be overridden by any answer. *)
Theorem undoCommit_changes_nothing_unless_confirmed count w :
  (is_repository w = false → run (Commands.undoCommit count) w = (Ok tt, w)) ∧
  (answer_confirm (operator w) "Proceed with undo?" = false →
     (run (Commands.undoCommit count) w).2 = w) ∧
  (∀ r, repo w = Some r → healthy w →
     Git.commit_count r < chosen_count count w r →
     run (Commands.undoCommit count) w = (Ok tt, w)).
Proof.
  repeat match goal with |- _ ∧ _ => split end.
  - intros Hn. unfold Commands.undoCommit. rewrite run_bind, isGitRepo_value, Hn.
    reflexivity.
  - intros Hno. unfold Commands.undoCommit.
    rewrite run_bind, isGitRepo_value. destruct (is_repository w); cbn; [|reflexivity].
    rewrite run_bind.
    destruct (getRecentCommits_total 10 w) as [commits ->].
    destruct (bool_decide _); [reflexivity|].
    rewrite run_bind.
    assert (Hk : ∃ k, run match count with
                          | Some (S n) => ret (S n)
                          | Some 0 | None =>
                              Prompts.selectNumber "How many commits do you want to undo?"
                                (Nat.min (length commits) 10) 1
                          end w = (Ok k, w)).
    { destruct count as [[|n]|]; eexists; reflexivity. }
    destruct Hk as [k ->].
    rewrite run_bind. unfold Prompts.selectResetMode. rewrite run_get.
    set (mode := answer_mode (operator w)).
    rewrite run_bind, (run_readonly _ _ (readonly_checkBeforeReset mode k)).
    destruct (value _ w) as [res|e]; [|reflexivity].
    rewrite run_bind, (run_readonly _ _ (readonly_showSafetyWarnings res)).
    destruct (value _ w) as [[|]|e]; cbn; try reflexivity.
    rewrite run_bind. unfold Prompts.confirmAction, Prompts.confirm.
    rewrite run_get, Hno. reflexivity.
  - intros r Hr Hh Hlt. unfold Commands.undoCommit.
    rewrite run_bind, (isGitRepo_run w r Hr (Hh _)). cbn [negb].
    rewrite run_bind, (getRecentCommits_run w r 10 Hr (Hh _)).
    destruct (bool_decide _); [reflexivity|].
    rewrite run_bind, chosen_count_run.
    set (k := chosen_count count w r) in *.
    rewrite run_bind. unfold Prompts.selectResetMode. rewrite run_get.
    rewrite run_bind, (checkBeforeReset_run _ k w r Hr (Hh _) (Hh _)).
    assert (Hfew : (length (candidates r k) <? k) = true).
    { rewrite few_candidates. apply Nat.ltb_lt. lia. }
    rewrite Hfew. cbn [negb].
    rewrite run_bind. unfold SafetyChecks.showSafetyWarnings. cbn. reflexivity.
Qed.

Example undoCommit_four_of_three :
  run (Commands.undoCommit (Some 4)) SampleJournal.busy_world
  = (Ok tt, SampleJournal.busy_world).
Proof. reflexivity. Qed.

(** X11. Asking to undo as many commits as the history holds passes
    [checkBeforeReset] without a blocker, although [HEAD~n] then names no
    commit: the reset fails and [undoCommit] leaves the repository as it
    was. *)
Theorem undoCommit_whole_history_passes_check_but_fails mode w r :
  repo w = Some r → healthy w → Git.wf_store (Git.objects r) →
  0 < Git.commit_count r →
  (∃ res, run (SafetyChecks.checkBeforeReset mode (Git.commit_count r)) w = (Ok res, w) ∧
          SafetyCheckResult.safe res = true ∧ SafetyCheckResult.blockers res = []) ∧
  Git.resolve r (Git.HeadTilde (Git.commit_count r)) = None ∧
  (∃ e, run match mode with
            | Git.Soft => GitWrapper.softReset (Git.HeadTilde (Git.commit_count r))
            | Git.Mixed => GitWrapper.mixedReset (Git.HeadTilde (Git.commit_count r))
            | Git.Hard => GitWrapper.hardReset (Git.HeadTilde (Git.commit_count r))
            end w = (Throw e, w)) ∧
  (∀ count, chosen_count count w r = Git.commit_count r →
     repo (run (Commands.undoCommit count) w).2 = Some r).
Proof.
  intros Hr Hh Hwf Hpos.
  assert (Hres : Git.resolve r (Git.HeadTilde (Git.commit_count r)) = None).
  { unfold Git.resolve. destruct (Git.HEAD r) as [h|] eqn:Hhead; [|reflexivity].
    destruct (Git.nth_ancestor _ _ h) as [t|] eqn:Hnth; [|reflexivity].
    pose proof (nth_ancestor_commit_count r _ h t Hwf Hhead Hnth). lia. }
  repeat match goal with |- _ ∧ _ => split end.
  - rewrite (checkBeforeReset_run mode _ w r Hr (Hh _) (Hh _)).
    assert (Hfew : (length (candidates r (Git.commit_count r)) <? Git.commit_count r) = false).
    { rewrite few_candidates. apply Nat.ltb_ge. lia. }
    rewrite Hfew. eexists. split; [reflexivity|]. split; reflexivity.
  - exact Hres.
  - apply (reset_fails_run mode _ w r Hr). right. exact Hres.
  - intros count Hk.
    apply (undoCommit_failed_reset count w r Hr). right. rewrite Hk. exact Hres.
Qed.

Lemma undoCommit_whole_history_passes_check_but_fails_witness :
  let w := Samples.world_of Samples.local_repo in
  let r := Samples.local_repo in
  repo w = Some r ∧ healthy w ∧ Git.wf_store (Git.objects r) ∧
  0 < Git.commit_count r ∧
  (∃ res, run (SafetyChecks.checkBeforeReset Git.Mixed (Git.commit_count r)) w = (Ok res, w) ∧
          SafetyCheckResult.safe res = true ∧ SafetyCheckResult.blockers res = []) ∧
  Git.resolve r (Git.HeadTilde (Git.commit_count r)) = None ∧
  (∃ e, run (GitWrapper.mixedReset (Git.HeadTilde (Git.commit_count r))) w = (Throw e, w)) ∧
  (∀ count, chosen_count count w r = Git.commit_count r →
     repo (run (Commands.undoCommit count) w).2 = Some r).
Proof.
  intros w r.
  assert (H1 : repo w = Some r) by reflexivity.
  assert (H2 : healthy w) by (intros cmd; reflexivity).
  assert (H3 : Git.wf_store (Git.objects r)) by (apply wf_storeb_sound; reflexivity).
  assert (H4 : 0 < Git.commit_count r) by (vm_compute; lia).
  split; [exact H1|]. split; [exact H2|]. split; [exact H3|]. split; [exact H4|].
  apply (undoCommit_whole_history_passes_check_but_fails Git.Mixed w r H1 H2 H3 H4).
Defined.

(** ** The journal: windows and invariants *)

Lemma slice_from_newest {A} (count : nat) (l : list A) :
  rev (Js.slice_from (- Z.of_nat count) l) = newest count l.
Proof.
  destruct count as [|n].
  { unfold Js.slice_from, newest. change (- Z.of_nat 0 <? 0)%Z with false. cbv iota.
    rewrite Z.min_l by lia. reflexivity. }
  destruct (slice_from_positive (Z.of_nat (S n)) l) as [-> _]; [lia|].
  rewrite Nat2Z.id. unfold newest. symmetry. apply firstn_rev.
Qed.

Lemma newest_subseteq {A} (count : nat) (l : list A) x : x ∈ newest count l → x ∈ l.
Proof.
  assert (Hrev : ∀ y, y ∈ rev l → y ∈ l).
  { intros y Hy. apply list_elem_of_In, in_rev, list_elem_of_In, Hy. }
  destruct count; cbn [newest]; intros H.
  - apply Hrev, H.
  - apply elem_of_take in H as (i & H & _). apply Hrev.
    apply list_elem_of_lookup. eauto.
Qed.

Lemma elem_of_scoped w a :
  a ∈ scoped w ↔ a ∈ journal w ∧ RecordedAction.repoPath a = cwd w.
Proof.
  unfold scoped. rewrite !list_elem_of_In, filter_In, bool_decide_eq_true. reflexivity.
Qed.

(** X12. [getRecentActions] returns the newest [count] entries recorded
    for the current directory, newest first, and [getAllActions] the newest
    [count] entries of all directories; a count of zero returns every such
    entry, and a missing or unreadable journal reads as empty. *)
Theorem journal_windows count w :
  run (ActionHistory.getRecentActions count) w = (Ok (newest count (scoped w)), w) ∧
  run (ActionHistoryMore.getAllActions count) w = (Ok (newest count (journal w)), w) ∧
  (0 < count → length (newest count (scoped w)) ≤ count
               ∧ length (newest count (journal w)) ≤ count) ∧
  newest 0 (journal w) = rev (journal w) ∧
  (∀ a, a ∈ newest count (scoped w) →
        a ∈ journal w ∧ RecordedAction.repoPath a = cwd w) ∧
  (historyFile w = Absent ∨ historyFile w = Unreadable →
     newest count (scoped w) = [] ∧ newest count (journal w) = []).
Proof.
  repeat match goal with |- _ ∧ _ => split end.
  - unfold ActionHistory.getRecentActions.
    rewrite run_bind, loadHistory_run, run_bind, run_get, run_ret.
    rewrite slice_from_newest. reflexivity.
  - unfold ActionHistoryMore.getAllActions.
    rewrite run_bind, loadHistory_run, run_ret, slice_from_newest. reflexivity.
  - destruct count; [lia|]. intros _. unfold newest.
    rewrite !length_take. lia.
  - reflexivity.
  - intros a Ha. apply elem_of_scoped. eapply newest_subseteq, Ha.
  - intros Hf. unfold scoped, journal.
    destruct Hf as [-> | ->]; destruct count; split; reflexivity.
Qed.

Example getRecentActions_two_of_three :
  RecordedAction.id <$> newest 2 (scoped SampleJournal.busy_world) = ["c"; "b"].
Proof. reflexivity. Qed.

(** The journal after each operation, in any world. *)
Lemma recordAction_journal type description canUndo w res w1 :
  run (ActionHistory.recordAction type description canUndo) w = (res, w1) →
  journal w1 = journal w ∨
  ∃ a, res = Ok a ∧ RecordedAction.id a = rand w (ticks w) ∧
       RecordedAction.undoCommand a = None ∧
       journal w1 =
         Js.slice_from (- Config.maxActionHistory (config w)) (journal w ++ [a])%list.
Proof.
  unfold ActionHistory.recordAction.
  rewrite run_bind, run_get, run_bind. unfold ActionHistory.generateId at 1.
  unfold run at 1. simpl.
  rewrite run_bind, run_get, run_bind, (run_readonly _ _ readonly_getHeadHash).
  destruct (value GitWrapper.getHeadHash (tick w)) as [h|e].
  2:{ intros [= <- <-]. left. reflexivity. }
  rewrite run_bind, getCurrentBranch_run, run_bind, loadHistory_run, run_bind.
  rewrite saveHistory_run, run_ret. intros [= <- <-].
  simpl. change (journal (tick w)) with (journal w).
  destruct (writable w); [right|left; reflexivity].
  eexists. split; [reflexivity|]. split; [reflexivity|]. split; [reflexivity|].
  apply journal_set_historyFile.
Qed.

Lemma completeAction_journal a w res w1 :
  run (ActionHistory.completeAction a) w = (res, w1) →
  journal w1 = journal w ∨
  ∃ i x t b, journal w !! i = Some x ∧ RecordedAction.id x = RecordedAction.id a ∧
    journal w1 =
      Js.slice_from (- Config.maxActionHistory (config w))
        (<[i := completed a t b]> (journal w)).
Proof.
  unfold ActionHistory.completeAction.
  rewrite run_bind, (run_readonly _ _ readonly_getHeadHash).
  destruct (value GitWrapper.getHeadHash w) as [t|e]; [|intros [= _ <-]; auto].
  rewrite run_bind, getCurrentBranch_run, run_bind, loadHistory_run.
  fold (completed a t (current_branch w)). rewrite completed_id.
  destruct (Js.findIndex _ (journal w)) as [i|] eqn:Hi;
    [|rewrite run_ret; intros [= _ <-]; auto].
  rewrite saveHistory_run. intros [= _ <-].
  destruct (writable w); [right|left; reflexivity].
  apply findIndex_Some in Hi as (x & Hx & Hp & _).
  apply bool_decide_eq_true in Hp.
  exists i, x, t, (current_branch w). split; [exact Hx|]. split; [exact Hp|].
  apply journal_set_historyFile.
Qed.

Lemma hardReset_journal rev w res w0 :
  run (GitWrapper.hardReset rev) w = (res, w0) →
  journal w0 = journal w ∧ writable w0 = writable w ∧ config w0 = config w ∧
  cwd w0 = cwd w ∧ (∀ e, res = Throw e → w0 = w).
Proof.
  unfold GitWrapper.hardReset, git_mut, run.
  destruct (repo w); [|intros [= <- <-]; repeat split; reflexivity].
  destruct (faults w _); [intros [= <- <-]; repeat split; reflexivity|].
  destruct (Git.reset _ _ _); intros [= <- <-]; repeat split; try reflexivity.
  discriminate.
Qed.

Lemma undoLastAction_journal w res w1 :
  run ActionHistory.undoLastAction w = (res, w1) →
  journal w1 = journal w ∨
  ∃ i, journal w1 =
         Js.slice_from (- Config.maxActionHistory (config w))
           (alter (ActionHistory.with_canUndo false) i (journal w)).
Proof.
  unfold ActionHistory.undoLastAction.
  rewrite run_bind, getLastUndoableAction_run.
  destruct (List.find _ _) as [a|]; [|intros [= _ <-]; auto].
  destruct (negb _); [intros [= _ <-]; auto|].
  rewrite run_catch, run_bind.
  destruct (run (GitWrapper.hardReset _) w) as [[[]|e] w0] eqn:Hreset;
    apply hardReset_journal in Hreset as (Hj & Hw & Hc & _ & _).
  - rewrite run_bind, loadHistory_run, run_bind, Hj.
    destruct (Js.findIndex _ (journal w)) as [i|].
    + rewrite saveHistory_run, run_ret. intros [= _ <-].
      rewrite Hw, Hc. destruct (writable w); [right|left; exact Hj].
      exists i. apply journal_set_historyFile.
    + rewrite run_ret, run_ret. intros [= _ <-]. left. exact Hj.
  - rewrite run_ret. intros [= _ <-]. left. exact Hj.
Qed.

Lemma clearHistory_journal w res w1 :
  run ActionHistory.clearHistory w = (res, w1) →
  journal w1 = journal w ∨ journal w1 = [].
Proof.
  unfold ActionHistory.clearHistory. rewrite saveHistory_run. intros [= _ <-].
  destruct (writable w); [right|left; reflexivity].
  rewrite journal_set_historyFile.
  destruct (slice_from_drop (- Config.maxActionHistory (config w)) ([] : list RecordedAction.t))
    as [n ->].
  apply drop_nil.
Qed.

Lemma ids_slice_NoDup k actions : NoDup (ids actions) → NoDup (ids (Js.slice_from k actions)).
Proof.
  intros H. destruct (slice_from_suffix k actions) as [pre Hpre].
  rewrite Hpre in H. unfold ids in *. rewrite fmap_app in H.
  apply NoDup_app in H as (_ & _ & H). exact H.
Qed.

Lemma ids_insert_same actions i x b :
  actions !! i = Some x → RecordedAction.id x = RecordedAction.id b →
  ids (<[i := b]> actions) = ids actions.
Proof.
  intros Hx Hid. unfold ids. rewrite list_fmap_insert, <- Hid.
  apply list_insert_id. rewrite list_lookup_fmap, Hx. reflexivity.
Qed.

Lemma ids_alter_canUndo actions i :
  ids (alter (ActionHistory.with_canUndo false) i actions) = ids actions.
Proof.
  unfold ids. revert i. induction actions as [|a actions IH]; intros [|i]; cbn;
    try reflexivity; f_equal; apply IH.
Qed.

(** X13. The ids of the journal stay unique: recording under a fresh id,
    completing, undoing and clearing all keep a journal without repeated
    ids free of them, whatever git and the file system do. *)
Theorem journal_ids_stay_unique w :
  NoDup (ids (journal w)) →
  (∀ type description canUndo res w1,
     rand w (ticks w) ∉ ids (journal w) →
     run (ActionHistory.recordAction type description canUndo) w = (res, w1) →
     NoDup (ids (journal w1))) ∧
  (∀ a res w1,
     run (ActionHistory.completeAction a) w = (res, w1) → NoDup (ids (journal w1))) ∧
  (∀ res w1,
     run ActionHistory.undoLastAction w = (res, w1) → NoDup (ids (journal w1))) ∧
  (∀ res w1,
     run ActionHistory.clearHistory w = (res, w1) → NoDup (ids (journal w1))).
Proof.
  intros Hnd. repeat match goal with |- _ ∧ _ => split end.
  - intros ty d c res w1 Hfresh Hrun.
    apply recordAction_journal in Hrun as [-> | (a & _ & Hid & _ & ->)]; [exact Hnd|].
    apply ids_slice_NoDup. unfold ids in *. rewrite fmap_app. cbn.
    apply NoDup_app. split; [exact Hnd|]. split.
    + intros x Hx Hin. apply list_elem_of_singleton in Hin. subst x.
      rewrite Hid in Hx. contradiction.
    + apply NoDup_singleton.
  - intros a res w1 Hrun.
    apply completeAction_journal in Hrun as [-> | (i & x & t & b & Hx & Hid & ->)];
      [exact Hnd|].
    apply ids_slice_NoDup. rewrite (ids_insert_same _ i x); [exact Hnd|exact Hx|].
    rewrite completed_id. exact Hid.
  - intros res w1 Hrun.
    apply undoLastAction_journal in Hrun as [-> | (i & ->)]; [exact Hnd|].
    apply ids_slice_NoDup. rewrite ids_alter_canUndo. exact Hnd.
  - intros res w1 Hrun.
    apply clearHistory_journal in Hrun as [-> | ->]; [exact Hnd|apply NoDup_nil_2].
Qed.

Lemma journal_ids_stay_unique_witness :
  let w := SampleJournal.busy_world in
  NoDup (ids (journal w)) ∧
  (∀ type description canUndo res w1,
     rand w (ticks w) ∉ ids (journal w) →
     run (ActionHistory.recordAction type description canUndo) w = (res, w1) →
     NoDup (ids (journal w1))) ∧
  (∀ a res w1,
     run (ActionHistory.completeAction a) w = (res, w1) → NoDup (ids (journal w1))) ∧
  (∀ res w1,
     run ActionHistory.undoLastAction w = (res, w1) → NoDup (ids (journal w1))) ∧
  (∀ res w1,
     run ActionHistory.clearHistory w = (res, w1) → NoDup (ids (journal w1))).
Proof.
  intros w.
  assert (H1 : NoDup (ids (journal w))) by (apply (bool_decide_unpack _); vm_compute; exact I).
  split; [exact H1|].
  apply (journal_ids_stay_unique w H1).
Defined.

Lemma Forall_slice_from {A} (P : A → Prop) k (l : list A) :
  Forall P l → Forall P (Js.slice_from k l).
Proof.
  intros H. destruct (slice_from_drop k l) as [n ->]. apply Forall_drop, H.
Qed.

Lemma directive_ok_completed a t b :
  RecordedAction.undoCommand a = None → directive_ok (completed a t b).
Proof.
  intros Hnone c. unfold completed.
  destruct (RecordedAction.canUndo _ && negb _) eqn:E; cbn.
  - apply andb_true_iff in E as [_ E]. apply negb_true_iff, bool_decide_eq_false in E.
    cbn in E. intros [= <-]. split; [reflexivity|].
    eexists. split; [reflexivity|]. cbn. congruence.
  - rewrite Hnone. discriminate.
Qed.

Lemma directive_ok_with_canUndo flag a :
  directive_ok a → directive_ok (ActionHistory.with_canUndo flag a).
Proof. intros H c Hc. apply (H c Hc). Qed.

Lemma directive_ok_step w w1 :
  Forall directive_ok (journal w) → journal_step w w1 → Forall directive_ok (journal w1).
Proof.
  intros Hok Hstep.
  destruct Hstep as [ty d cu w res w1 Hrun|a w res w1 Hnone Hrun|w res w1 Hrun
                    |w res w1 Hrun|w r].
  - apply recordAction_journal in Hrun as [-> | (a & _ & _ & Hnone & ->)]; [exact Hok|].
    apply Forall_slice_from, Forall_app. split; [exact Hok|].
    apply Forall_singleton. intros c Hc. congruence.
  - apply completeAction_journal in Hrun as [-> | (i & x & t & b & _ & _ & ->)];
      [exact Hok|].
    apply Forall_slice_from, Forall_insert; [exact Hok|].
    apply directive_ok_completed, Hnone.
  - apply undoLastAction_journal in Hrun as [-> | (i & ->)]; [exact Hok|].
    apply Forall_slice_from, Forall_alter; auto using directive_ok_with_canUndo.
  - apply clearHistory_journal in Hrun as [-> | ->]; [exact Hok|constructor].
  - exact Hok.
Qed.

(** X14. Starting from an empty journal, whatever sequence of recording,
    completing, undoing, clearing and git changes follows, an entry
    carries an undo directive only together with an after-state whose head
    differs from the head before; so every action offered for undo moved
    HEAD, and its directive resets to the recorded head. *)
Theorem journal_directives_sound w w' :
  journal w = [] → rtc journal_step w w' →
  Forall directive_ok (journal w') ∧
  ∀ a, value ActionHistory.getLastUndoableAction w' = Ok (Some a) →
       RecordedAction.undoCommand a =
         Some ("git reset --hard " +:+ HeadState.headHash (RecordedAction.beforeState a)) ∧
       ∃ s, RecordedAction.afterState a = Some s ∧
            HeadState.headHash s ≠ HeadState.headHash (RecordedAction.beforeState a).
Proof.
  intros Hempty Hsteps.
  assert (Hok : Forall directive_ok (journal w')).
  { assert (H0 : Forall directive_ok (journal w)) by (rewrite Hempty; constructor).
    clear Hempty. induction Hsteps as [w|w w1 w2 Hstep _ IH]; [exact H0|].
    apply IH. eapply directive_ok_step; eassumption. }
  split; [exact Hok|].
  intros a Ha. unfold value in Ha. rewrite getLastUndoableAction_run in Ha.
  injection Ha as Ha. apply find_rev_Some in Ha as (Hu & older & newer & Hj & _).
  apply undoable_inv in Hu as (_ & (c & Hc & _) & _).
  assert (Hin : a ∈ journal w') by (rewrite Hj; apply elem_of_app; right; left).
  rewrite Forall_forall in Hok. destruct (Hok a Hin c Hc) as (-> & s & Hs & Hne).
  split; [exact Hc|]. eauto.
Qed.

Lemma journal_directives_sound_witness :
  let w := Samples.world_of Samples.local_repo in
  let a := pending w undo_commit "Undo 1 commit(s) with soft reset" true "c3" in
  let w1 := (run (ActionHistory.recordAction undo_commit
                    "Undo 1 commit(s) with soft reset" true) w).2 in
  let w2 := (run (GitWrapper.softReset (Git.HeadTilde 1)) w1).2 in
  let w3 := (run (ActionHistory.completeAction a) w2).2 in
  journal w = [] ∧ rtc journal_step w w3 ∧
  Forall directive_ok (journal w3) ∧
  ∀ a, value ActionHistory.getLastUndoableAction w3 = Ok (Some a) →
       RecordedAction.undoCommand a =
         Some ("git reset --hard " +:+ HeadState.headHash (RecordedAction.beforeState a)) ∧
       ∃ s, RecordedAction.afterState a = Some s ∧
            HeadState.headHash s ≠ HeadState.headHash (RecordedAction.beforeState a).
Proof.
  intros w a w1 w2 w3.
  assert (H1 : journal w = []) by reflexivity.
  assert (H2 : rtc journal_step w w3).
  { eapply rtc_l; [eapply step_record; apply surjective_pairing|].
    fold w1. eapply (rtc_l _ _ w2).
    { assert (E : ∃ r, w2 = set_repo r w1) by (eexists; vm_compute; reflexivity).
      destruct E as [r ->]. apply step_git. }
    eapply rtc_l; [|apply rtc_refl].
    eapply (step_complete a); [reflexivity|apply surjective_pairing]. }
  split; [exact H1|]. split; [exact H2|].
  apply (journal_directives_sound w w3 H1 H2).
Defined.

Example journal_directives_sound_offers_undo :
  let w := Samples.world_of Samples.local_repo in
  let a := pending w undo_commit "Undo 1 commit(s) with soft reset" true "c3" in
  let w1 := (run (ActionHistory.recordAction undo_commit
                    "Undo 1 commit(s) with soft reset" true) w).2 in
  let w2 := (run (GitWrapper.softReset (Git.HeadTilde 1)) w1).2 in
  let w3 := (run (ActionHistory.completeAction a) w2).2 in
  RecordedAction.undoCommand <$> List.find (ActionHistory.undoable (cwd w3)) (rev (journal w3))
  = Some (Some "git reset --hard c3").
Proof. vm_compute. reflexivity. Qed.

(** ** Undoing the last recorded action *)

Lemma hardReset_object_run h w res w0 :
  run (GitWrapper.hardReset (Git.Object h)) w = (res, w0) →
  match res with
  | Throw _ => w0 = w
  | Ok _ =>
      ∃ r r', repo w = Some r ∧ w0 = set_repo r' w ∧
              Git.HEAD r' = Some h ∧ Git.staged r' = [] ∧ Git.modified r' = [] ∧
              Git.objects r' = Git.objects r ∧
              h ∈ Git.hashes (Git.objects r)
  end.
Proof.
  unfold GitWrapper.hardReset, git_mut, run.
  destruct (repo w) as [r|]; [|intros [= <- <-]; reflexivity].
  destruct (faults w _); [intros [= <- <-]; reflexivity|].
  unfold Git.reset, Git.resolve.
  destruct (Git.lookup_commit (Git.objects r) h) as [c|] eqn:Hc; cbn;
    [|intros [= <- <-]; reflexivity].
  intros [= <- <-]. exists r. eexists. split; [reflexivity|]. split; [reflexivity|].
  pose proof (lookup_commit_hashes _ _ _ Hc).
  apply lookup_commit_Some in Hc as [-> _]. cbn. repeat split. assumption.
Qed.

Lemma undoLastAction_total w :
  ∃ ok msg w', run ActionHistory.undoLastAction w = (Ok (ok, msg), w').
Proof.
  unfold ActionHistory.undoLastAction.
  rewrite run_bind, getLastUndoableAction_run.
  destruct (List.find _ _) as [a|]; [|eexists _, _, _; reflexivity].
  destruct (negb _); [eexists _, _, _; reflexivity|].
  rewrite run_catch, run_bind.
  destruct (run (GitWrapper.hardReset _) w) as [[[]|e] w0].
  - rewrite run_bind, loadHistory_run, run_bind.
    destruct (Js.findIndex _ _).
    + rewrite saveHistory_run, run_ret. eexists _, _, _; reflexivity.
    + rewrite !run_ret. eexists _, _, _; reflexivity.
  - rewrite run_ret. eexists _, _, _; reflexivity.
Qed.

(** X15. [undoLastAction] never raises. When it reports
    failure the world is exactly as before. When it reports success, HEAD
    is at the head recorded before the undone action, and all staged and
    modified changes are gone, while the commits of the store are kept. *)
Theorem undoLastAction_outcome w :
  ∃ ok msg w',
    run ActionHistory.undoLastAction w = (Ok (ok, msg), w') ∧
    (ok = false → w' = w) ∧
    (ok = true →
       ∃ a r r',
         value ActionHistory.getLastUndoableAction w = Ok (Some a) ∧
         msg = "Undid " +:+ Js.quote +:+ RecordedAction.description a +:+ Js.quote ∧
         repo w = Some r ∧ repo w' = Some r' ∧
         Git.HEAD r' = Some (HeadState.headHash (RecordedAction.beforeState a)) ∧
         Git.staged r' = [] ∧ Git.modified r' = [] ∧
         Git.objects r' = Git.objects r).
Proof.
  unfold ActionHistory.undoLastAction, value.
  rewrite run_bind, getLastUndoableAction_run.
  destruct (List.find _ _) as [a|];
    [|eexists _, _, _; split; [reflexivity|]; split; [reflexivity|discriminate]].
  destruct (negb _);
    [eexists _, _, _; split; [reflexivity|]; split; [reflexivity|discriminate]|].
  rewrite run_catch, run_bind.
  destruct (run (GitWrapper.hardReset _) w) as [[[]|e] w0] eqn:Hreset;
    apply hardReset_object_run in Hreset.
  - destruct Hreset as (r & r' & Hr & -> & Hhead & Hst & Hmo & Hob & _).
    assert (Hfin : ∀ w1, repo w1 = Some r' →
              ∃ a0 r0 r1,
                Ok (Some a) = Ok (Some a0) ∧
                "Undid " +:+ Js.quote +:+ RecordedAction.description a +:+ Js.quote
                  = "Undid " +:+ Js.quote +:+ RecordedAction.description a0 +:+ Js.quote ∧
                repo w = Some r0 ∧ repo w1 = Some r1 ∧
                Git.HEAD r1 = Some (HeadState.headHash (RecordedAction.beforeState a0)) ∧
                Git.staged r1 = [] ∧ Git.modified r1 = [] ∧
                Git.objects r1 = Git.objects r0).
    { intros w1 Hw1. exists a, r, r'. repeat split; assumption. }
    rewrite run_bind, loadHistory_run, run_bind.
    destruct (Js.findIndex _ _).
    + rewrite saveHistory_run, run_ret.
      eexists _, _, _. split; [reflexivity|]. split; [discriminate|].
      intros _. apply Hfin. cbn. destruct (writable w); reflexivity.
    + rewrite !run_ret.
      eexists _, _, _. split; [reflexivity|]. split; [discriminate|].
      intros _. apply Hfin. reflexivity.
  - subst w0. rewrite run_ret.
    eexists _, _, _. split; [reflexivity|]. split; [reflexivity|discriminate].
Qed.

(** X16. With an operator who answers the prompt, the undo command of the
    history returns without a change when no action can be undone or when
    the operator does not confirm; once confirmed, it leaves the world as
    [undoLastAction] of the journal leaves it. *)
Theorem undo_command_needs_confirmation w :
  (value ActionHistory.getLastUndoableAction w = Ok None →
     run HistoryCommands.undoLastAction w = (Ok tt, w)) ∧
  (answer_confirm (operator w) "Undo this action?" = false →
     run HistoryCommands.undoLastAction w = (Ok tt, w)) ∧
  (answer_confirm (operator w) "Undo this action?" = true →
     (run HistoryCommands.undoLastAction w).2 = (run ActionHistory.undoLastAction w).2).
Proof.
  destruct (undoLastAction_total w) as (ok & msg & w' & Hu).
  unfold HistoryCommands.undoLastAction, value.
  rewrite run_bind, getLastUndoableAction_run.
  destruct (List.find _ _) as [a|] eqn:Hfind.
  - rewrite run_bind. unfold Prompts.confirmAction, Prompts.confirm. rewrite run_get.
    destruct (answer_confirm _ _); cbn [negb].
    + rewrite run_bind, Hu, run_ret.
      repeat split; eauto; discriminate.
    + rewrite run_ret. repeat split; eauto; discriminate.
  - rewrite run_ret. repeat split; eauto.
    intros _. unfold ActionHistory.undoLastAction.
    rewrite run_bind, getLastUndoableAction_run, Hfind. reflexivity.
Qed.

(** ** Branch names *)

Lemma all_chars_spec p s :
  Js.all_chars p s = true ↔ ∀ c, c ∈ chars s → p c = true.
Proof.
  unfold chars. induction s as [|a s IH]; cbn.
  - split; [intros _ c Hc; apply elem_of_nil in Hc; destruct Hc|reflexivity].
  - rewrite andb_true_iff, IH. split.
    + intros [Ha Hs] c Hc. apply elem_of_cons in Hc as [->|Hc]; auto.
    + intros H. split; [apply H; left|intros c Hc; apply H; right; exact Hc].
Qed.

Lemma is_branch_char_spec c : JsText.is_branch_char c = true ↔ c ∈ chars allowedChars.
Proof.
  assert (H : forallb (λ n, Bool.eqb (JsText.is_branch_char (ascii_of_nat n))
                              (bool_decide (ascii_of_nat n ∈ chars allowedChars)))
                (seq 0 256) = true) by (vm_compute; reflexivity).
  rewrite forallb_forall in H. specialize (H (nat_of_ascii c)).
  rewrite ascii_nat_embedding in H.
  assert (Hc : Bool.eqb (JsText.is_branch_char c) (bool_decide (c ∈ chars allowedChars))
               = true).
  { apply H, in_seq. pose proof (nat_ascii_bounded c). lia. }
  apply Bool.eqb_prop in Hc. rewrite Hc. apply bool_decide_eq_true.
Qed.

Lemma is_branch_char_not_space c : JsText.is_branch_char c = true → Js.is_space c = false.
Proof.
  unfold JsText.is_branch_char, Js.is_space. cbv zeta. intros H.
  apply bool_decide_eq_true in H. apply bool_decide_eq_false. lia.
Qed.

Lemma trimStart_no_space s :
  (∀ c, c ∈ chars s → Js.is_space c = false) → JsText.trimStart s = s.
Proof.
  destruct s as [|a s]; cbn; [reflexivity|]. intros H.
  rewrite (H a); [reflexivity|left].
Qed.

Lemma trimEnd_no_space s :
  (∀ c, c ∈ chars s → Js.is_space c = false) → JsText.trimEnd s = s.
Proof.
  unfold chars. induction s as [|a s IH]; cbn; [reflexivity|]. intros H.
  rewrite (H a) by left. cbn. rewrite IH; [reflexivity|].
  intros c Hc. apply H. right. exact Hc.
Qed.

Lemma trim_branch_name s : JsText.test_branch_name s = true → JsText.trim s = s.
Proof.
  unfold JsText.test_branch_name. rewrite andb_true_iff, all_chars_spec. intros [_ H].
  assert (Hs : ∀ c, c ∈ chars s → Js.is_space c = false)
    by (intros c Hc; apply is_branch_char_not_space, H, Hc).
  unfold JsText.trim. rewrite trimStart_no_space by exact Hs. apply trimEnd_no_space, Hs.
Qed.

Lemma test_branch_name_spec s :
  JsText.test_branch_name s = true ↔
  s ≠ EmptyString ∧ ∀ c, c ∈ chars s → c ∈ chars allowedChars.
Proof.
  unfold JsText.test_branch_name, Js.truthy.
  rewrite andb_true_iff, negb_true_iff, bool_decide_eq_false, all_chars_spec.
  split; intros [H1 H2]; (split; [exact H1|]); intros c Hc;
    apply is_branch_char_spec, H2, Hc.
Qed.

Lemma checkBeforeBranchCreate_run name w r :
  repo w = Some r → faults w Git.Branch = false →
  run (SafetyChecksMore.checkBeforeBranchCreate name) w =
  (Ok {| SafetyCheckResult.safe :=
           negb (bool_decide (name ∈ Git.branches r)) && JsText.test_branch_name name;
         SafetyCheckResult.warnings := [];
         SafetyCheckResult.blockers :=
           ((if bool_decide (name ∈ Git.branches r)
             then [SafetyChecksMore.branchExists name] else [])
            ++ (if negb (JsText.test_branch_name name)
                then [SafetyChecksMore.invalidCharacters] else []))%list |}, w).
Proof.
  intros Hr Hf. unfold SafetyChecksMore.checkBeforeBranchCreate.
  rewrite run_bind, (getBranches_run w r Hr Hf), run_ret.
  destruct (bool_decide (name ∈ Git.branches r)), (JsText.test_branch_name name);
    reflexivity.
Qed.

(** X17. [checkBeforeBranchCreate] is safe exactly when the name is not
    an existing branch and is a non-empty string over letters, digits,
    slash, underscore and hyphen; each blocker appears exactly for its
    cause, and there are never warnings. When [git branch] fails the check
    raises. *)
Theorem checkBeforeBranchCreate_safe_iff name w r :
  repo w = Some r →
  (faults w Git.Branch = false →
   ∃ res, run (SafetyChecksMore.checkBeforeBranchCreate name) w = (Ok res, w) ∧
     SafetyCheckResult.warnings res = [] ∧
     (SafetyCheckResult.safe res = true ↔ SafetyCheckResult.blockers res = []) ∧
     (SafetyCheckResult.safe res = true ↔
        (name ∉ Git.branches r) ∧ name ≠ EmptyString ∧
        ∀ c, c ∈ chars name → c ∈ chars allowedChars) ∧
     (SafetyChecksMore.branchExists name ∈ SafetyCheckResult.blockers res ↔
        name ∈ Git.branches r) ∧
     (SafetyChecksMore.invalidCharacters ∈ SafetyCheckResult.blockers res ↔
        ¬ (name ≠ EmptyString ∧ ∀ c, c ∈ chars name → c ∈ chars allowedChars))) ∧
  (faults w Git.Branch = true →
   ∃ e, run (SafetyChecksMore.checkBeforeBranchCreate name) w = (Throw e, w)).
Proof.
  intros Hr. split.
  - intros Hf. rewrite (checkBeforeBranchCreate_run name w r Hr Hf).
    eexists. split; [reflexivity|]. cbn.
    rewrite <- test_branch_name_spec.
    assert (Hne : SafetyChecksMore.branchExists name ≠ SafetyChecksMore.invalidCharacters).
    { unfold SafetyChecksMore.branchExists, SafetyChecksMore.invalidCharacters.
      cbn. intros [=]. }
    destruct (bool_decide (name ∈ Git.branches r)) eqn:Hb;
      [apply bool_decide_eq_true in Hb|apply bool_decide_eq_false in Hb];
      destruct (JsText.test_branch_name name); cbn;
      rewrite ?list_elem_of_singleton, ?elem_of_cons, ?elem_of_nil;
      intuition (try discriminate; try congruence).
  - intros Hf. unfold SafetyChecksMore.checkBeforeBranchCreate, GitWrapper.getBranches.
    rewrite run_bind, run_git, Hr, Hf. eauto.
Qed.

Lemma checkBeforeBranchCreate_safe_iff_witness :
  let w := Samples.world_of Samples.local_repo in
  let r := Samples.local_repo in
  repo w = Some r ∧
  (faults w Git.Branch = false →
   ∃ res, run (SafetyChecksMore.checkBeforeBranchCreate "feature/x-1") w = (Ok res, w) ∧
     SafetyCheckResult.warnings res = [] ∧
     (SafetyCheckResult.safe res = true ↔ SafetyCheckResult.blockers res = []) ∧
     (SafetyCheckResult.safe res = true ↔
        ("feature/x-1" ∉ Git.branches r) ∧ "feature/x-1" ≠ EmptyString ∧
        ∀ c, c ∈ chars "feature/x-1" → c ∈ chars allowedChars) ∧
     (SafetyChecksMore.branchExists "feature/x-1" ∈ SafetyCheckResult.blockers res ↔
        "feature/x-1" ∈ Git.branches r) ∧
     (SafetyChecksMore.invalidCharacters ∈ SafetyCheckResult.blockers res ↔
        ¬ ("feature/x-1" ≠ EmptyString ∧
           ∀ c, c ∈ chars "feature/x-1" → c ∈ chars allowedChars))) ∧
  (faults w Git.Branch = true →
   ∃ e, run (SafetyChecksMore.checkBeforeBranchCreate "feature/x-1") w = (Throw e, w)).
Proof.
  intros w r.
  assert (H1 : repo w = Some r) by reflexivity.
  split; [exact H1|].
  apply (checkBeforeBranchCreate_safe_iff "feature/x-1" w r H1).
Defined.

Example checkBeforeBranchCreate_examples :
  let w := Samples.world_of Samples.local_repo in
  let blockers name :=
    match value (SafetyChecksMore.checkBeforeBranchCreate name) w with
    | Ok res => SafetyCheckResult.blockers res
    | Throw e => [e]
    end in
  blockers "feature/x-1" = [] ∧
  blockers "main" = ["Branch " +:+ Js.quote +:+ "main" +:+ Js.quote +:+ " already exists"] ∧
  blockers "release-1.0" = ["Branch name contains invalid characters"] ∧
  blockers EmptyString = ["Branch name contains invalid characters"].
Proof. repeat split. Qed.

Lemma validateBranchName_Accepted value :
  PromptsMore.validateBranchName value = Accepted ↔ JsText.test_branch_name value = true.
Proof.
  unfold PromptsMore.validateBranchName. split.
  - destruct (negb (Js.truthy (JsText.trim value))); [discriminate|].
    destruct (JsText.test_branch_name value); [reflexivity|discriminate].
  - intros H. rewrite (trim_branch_name value H), H.
    unfold JsText.test_branch_name in H. apply andb_true_iff in H as [-> _]. reflexivity.
Qed.

(** X18. The validator of the branch-name prompt accepts exactly the
    non-empty strings over letters, digits, slash, underscore and hyphen;
    a blank input is rejected as empty, and any other character, such as a
    dot, rejects the name. A name the prompt accepts passes
    [checkBeforeBranchCreate] as soon as no branch of that name exists. *)
Theorem validateBranchName_accepts_iff value :
  (PromptsMore.validateBranchName value = Accepted ↔
     value ≠ EmptyString ∧ ∀ c, c ∈ chars value → c ∈ chars allowedChars) ∧
  (JsText.trim value = EmptyString →
     PromptsMore.validateBranchName value = Rejected "Branch name cannot be empty") ∧
  (∀ c, c ∈ chars value → c ∉ chars allowedChars →
     ∃ message, PromptsMore.validateBranchName value = Rejected message) ∧
  (∀ w r, repo w = Some r → faults w Git.Branch = false →
     PromptsMore.validateBranchName value = Accepted → value ∉ Git.branches r →
     ∃ res, run (SafetyChecksMore.checkBeforeBranchCreate value) w = (Ok res, w) ∧
            SafetyCheckResult.safe res = true ∧ SafetyCheckResult.blockers res = []).
Proof.
  repeat match goal with |- _ ∧ _ => split end.
  - rewrite validateBranchName_Accepted. apply test_branch_name_spec.
  - intros H. unfold PromptsMore.validateBranchName. rewrite H. reflexivity.
  - intros c Hc Hnot.
    destruct (PromptsMore.validateBranchName value) as [|m] eqn:E; [|eauto].
    apply validateBranchName_Accepted, test_branch_name_spec in E as [_ E].
    destruct (Hnot (E c Hc)).
  - intros w r Hr Hf Hacc Hfree.
    rewrite (checkBeforeBranchCreate_run value w r Hr Hf).
    apply validateBranchName_Accepted in Hacc. rewrite Hacc.
    rewrite (bool_decide_eq_false_2 _ Hfree). eexists. repeat split.
Qed.

Example validateBranchName_examples :
  PromptsMore.validateBranchName "feature/x-1" = Accepted ∧
  PromptsMore.validateBranchName "   " = Rejected "Branch name cannot be empty" ∧
  PromptsMore.validateBranchName "release-1.0" =
    Rejected "Branch name contains invalid characters (use only letters, numbers, /, _, -)".
Proof. repeat split. Qed.

(** ** Text processing of raw git output *)

Lemma append_cons x (a b : string) : String x a +:+ b = String x (a +:+ b).
Proof. reflexivity. Qed.

Lemma append_nil_l (b : string) : EmptyString +:+ b = b.
Proof. reflexivity. Qed.

Lemma append_assoc (a b c : string) : (a +:+ b) +:+ c = a +:+ (b +:+ c).
Proof.
  induction a as [|x a IH]; [reflexivity|]. rewrite !append_cons, IH. reflexivity.
Qed.

Lemma append_nil_r (a : string) : a +:+ EmptyString = a.
Proof.
  induction a as [|x a IH]; [reflexivity|]. rewrite append_cons, IH. reflexivity.
Qed.

Lemma chars_cons a s : chars (String a s) = a :: chars s.
Proof. reflexivity. Qed.

Lemma split_nonempty c s : JsText.split c s ≠ [].
Proof.
  destruct s as [|a s]; cbn; [discriminate|].
  destruct (bool_decide (a = c)); [discriminate|].
  destruct (JsText.split c s); discriminate.
Qed.

Lemma split_no_sep c s : c ∉ chars s → JsText.split c s = [s].
Proof.
  induction s as [|a s IH]; cbn [JsText.split]; [reflexivity|]. rewrite chars_cons. intros H.
  rewrite not_elem_of_cons in H. destruct H as [Hne H].
  rewrite bool_decide_eq_false_2 by congruence. rewrite (IH H). reflexivity.
Qed.

Lemma split_app_sep c a b :
  c ∉ chars a → JsText.split c (a +:+ String c b) = a :: JsText.split c b.
Proof.
  induction a as [|x a IH]; rewrite ?append_nil_l, ?append_cons; cbn [JsText.split].
  - intros _. rewrite bool_decide_eq_true_2 by reflexivity. reflexivity.
  - rewrite chars_cons. intros H. rewrite not_elem_of_cons in H. destruct H as [Hne H].
    rewrite bool_decide_eq_false_2 by congruence. rewrite (IH H). reflexivity.
Qed.

Lemma join_cons_String sep a x l :
  JsText.join sep (String a x :: l) = String a (JsText.join sep (x :: l)).
Proof. destruct l; reflexivity. Qed.

Lemma join_split c s : JsText.join (String c EmptyString) (JsText.split c s) = s.
Proof.
  induction s as [|a s IH]; cbn [JsText.split]; [reflexivity|].
  destruct (bool_decide (a = c)) eqn:E.
  - apply bool_decide_eq_true in E. subst a.
    destruct (JsText.split c s) as [|y l] eqn:Hs; [destruct (split_nonempty c s Hs)|].
    cbn [JsText.join]. rewrite append_nil_l, append_cons, append_nil_l.
    f_equal. exact IH.
  - destruct (JsText.split c s) as [|y l] eqn:Hs; [destruct (split_nonempty c s Hs)|].
    rewrite join_cons_String. f_equal. exact IH.
Qed.

Lemma includes_bar s : Js.includes "|" s = true ↔ "|"%char ∈ chars s.
Proof.
  induction s as [|a s IH].
  - cbn. split; [discriminate|]. intros H. apply elem_of_nil in H. destruct H.
  - rewrite chars_cons, elem_of_cons, <- IH. cbn [Js.includes String.prefix].
    destruct (ascii_dec "|" a) as [<-|Hne]; cbn [orb].
    + destruct s; cbn; split; auto.
    + split; [intros H; right; exact H|intros [H|H]; [congruence|exact H]].
Qed.

Lemma truthy_false s : Js.truthy s = false ↔ s = EmptyString.
Proof. unfold Js.truthy. rewrite negb_false_iff, bool_decide_eq_true. reflexivity. Qed.

Lemma truthy_true s : Js.truthy s = true ↔ s ≠ EmptyString.
Proof. unfold Js.truthy. rewrite negb_true_iff, bool_decide_eq_false. reflexivity. Qed.

Lemma trimEnd_cons c s :
  JsText.trimEnd (String c s) =
  if Js.is_space c && negb (Js.truthy (JsText.trimEnd s))
  then EmptyString else String c (JsText.trimEnd s).
Proof. reflexivity. Qed.

Lemma trimEnd_app a b :
  JsText.trimEnd (a +:+ b) =
  if Js.truthy (JsText.trimEnd b) then a +:+ JsText.trimEnd b else JsText.trimEnd a.
Proof.
  induction a as [|c a IH].
  - rewrite !append_nil_l. destruct (Js.truthy (JsText.trimEnd b)) eqn:E; [reflexivity|].
    apply truthy_false in E. rewrite E. reflexivity.
  - rewrite append_cons, !trimEnd_cons, IH.
    destruct (Js.truthy (JsText.trimEnd b)) eqn:E; [|reflexivity].
    assert (Ht : Js.truthy (a +:+ JsText.trimEnd b) = true).
    { apply truthy_true. apply truthy_true in E. destruct a; [exact E|discriminate]. }
    rewrite Ht, andb_false_r, append_cons. reflexivity.
Qed.

Lemma length_trimEnd s : String.length (JsText.trimEnd s) ≤ String.length s.
Proof.
  induction s as [|c s IH]; [reflexivity|]. rewrite trimEnd_cons.
  destruct (_ && _); cbn; lia.
Qed.

Lemma length_trimStart s : String.length (JsText.trimStart s) ≤ String.length s.
Proof.
  induction s as [|c s IH]; [reflexivity|]. cbn [JsText.trimStart].
  destruct (Js.is_space c); cbn; lia.
Qed.

Lemma trimStart_fix s : String.length (JsText.trimStart s) = String.length s →
  JsText.trimStart s = s.
Proof.
  destruct s as [|c s]; [reflexivity|]. cbn [JsText.trimStart].
  destruct (Js.is_space c); [|reflexivity].
  pose proof (length_trimStart s). cbn. lia.
Qed.

Lemma trim_fix s : JsText.trim s = s → JsText.trimStart s = s ∧ JsText.trimEnd s = s.
Proof.
  unfold JsText.trim. intros H.
  assert (Hs : JsText.trimStart s = s).
  { apply trimStart_fix. pose proof (length_trimStart s).
    pose proof (length_trimEnd (JsText.trimStart s)). rewrite H in *. lia. }
  rewrite Hs in H. auto.
Qed.

Lemma trimStart_app_fix l x :
  l ≠ EmptyString → JsText.trimStart l = l → JsText.trimStart (l +:+ x) = l +:+ x.
Proof.
  destruct l as [|c l]; [congruence|]. intros _. rewrite append_cons.
  cbn [JsText.trimStart]. destruct (Js.is_space c); [|reflexivity].
  intros H. pose proof (length_trimStart l). rewrite H in *. cbn in *. lia.
Qed.

Lemma unlines_cons l ls :
  JsText.unlines (l :: ls) = l +:+ String JsText.newline (JsText.unlines ls).
Proof. reflexivity. Qed.

Lemma is_space_newline : Js.is_space JsText.newline = true.
Proof. reflexivity. Qed.

(** Splitting a text of lines, white space at its end removed. *)
Lemma split_trimEnd_unlines ls :
  Forall is_line ls →
  List.filter Js.truthy (JsText.split JsText.newline (JsText.trimEnd (JsText.unlines ls)))
  = List.filter Js.truthy ls.
Proof.
  induction ls as [|l ls IH]; [reflexivity|]. intros H.
  apply Forall_cons in H as [[Hnl Htidy] Hls]. specialize (IH Hls).
  apply trim_fix in Htidy as [_ Hend].
  rewrite unlines_cons, trimEnd_app, trimEnd_cons, is_space_newline.
  destruct (Js.truthy (JsText.trimEnd (JsText.unlines ls))) eqn:E; cbn [andb negb].
  - change (Js.truthy (String JsText.newline (JsText.trimEnd (JsText.unlines ls)))) with true.
    cbv iota. rewrite (split_app_sep _ _ _ Hnl).
    cbn [List.filter]. rewrite IH. reflexivity.
  - change (Js.truthy EmptyString) with false. cbv iota.
    rewrite Hend, (split_no_sep _ _ Hnl).
    apply truthy_false in E. rewrite E in IH. cbn in IH.
    cbn [List.filter]. rewrite <- IH. reflexivity.
Qed.

Lemma trimStart_unlines ls :
  Forall is_line ls →
  ∃ ls', JsText.trimStart (JsText.unlines ls) = JsText.unlines ls' ∧
         Forall is_line ls' ∧ List.filter Js.truthy ls' = List.filter Js.truthy ls.
Proof.
  induction ls as [|l ls IH]; intros H.
  - exists []. repeat split. constructor.
  - pose proof H as Hall. apply Forall_cons in H as [[Hnl Htidy] Hls].
    destruct l as [|c l].
    + destruct (IH Hls) as (ls' & E & Hok & Hf). exists ls'.
      rewrite unlines_cons, append_nil_l. cbn [JsText.trimStart].
      rewrite is_space_newline. auto.
    + exists (String c l :: ls). split; [|auto].
      rewrite unlines_cons. apply trimStart_app_fix; [discriminate|].
      apply trim_fix, Htidy.
Qed.

(** The lines [lines] finds in a text of lines are its non-empty lines. *)
Lemma lines_unlines ls :
  Forall is_line ls → GitOutput.lines (JsText.unlines ls) = List.filter Js.truthy ls.
Proof.
  intros H. unfold GitOutput.lines, JsText.trim.
  destruct (trimStart_unlines ls H) as (ls' & -> & Hok & <-).
  apply split_trimEnd_unlines, Hok.
Qed.

Lemma split_unlines ls :
  Forall (λ l, JsText.newline ∉ chars l) ls →
  List.filter Js.truthy (JsText.split JsText.newline (JsText.unlines ls))
  = List.filter Js.truthy ls.
Proof.
  induction ls as [|l ls IH]; [reflexivity|]. intros H.
  apply Forall_cons in H as [Hnl Hls].
  rewrite unlines_cons, (split_app_sep _ _ _ Hnl). cbn [List.filter].
  rewrite (IH Hls). reflexivity.
Qed.

Lemma bar_append (a b : string) : a +:+ "|" +:+ b = a +:+ String "|" b.
Proof. reflexivity. Qed.

Lemma chars_app a b : chars (a +:+ b) = (chars a ++ chars b)%list.
Proof.
  induction a as [|c a IH]; [reflexivity|].
  rewrite append_cons, !chars_cons, IH. reflexivity.
Qed.

Lemma parseReflogLine_reflogLine e :
  "|"%char ∉ chars e.1 →
  GitOutput.parseReflogLine (reflogLine e) = GitWrapper.reflogEntry e.
Proof.
  intros H. unfold GitOutput.parseReflogLine, reflogLine, GitWrapper.reflogEntry.
  rewrite bar_append, (split_app_sep _ _ _ H). cbn [head tail default].
  rewrite (join_split "|" e.2). reflexivity.
Qed.

Lemma reflogLine_truthy e : Js.truthy (reflogLine e) = true.
Proof.
  apply truthy_true. unfold reflogLine. rewrite bar_append.
  destruct e.1; discriminate.
Qed.

Lemma filter_all_true {A} (p : A → bool) (l : list A) :
  Forall (λ x, p x = true) l → List.filter p l = l.
Proof.
  induction 1 as [|x l Hx _ IH]; [reflexivity|]. cbn. rewrite Hx, IH. reflexivity.
Qed.

(** X19. Reading back a reflog listing: for entries whose hash holds no
    bar, printed one per line as hash, bar, subject, [getReflog]'s parsing
    of the text returns each hash and the whole subject, bars included,
    with the action read off the subject. A line without a bar is taken
    as a hash with an empty subject. *)
Theorem parseReflog_round_trip entries :
  Forall (λ e, ("|"%char ∉ chars e.1) ∧ is_line (reflogLine e)) entries →
  GitOutput.parseReflog (JsText.unlines (reflogLine <$> entries))
    = GitWrapper.reflogEntry <$> entries ∧
  ∀ line, "|"%char ∉ chars line →
    GitOutput.parseReflogLine line =
    {| ReflogEntry.hash := line; ReflogEntry.action := "unknown";
       ReflogEntry.message := EmptyString |}.
Proof.
  intros H. split.
  - unfold GitOutput.parseReflog. rewrite lines_unlines.
    + rewrite filter_all_true.
      * rewrite <- list_fmap_compose. apply list_fmap_ext.
        intros i e He. cbn. apply parseReflogLine_reflogLine.
        rewrite Forall_forall in H. apply H. apply list_elem_of_lookup. eauto.
      * apply Forall_fmap, Forall_forall. intros e _. apply reflogLine_truthy.
    + apply Forall_fmap. eapply Forall_impl; [exact H|]. intros e [_ He]. exact He.
  - intros line Hl. unfold GitOutput.parseReflogLine.
    rewrite (split_no_sep _ _ Hl). reflexivity.
Qed.

Lemma parseReflog_round_trip_witness :
  let entries := Git.reflog Samples.deleted_topic_repo in
  Forall (λ e, ("|"%char ∉ chars e.1) ∧ is_line (reflogLine e)) entries ∧
  GitOutput.parseReflog (JsText.unlines (reflogLine <$> entries))
    = GitWrapper.reflogEntry <$> entries ∧
  ∀ line, "|"%char ∉ chars line →
    GitOutput.parseReflogLine line =
    {| ReflogEntry.hash := line; ReflogEntry.action := "unknown";
       ReflogEntry.message := EmptyString |}.
Proof.
  intros entries.
  assert (H : Forall (λ e, ("|"%char ∉ chars e.1) ∧ is_line (reflogLine e)) entries).
  { unfold is_line. apply (bool_decide_unpack _). vm_compute. exact I. }
  split; [exact H|].
  apply (parseReflog_round_trip entries H).
Defined.

Example parseReflog_subject_with_bar :
  GitOutput.parseReflog (JsText.unlines ["c2|commit: a|b"; "c1|commit (initial): first"])
  = [ {| ReflogEntry.hash := "c2"; ReflogEntry.action := "commit";
         ReflogEntry.message := "commit: a|b" |};
      {| ReflogEntry.hash := "c1"; ReflogEntry.action := "unknown";
         ReflogEntry.message := "commit (initial): first" |} ].
Proof. reflexivity. Qed.

Lemma head_split_bar s : head (JsText.split "|" s) = Some (Js.before_bar s).
Proof.
  induction s as [|a s IH]; [reflexivity|]. cbn [JsText.split Js.before_bar].
  destruct (bool_decide (a = "|"%char)); [reflexivity|].
  destruct (JsText.split "|" s) as [|x l]; [discriminate|].
  cbn in IH. injection IH as <-. reflexivity.
Qed.

Lemma includes_bar_false s : "|"%char ∉ chars s → Js.includes "|" s = false.
Proof.
  intros H. destruct (Js.includes "|" s) eqn:E; [|reflexivity].
  apply includes_bar in E. contradiction.
Qed.

Lemma deletedFilesLoop_paths paths rest h m acc :
  h ≠ EmptyString →
  Forall (λ path, path ≠ EmptyString ∧ ("|"%char ∉ chars path)) paths →
  GitOutput.deletedFilesLoop (paths ++ rest) h m acc =
  GitOutput.deletedFilesLoop rest h m (acc ++ ((λ path, (path, h, m)) <$> paths))%list.
Proof.
  intros Hh H. revert acc. induction H as [|p paths [Hp Hbar] _ IH]; intros acc.
  - cbn. rewrite app_nil_r. reflexivity.
  - cbn [app GitOutput.deletedFilesLoop].
    rewrite (includes_bar_false _ Hbar).
    apply truthy_true in Hp, Hh. rewrite Hp, Hh. cbn [andb].
    rewrite IH. cbn [fmap list_fmap]. rewrite <- app_assoc. reflexivity.
Qed.

Lemma deletedFilesLoop_group g rest h0 m0 acc :
  group_ok g →
  GitOutput.deletedFilesLoop (groupLines g ++ rest) h0 m0 acc =
  GitOutput.deletedFilesLoop rest g.1.1 (Js.before_bar g.1.2) (acc ++ groupFiles g)%list.
Proof.
  intros (Hh & Hbar & Hpaths). unfold groupLines.
  cbn [app GitOutput.deletedFilesLoop].
  assert (Hinc : Js.includes "|" (g.1.1 +:+ "|" +:+ g.1.2) = true).
  { apply includes_bar. rewrite bar_append, chars_app, chars_cons.
    apply elem_of_app. right. left. }
  rewrite Hinc, bar_append, (split_app_sep _ _ _ Hbar).
  assert (E0 : (g.1.1 :: JsText.split "|" g.1.2) !! 0 = Some g.1.1) by reflexivity.
  assert (E1 : (g.1.1 :: JsText.split "|" g.1.2) !! 1 = head (JsText.split "|" g.1.2))
    by (destruct (JsText.split "|" g.1.2); reflexivity).
  rewrite E0, E1, head_split_bar. cbn [default].
  apply deletedFilesLoop_paths; assumption.
Qed.

Lemma deletedFilesLoop_groups groups h0 m0 acc :
  Forall group_ok groups →
  GitOutput.deletedFilesLoop (flat_map groupLines groups) h0 m0 acc =
  (acc ++ flat_map groupFiles groups)%list.
Proof.
  intros H. revert h0 m0 acc. induction H as [|g groups Hg _ IH]; intros h0 m0 acc.
  - cbn. rewrite app_nil_r. reflexivity.
  - cbn [flat_map]. rewrite (deletedFilesLoop_group g _ h0 m0 acc Hg), IH, app_assoc.
    reflexivity.
Qed.

Lemma deletedFilesLoop_no_header paths acc m :
  Forall (λ path, "|"%char ∉ chars path) paths →
  GitOutput.deletedFilesLoop paths EmptyString m acc = acc.
Proof.
  induction 1 as [|p paths Hp _ IH]; [reflexivity|].
  cbn [GitOutput.deletedFilesLoop]. rewrite (includes_bar_false _ Hp).
  rewrite andb_false_r. exact IH.
Qed.

(** X20. Reading back a listing of deleted files: when the non-empty
    lines of the text are, commit after commit, a header of hash, bar,
    subject followed by the paths deleted there, [getDeletedFiles] reports
    every path once, in order, with the hash of its commit and the subject
    up to its first bar. Paths that come before any header are dropped. *)
Theorem parseDeletedFiles_round_trip groups text :
  Forall group_ok groups → Forall is_line text →
  List.filter Js.truthy text = flat_map groupLines groups →
  GitOutput.parseDeletedFiles (JsText.unlines text) = flat_map groupFiles groups ∧
  ∀ paths, Forall (λ path, "|"%char ∉ chars path) paths →
    GitOutput.deletedFilesLoop (paths ++ flat_map groupLines groups)
      EmptyString EmptyString [] = flat_map groupFiles groups.
Proof.
  intros Hg Ht Hf. split.
  - unfold GitOutput.parseDeletedFiles.
    rewrite (lines_unlines text Ht), Hf.
    apply (deletedFilesLoop_groups groups _ _ [] Hg).
  - intros paths Hp. induction Hp as [|p paths Hp _ IH].
    + apply (deletedFilesLoop_groups groups _ _ [] Hg).
    + cbn [app GitOutput.deletedFilesLoop]. rewrite (includes_bar_false _ Hp).
      rewrite andb_false_r. exact IH.
Qed.

Lemma parseDeletedFiles_round_trip_witness :
  let groups : list deletedGroup :=
    [("c3", "remove old|unused docs", ["docs/a.md"; "docs/b.md"]);
     ("c2", "drop cache", ["cache.bin"])] in
  let text :=
    ["c3|remove old|unused docs"; EmptyString; "docs/a.md"; "docs/b.md"; EmptyString;
     "c2|drop cache"; EmptyString; "cache.bin"] in
  Forall group_ok groups ∧ Forall is_line text ∧
  List.filter Js.truthy text = flat_map groupLines groups ∧
  GitOutput.parseDeletedFiles (JsText.unlines text) = flat_map groupFiles groups ∧
  ∀ paths, Forall (λ path, "|"%char ∉ chars path) paths →
    GitOutput.deletedFilesLoop (paths ++ flat_map groupLines groups)
      EmptyString EmptyString [] = flat_map groupFiles groups.
Proof.
  intros groups text.
  assert (H1 : Forall group_ok groups).
  { unfold group_ok. apply (bool_decide_unpack _). vm_compute. exact I. }
  assert (H2 : Forall is_line text).
  { unfold is_line. apply (bool_decide_unpack _). vm_compute. exact I. }
  assert (H3 : List.filter Js.truthy text = flat_map groupLines groups) by reflexivity.
  split; [exact H1|]. split; [exact H2|]. split; [exact H3|].
  apply (parseDeletedFiles_round_trip groups text H1 H2 H3).
Defined.

Example parseDeletedFiles_example :
  GitOutput.parseDeletedFiles
    (JsText.unlines ["c3|remove old|unused docs"; EmptyString; "docs/a.md"; "docs/b.md";
                     EmptyString; "c2|drop cache"; EmptyString; "cache.bin"])
  = [("docs/a.md", "c3", "remove old"); ("docs/b.md", "c3", "remove old");
     ("cache.bin", "c2", "drop cache")].
Proof. reflexivity. Qed.

Lemma strip_app pre s : Js.strip pre (pre +:+ s) = Some s.
Proof.
  induction pre as [|c pre IH]; [destruct s; reflexivity|].
  rewrite append_cons. cbn [Js.strip].
  rewrite bool_decide_eq_true_2 by reflexivity. exact IH.
Qed.

(** X21. Reading back a dry run of [git clean]: every non-empty line is
    reported, with a leading "Would remove " taken off and any other line
    left as it is; so for a listing of paths, each printed after that
    prefix, [cleanDryRun] returns exactly the paths. *)
Theorem parseCleanDryRun_round_trip :
  (∀ text, Forall (λ l, JsText.newline ∉ chars l) text →
     GitOutput.parseCleanDryRun (JsText.unlines text) =
     JsText.remove_prefix "Would remove " <$> List.filter Js.truthy text) ∧
  (∀ paths, Forall (λ path, JsText.newline ∉ chars path) paths →
     GitOutput.parseCleanDryRun
       (JsText.unlines ((λ path, "Would remove " +:+ path) <$> paths)) = paths) ∧
  (∀ l, Js.strip "Would remove " l = None →
     JsText.remove_prefix "Would remove " l = l) ∧
  GitOutput.parseCleanDryRun EmptyString = [].
Proof.
  assert (H1 : ∀ text, Forall (λ l, JsText.newline ∉ chars l) text →
     GitOutput.parseCleanDryRun (JsText.unlines text) =
     JsText.remove_prefix "Would remove " <$> List.filter Js.truthy text).
  { intros text H. unfold GitOutput.parseCleanDryRun. rewrite (split_unlines text H).
    reflexivity. }
  split; [exact H1|]. split; [|split; [|reflexivity]].
  - intros paths H. rewrite H1.
    + rewrite filter_all_true.
      * rewrite <- list_fmap_compose. rewrite <- (list_fmap_id paths) at 2.
        apply list_fmap_ext. intros i p _. unfold compose, JsText.remove_prefix.
        rewrite strip_app. reflexivity.
      * apply Forall_fmap, Forall_forall. intros p _. unfold compose.
        apply truthy_true. rewrite append_cons. discriminate.
    + apply Forall_fmap. eapply Forall_impl; [exact H|]. intros p Hp. unfold compose.
      rewrite chars_app. intros Hin. apply elem_of_app in Hin as [Hin|Hin]; [|auto].
      revert Hin. apply (bool_decide_unpack _). vm_compute. exact I.
  - intros l H. unfold JsText.remove_prefix. rewrite H. reflexivity.
Qed.

Example parseCleanDryRun_example :
  GitOutput.parseCleanDryRun
    (JsText.unlines ["Would remove build/"; "Would skip repository vendor/lib";
                     "Would remove notes.txt"])
  = ["build/"; "Would skip repository vendor/lib"; "notes.txt"].
Proof. reflexivity. Qed.

(** ** Detached HEAD *)

(** X22. [getDetachedHeadInfo] answers in every world. In a repository
    where git answers it returns nothing unless HEAD is detached, and for
    a detached HEAD the first seven characters of its hash with the message
    of the newest commit. *)
Theorem getDetachedHeadInfo_result w :
  (∃ info, run GitQueries.getDetachedHeadInfo w = (Ok info, w)) ∧
  (∀ r, repo w = Some r → healthy w →
     (¬ detached r → run GitQueries.getDetachedHeadInfo w = (Ok None, w)) ∧
     (∀ h, Git.HEAD r = Some h → detached r →
        run GitQueries.getDetachedHeadInfo w =
        (Ok (Some (Js.substring0 7 h, shownMessage (head (candidates r 1)))), w))).
Proof.
  split.
  - apply catch_ret_total. readonly.
  - intros r Hr Hh.
    pose proof (detached_current_branch w r Hr (Hh _)) as Hd.
    unfold GitQueries.getDetachedHeadInfo.
    rewrite run_catch, run_bind, isDetachedHead_run.
    split.
    + intros Hn. rewrite bool_decide_eq_false_2 by tauto. reflexivity.
    + intros h Hhead Hdet. rewrite bool_decide_eq_true_2 by tauto. cbn [negb].
      rewrite run_bind, (getHeadHash_run w r h Hr (Hh _) Hhead).
      rewrite run_bind, (getLastCommit_run w r Hr (Hh _)). reflexivity.
Qed.

Example getDetachedHeadInfo_detached :
  value GitQueries.getDetachedHeadInfo (Samples.world_of detached_repo)
  = Ok (Some ("c2", "second")).
Proof. reflexivity. Qed.

(** ** utils/config.ts *)

(** X23. Saving a partial configuration and reading it back gives the
    previous configuration with the given keys replaced, whatever their
    values; saving again changes nothing; a failed save leaves the file as
    it was; and a missing or unparseable file reads as the defaults. *)
Theorem config_round_trip (config : ConfigFile.Partial) (d : ConfigFile.Disk) :
  let d' := ConfigFile.saveConfig config d in
  (ConfigFile.dirReady d = true → ConfigFile.fileWritable d = true →
     ConfigFile.getConfig d' = ConfigFile.spread (ConfigFile.getConfig d) config) ∧
  (ConfigFile.dirReady d = false ∨ ConfigFile.fileWritable d = false → d' = d) ∧
  ConfigFile.saveConfig config d' = d' ∧
  (ConfigFile.dirReady d = false ∨ ConfigFile.file d = ConfigFile.Missing
     ∨ ConfigFile.file d = ConfigFile.Corrupt →
     ConfigFile.getConfig d = Config.defaultConfig) ∧
  (∀ n, ConfigFile.maxActionHistory config = Some n →
     ConfigFile.dirReady d = true → ConfigFile.fileWritable d = true →
     Config.maxActionHistory (ConfigFile.getConfig d') = n).
Proof.
  destruct d as [ready file writable], config as [c m v].
  unfold ConfigFile.saveConfig, ConfigFile.getConfig. cbn.
  repeat match goal with |- _ ∧ _ => split end.
  - intros -> ->. destruct file as [| |[c0 m0 v0]]; cbn; destruct c, m, v; reflexivity.
  - intros [E | E]; rewrite E; [reflexivity|]. destruct ready; reflexivity.
  - destruct ready; [|reflexivity]. destruct writable; [|reflexivity]. cbn.
    destruct file as [| |[c0 m0 v0]]; cbn; destruct c, m, v; reflexivity.
  - intros [E | [E | E]]; rewrite E; try reflexivity; destruct ready; reflexivity.
  - intros n [= ->] -> ->. destruct file as [| |[c0 m0 v0]]; reflexivity.
Qed.

Example config_zero_maximum_is_stored :
  let d := {| ConfigFile.dirReady := true; ConfigFile.file := ConfigFile.Corrupt;
              ConfigFile.fileWritable := true |} in
  ConfigFile.getConfig
    (ConfigFile.saveConfig
       {| ConfigFile.confirmDangerousActions := None;
          ConfigFile.maxActionHistory := Some 0%Z;
          ConfigFile.verbose := None |} d)
  = SampleJournal.zero_maximum.
Proof. reflexivity. Qed.

(** ** commands/menu.ts *)

Lemma buildMenuItems_run state w :
  ∃ entries,
    run (Menu.buildMenuItems state) w = (Ok entries, w) ∧
    menuValues entries =
      ((if RepoState.isDetachedHead state then ["fix-detached"] else [])
       ++ (if RepoState.ongoingOperation state is Some _ then ["abort"] else [])
       ++ ["undo"; "fix-message"; "add-files"; "squash"; "recover-branch";
           "unstage"; "discard"; "clean"]
       ++ (if RepoState.ongoingOperation state is Some _ then [] else ["abort"])
       ++ ["recover-file"; "stash"; "undo-action"; "history"; "exit"])%list ∧
    selectable "abort" entries = bool_decide (is_Some (RepoState.ongoingOperation state)) ∧
    selectable "undo" entries = bool_decide (is_Some (RepoState.lastCommit state)) ∧
    selectable "fix-message" entries = bool_decide (is_Some (RepoState.lastCommit state)) ∧
    selectable "add-files" entries = bool_decide (is_Some (RepoState.lastCommit state)) ∧
    selectable "squash" entries = bool_decide (is_Some (RepoState.lastCommit state)) ∧
    selectable "unstage" entries = RepoState.hasStagedChanges state ∧
    selectable "discard" entries = RepoState.hasUncommittedChanges state ∧
    selectable "clean" entries = (0 <? untrackedCount state) ∧
    selectable "undo-action" entries =
      bool_decide (is_Some (List.find (ActionHistory.undoable (cwd w)) (rev (journal w)))) ∧
    selectable "recover-branch" entries = true ∧
    selectable "recover-file" entries = true ∧
    selectable "stash" entries = true ∧
    selectable "history" entries = true ∧
    selectable "exit" entries = true.
Proof.
  unfold Menu.buildMenuItems.
  rewrite run_bind, getLastUndoableAction_run, run_ret.
  eexists. split; [reflexivity|].
  fold (untrackedCount state).
  set (u := List.find (ActionHistory.undoable (cwd w)) (rev (journal w))).
  set (uc := untrackedCount state).
  set (lc := RepoState.lastCommit state).
  set (hs := RepoState.hasStagedChanges state).
  set (hu := RepoState.hasUncommittedChanges state).
  set (dh := RepoState.isDetachedHead state).
  set (oo := RepoState.ongoingOperation state).
  clearbody u uc lc hs hu dh oo.
  destruct dh, oo as [op|];
    repeat match goal with |- _ ∧ _ => split end;
    vm_compute;
    repeat match goal with
           | |- context [match ?x with _ => _ end] => is_var x; destruct x
           end;
    reflexivity.
Qed.

(** X24. The menu always holds the fourteen regular items, each value
    once: the abort item appears exactly once, recommended when an
    operation is in progress and greyed out otherwise, and the item for a
    detached HEAD only when HEAD is detached. The four commit items can be
    selected exactly when a last commit is known, unstage, discard and
    clean exactly when the snapshot shows staged, uncommitted or untracked
    files, and the journal undo exactly when the journal offers an action
    to undo. *)
Theorem buildMenuItems_offers state w :
  ∃ entries,
    run (Menu.buildMenuItems state) w = (Ok entries, w) ∧
    NoDup (menuValues entries) ∧
    (∀ v, v ∈ ["undo"; "fix-message"; "add-files"; "squash"; "recover-branch"; "unstage";
               "discard"; "clean"; "abort"; "recover-file"; "stash"; "undo-action";
               "history"; "exit"] → v ∈ menuValues entries) ∧
    ("fix-detached" ∈ menuValues entries ↔ RepoState.isDetachedHead state = true) ∧
    (selectable "abort" entries = true ↔ is_Some (RepoState.ongoingOperation state)) ∧
    (∀ v, v ∈ ["undo"; "fix-message"; "add-files"; "squash"] →
       (selectable v entries = true ↔ is_Some (RepoState.lastCommit state))) ∧
    (selectable "unstage" entries = true ↔ RepoState.hasStagedChanges state = true) ∧
    (selectable "discard" entries = true ↔ RepoState.hasUncommittedChanges state = true) ∧
    (selectable "clean" entries = true ↔ 0 < untrackedCount state) ∧
    (selectable "undo-action" entries = true ↔
       ∃ a, value ActionHistory.getLastUndoableAction w = Ok (Some a)) ∧
    (∀ v, v ∈ ["recover-branch"; "recover-file"; "stash"; "history"; "exit"] →
       selectable v entries = true).
Proof.
  destruct (buildMenuItems_run state w)
    as (entries & Hrun & Hvals & Habort & Hundo & Hfix & Hadd & Hsquash & Hunstage
        & Hdiscard & Hclean & Haction & Hrb & Hrf & Hstash & Hhist & Hexit).
  exists entries. split; [exact Hrun|].
  repeat match goal with |- _ ∧ _ => split end.
  - rewrite Hvals.
    destruct (RepoState.isDetachedHead state), (RepoState.ongoingOperation state);
      apply (bool_decide_unpack _); vm_compute; exact I.
  - intros v Hv. rewrite Hvals.
    destruct (RepoState.isDetachedHead state), (RepoState.ongoingOperation state);
      cbn [app]; set_unfold; tauto.
  - rewrite Hvals.
    destruct (RepoState.isDetachedHead state), (RepoState.ongoingOperation state);
      cbn [app]; split; intros Hx;
      first [ reflexivity | discriminate Hx | left
            | exfalso; revert Hx; apply (bool_decide_unpack _); vm_compute; exact I ].
  - rewrite Habort. apply bool_decide_eq_true.
  - intros v Hv. rewrite <- (bool_decide_eq_true (is_Some (RepoState.lastCommit state))).
    set_unfold. destruct Hv as [-> | [-> | [-> | [-> | []]]]];
      rewrite ?Hundo, ?Hfix, ?Hadd, ?Hsquash; reflexivity.
  - rewrite Hunstage. reflexivity.
  - rewrite Hdiscard. reflexivity.
  - rewrite Hclean. apply Nat.ltb_lt.
  - rewrite Haction, bool_decide_eq_true. unfold value.
    rewrite getLastUndoableAction_run. cbn.
    split; [intros [a Ha]; exists a; congruence|intros [a [= Ha]]; eauto].
  - intros v Hv. set_unfold. destruct Hv as [-> | [-> | [-> | [-> | [-> | []]]]]]; assumption.
Qed.

Lemma detectRepoState_healthy w r :
  repo w = Some r → healthy w →
  ∃ s, run StateDetector.detectRepoState w = (Ok s, w) ∧
    RepoState.isDetachedHead s = bool_decide (current_branch w = Some "HEAD") ∧
    RepoState.ongoingOperation s = ongoing_of r ∧
    RepoState.lastCommit s = head (candidates r 1) ∧
    RepoState.hasStagedChanges s = (0 <? length (Git.staged r)) ∧
    RepoState.hasUncommittedChanges s =
      ((0 <? length (Git.staged r)) || (0 <? length (Git.modified r))) ∧
    RepoState.status s = Some (status_of r).
Proof.
  intros Hr Hh.
  unfold StateDetector.detectRepoState.
  rewrite run_catch, run_bind, (isGitRepo_run w r Hr (Hh _)). cbn [negb].
  destruct (queryBatch_run w) as (hr & lc & oo & cf & sl & _ & Hlc & Hoo & _ & _ & Hq).
  rewrite (getLastCommit_run w r Hr (Hh _)) in Hlc.
  rewrite (getOngoingOperation_run w r Hr (Hh _)) in Hoo.
  injection Hlc as <-. injection Hoo as <-.
  assert (Hst : value GitWrapper.getStatus w = Ok (status_of r)).
  { unfold value. rewrite (getStatus_run w r Hr (Hh _)). reflexivity. }
  rewrite run_bind, Hq, Hst.
  eexists. split; [reflexivity|]. repeat split.
Qed.

(** X25. The menu built from the snapshot of a repository where git
    answers: the four commit items can be selected exactly when the
    history has a commit, unstage, discard and clean exactly when files
    are staged, staged or modified, and untracked, abort exactly when an
    operation marker exists, and the detached-HEAD item is offered exactly
    when HEAD is detached. With a single commit the squash item can be
    selected although [canSquashCommits] refuses. *)
Theorem menu_of_detected_state w r :
  repo w = Some r → healthy w →
  ∃ s entries,
    run StateDetector.detectRepoState w = (Ok s, w) ∧
    run (Menu.buildMenuItems s) w = (Ok entries, w) ∧
    (∀ v, v ∈ ["undo"; "fix-message"; "add-files"; "squash"] →
       (selectable v entries = true ↔ 1 ≤ Git.commit_count r)) ∧
    (selectable "unstage" entries = true ↔ Git.staged r ≠ []) ∧
    (selectable "discard" entries = true ↔ Git.staged r ≠ [] ∨ Git.modified r ≠ []) ∧
    (selectable "clean" entries = true ↔ Git.untracked r ≠ []) ∧
    (selectable "abort" entries = true ↔ marker r = true) ∧
    ("fix-detached" ∈ menuValues entries ↔ detached r) ∧
    (Git.commit_count r = 1 →
       selectable "squash" entries = true ∧
       ∃ v, run Can.canSquashCommits w = (Ok v, w) ∧ Verdict.allowed v = false).
Proof.
  intros Hr Hh.
  destruct (detectRepoState_healthy w r Hr Hh)
    as (s & Hs & Hdet & Hop & Hlc & Hstaged & Hunc & Hstatus).
  destruct (buildMenuItems_run s w)
    as (entries & Hrun & Hvals & Habort & Hundo & Hfix & Hadd & Hsquash & Hunstage
        & Hdiscard & Hclean & _).
  exists s, entries. split; [exact Hs|]. split; [exact Hrun|].
  assert (Hcommit : bool_decide (is_Some (RepoState.lastCommit s)) = true
                    ↔ 1 ≤ Git.commit_count r).
  { rewrite bool_decide_eq_true, Hlc. apply head_candidates_Some. }
  repeat match goal with |- _ ∧ _ => split end.
  - intros v Hv. set_unfold. destruct Hv as [-> | [-> | [-> | [-> | []]]]];
      rewrite ?Hundo, ?Hfix, ?Hadd, ?Hsquash; exact Hcommit.
  - rewrite Hunstage, Hstaged. apply nonempty_length.
  - rewrite Hdiscard, Hunc, orb_true_iff, !nonempty_length. reflexivity.
  - rewrite Hclean. unfold untrackedCount. rewrite Hstatus. cbn.
    apply nonempty_length.
  - rewrite Habort, bool_decide_eq_true, Hop. apply ongoing_of_marker.
  - assert (Hd : RepoState.isDetachedHead s = true ↔ detached r).
    { rewrite Hdet, bool_decide_eq_true. apply (detached_current_branch w r Hr (Hh _)). }
    rewrite <- Hd, Hvals.
    destruct (RepoState.isDetachedHead s), (RepoState.ongoingOperation s);
      cbn [app]; split; intros Hx;
      first [ reflexivity | discriminate Hx | left
            | exfalso; revert Hx; apply (bool_decide_unpack _); vm_compute; exact I ].
  - intros Hone. split; [rewrite Hsquash; apply Hcommit; lia|].
    destruct (canSquashCommits_run w) as (l & Hl & Hc).
    rewrite (getRecentCommits_run w r 2 Hr (Hh _)) in Hl. injection Hl as <-.
    eexists. split; [exact Hc|].
    assert (E : (length (candidates r 2) <? 2) = true).
    { rewrite few_candidates. apply Nat.ltb_lt. lia. }
    rewrite E. reflexivity.
Qed.

Lemma menu_of_detected_state_witness :
  let w := SampleJournal.reworded_world in
  let r := SampleJournal.reworded_repo in
  repo w = Some r ∧ healthy w ∧
  ∃ s entries,
    run StateDetector.detectRepoState w = (Ok s, w) ∧
    run (Menu.buildMenuItems s) w = (Ok entries, w) ∧
    (∀ v, v ∈ ["undo"; "fix-message"; "add-files"; "squash"] →
       (selectable v entries = true ↔ 1 ≤ Git.commit_count r)) ∧
    (selectable "unstage" entries = true ↔ Git.staged r ≠ []) ∧
    (selectable "discard" entries = true ↔ Git.staged r ≠ [] ∨ Git.modified r ≠ []) ∧
    (selectable "clean" entries = true ↔ Git.untracked r ≠ []) ∧
    (selectable "abort" entries = true ↔ marker r = true) ∧
    ("fix-detached" ∈ menuValues entries ↔ detached r) ∧
    (Git.commit_count r = 1 →
       selectable "squash" entries = true ∧
       ∃ v, run Can.canSquashCommits w = (Ok v, w) ∧ Verdict.allowed v = false).
Proof.
  intros w r.
  assert (H1 : repo w = Some r) by reflexivity.
  assert (H2 : healthy w) by (intros cmd; reflexivity).
  split; [exact H1|]. split; [exact H2|].
  apply (menu_of_detected_state w r H1 H2).
Defined.

(** ** What the operator can and cannot decide *)

Lemma readonly_confirmDangerousAction actionName details warnings :
  readonly (SafetyChecksMore.confirmDangerousAction actionName details warnings).
Proof. unfold SafetyChecksMore.confirmDangerousAction, Prompts.confirm. readonly. Qed.

(** X26. No answer of the operator overrides a blocker, and a safe
    result without warnings proceeds without a question; only warnings are
    put to the operator. A dangerous action is put to the operator exactly
    when the configuration asks for confirmations, whatever the action and
    its warnings are. Neither prompt changes anything. *)
Theorem prompts_decide (res : SafetyCheckResult.t) w :
  (SafetyCheckResult.safe res = false →
     ∀ op, value (SafetyChecks.showSafetyWarnings res) (with_operator op w) = Ok false) ∧
  (SafetyCheckResult.safe res = true → SafetyCheckResult.warnings res = [] →
     ∀ op, value (SafetyChecks.showSafetyWarnings res) (with_operator op w) = Ok true) ∧
  (SafetyCheckResult.safe res = true → SafetyCheckResult.warnings res ≠ [] →
     ∀ op, value (SafetyChecks.showSafetyWarnings res) (with_operator op w)
           = Ok (answer_confirm op "Continue anyway?")) ∧
  (∀ actionName details warnings op,
     value (SafetyChecksMore.confirmDangerousAction actionName details warnings)
       (with_operator op w)
     = Ok (if Config.confirmDangerousActions (config w)
           then answer_confirm op "Do you want to proceed?" else true)) ∧
  readonly (SafetyChecks.showSafetyWarnings res) ∧
  (∀ actionName details warnings,
     readonly (SafetyChecksMore.confirmDangerousAction actionName details warnings)).
Proof.
  repeat match goal with |- _ ∧ _ => split end.
  - intros Hs op. unfold SafetyChecks.showSafetyWarnings. rewrite Hs. reflexivity.
  - intros Hs Hw op. unfold SafetyChecks.showSafetyWarnings. rewrite Hs, Hw. reflexivity.
  - intros Hs Hw op. unfold SafetyChecks.showSafetyWarnings. rewrite Hs. cbn [negb].
    apply nonempty_length in Hw. rewrite Hw. reflexivity.
  - intros a d ws op. unfold SafetyChecksMore.confirmDangerousAction, value.
    rewrite run_bind, run_get. cbn [config with_operator].
    destruct (Config.confirmDangerousActions (config w)); reflexivity.
  - apply readonly_showSafetyWarnings.
  - apply readonly_confirmDangerousAction.
Qed.

(** ** A journal file that cannot be written *)

Lemma saveHistory_locked actions w :
  writable w = false → run (ActionHistory.saveHistory actions) w = (Ok tt, w).
Proof. intros H. rewrite saveHistory_run, H. reflexivity. Qed.

(** X27. When the journal file cannot be written, recording, completing,
    undoing and clearing all leave it as it is and report nothing of it:
    [recordAction] still returns its action, and a successful
    [undoLastAction] moves HEAD while the undone action stays the one
    offered for undo. *)
Theorem journal_locked_file w :
  writable w = false →
  (∀ type description canUndo res w1,
     run (ActionHistory.recordAction type description canUndo) w = (res, w1) →
     historyFile w1 = historyFile w ∧
     (is_Some (repo w ≫= Git.HEAD) → faults w Git.RevParseHead = false →
      ∃ a, res = Ok a)) ∧
  (∀ a res w1,
     run (ActionHistory.completeAction a) w = (res, w1) → w1 = w) ∧
  (∀ res w1, run ActionHistory.clearHistory w = (res, w1) → w1 = w) ∧
  (∀ res w1,
     run ActionHistory.undoLastAction w = (res, w1) →
     historyFile w1 = historyFile w ∧
     value ActionHistory.getLastUndoableAction w1
       = value ActionHistory.getLastUndoableAction w).
Proof.
  intros Hw. repeat match goal with |- _ ∧ _ => split end.
  - intros ty d cu res w1.
    unfold ActionHistory.recordAction.
    rewrite run_bind, run_get, run_bind. unfold ActionHistory.generateId at 1.
    unfold run at 1. simpl.
    rewrite run_bind, run_get, run_bind, (run_readonly _ _ readonly_getHeadHash).
    destruct (value GitWrapper.getHeadHash (tick w)) as [h|e] eqn:Hh.
    + rewrite run_bind, getCurrentBranch_run, run_bind, loadHistory_run, run_bind.
      rewrite saveHistory_locked by exact Hw. rewrite run_ret. intros [= <- <-].
      split; [reflexivity|eauto].
    + intros [= <- <-]. split; [reflexivity|].
      intros [h0 Hh0] Hf. exfalso.
      unfold value, GitWrapper.getHeadHash in Hh. rewrite run_git in Hh.
      cbn [repo faults tick] in Hh. rewrite Hf in Hh.
      destruct (repo w) as [r|]; [|discriminate Hh0]. cbn in Hh0. rewrite Hh0 in Hh.
      discriminate Hh.
  - intros a res w1. unfold ActionHistory.completeAction.
    rewrite run_bind, (run_readonly _ _ readonly_getHeadHash).
    destruct (value GitWrapper.getHeadHash w) as [t|e]; [|intros [= _ <-]; reflexivity].
    rewrite run_bind, getCurrentBranch_run, run_bind, loadHistory_run.
    destruct (Js.findIndex _ (journal w)) as [i|].
    + rewrite saveHistory_locked by exact Hw. intros [= _ <-]. reflexivity.
    + rewrite run_ret. intros [= _ <-]. reflexivity.
  - intros res w1. unfold ActionHistory.clearHistory.
    rewrite saveHistory_locked by exact Hw. intros [= _ <-]. reflexivity.
  - intros res w1. unfold ActionHistory.undoLastAction.
    rewrite run_bind, getLastUndoableAction_run.
    destruct (List.find _ _) as [a|]; [|intros [= _ <-]; split; reflexivity].
    destruct (negb _); [intros [= _ <-]; split; reflexivity|].
    rewrite run_catch, run_bind.
    destruct (run (GitWrapper.hardReset _) w) as [[[]|e] w0] eqn:Hreset.
    + assert (Hfile : historyFile w0 = historyFile w ∧ writable w0 = false ∧ cwd w0 = cwd w).
      { unfold GitWrapper.hardReset, git_mut, run in Hreset.
        destruct (repo w); [|discriminate]. destruct (faults w _); [discriminate|].
        destruct (Git.reset _ _ _); [|discriminate]. injection Hreset as <-.
        repeat split. exact Hw. }
      destruct Hfile as (Hf & Hw0 & Hc).
      assert (Hsame : historyFile w0 = historyFile w ∧
                      value ActionHistory.getLastUndoableAction w0
                      = value ActionHistory.getLastUndoableAction w).
      { split; [exact Hf|]. unfold value. rewrite !getLastUndoableAction_run.
        unfold journal. rewrite Hf, Hc. reflexivity. }
      rewrite run_bind, loadHistory_run, run_bind.
      destruct (Js.findIndex _ _).
      * rewrite saveHistory_locked by exact Hw0. rewrite run_ret.
        intros [= _ <-]. exact Hsame.
      * rewrite !run_ret. intros [= _ <-]. exact Hsame.
    + apply hardReset_journal in Hreset as (_ & _ & _ & _ & Hthrow).
      rewrite (Hthrow e eq_refl), run_ret. intros [= _ <-]. split; reflexivity.
Qed.

Lemma journal_locked_file_witness :
  let w := locked_world in
  writable w = false ∧
  (∀ type description canUndo res w1,
     run (ActionHistory.recordAction type description canUndo) w = (res, w1) →
     historyFile w1 = historyFile w ∧
     (is_Some (repo w ≫= Git.HEAD) → faults w Git.RevParseHead = false →
      ∃ a, res = Ok a)) ∧
  (∀ a res w1,
     run (ActionHistory.completeAction a) w = (res, w1) → w1 = w) ∧
  (∀ res w1, run ActionHistory.clearHistory w = (res, w1) → w1 = w) ∧
  (∀ res w1,
     run ActionHistory.undoLastAction w = (res, w1) →
     historyFile w1 = historyFile w ∧
     value ActionHistory.getLastUndoableAction w1
       = value ActionHistory.getLastUndoableAction w).
Proof.
  intros w.
  assert (H1 : writable w = false) by reflexivity.
  split; [exact H1|].
  apply (journal_locked_file w H1).
Defined.

Example undoLastAction_locked_can_repeat :
  let w1 := (run ActionHistory.undoLastAction locked_world).2 in
  let w2 := (run ActionHistory.undoLastAction w1).2 in
  value ActionHistory.undoLastAction locked_world
    = Ok (true, "Undid " +:+ Js.quote +:+ "Fix commit message" +:+ Js.quote) ∧
  value ActionHistory.undoLastAction w1
    = Ok (true, "Undid " +:+ Js.quote +:+ "Fix commit message" +:+ Js.quote) ∧
  Git.HEAD <$> repo w2 = Some (Some "c2") ∧
  journal w2 = SampleJournal.three_entries.
Proof. repeat split. Qed.
